(** * The client-side CRM store: accounts, chats, managers, transfers, members

    A shallow embedding of the [AppProvider] state module
    (frontend/src/context, the provider that follows the auth provider in
    the same file), of the transfer form of [TransfersManager.tsx] and of
    the [ChatMessages] effect that drives the identity reconciler, and of
    the auth provider of the same file.

    Conventions of the embedding.
    - JavaScript numbers that carry ids, counters and millisecond clocks
      are integers and are modelled by [Z].
    - An optional field [f?: T] is [option T]; [None] is [undefined] (the
      key is dropped by [JSON.stringify], so the two are indistinguishable
      after a round trip through the store).
    - A key of [localStorage] holds a string; the embedding keeps, instead
      of the string, the outcome of [JSON.parse] on it ([Payload]).
    - [Date.now()] and [new Date().toISOString()] are read from a [Clock]
      passed to every operation; all reads inside one call see the same
      instant.
    - In the store of the provider ([LocalStorage]) a stored collection
      that parses is an array of records of the type the provider declares
      for it; only the fields the code itself tests ([manager_id] and the
      legacy [account_id] of a chat, the keyword list) range over ill-typed
      values.  A text that parses to another value ([null], [{}], a number)
      is not a store of this model; what the migration does with [null]
      and [{}] is modelled on the envelope ([StoredJson],
      [migrateEnvelope]).
    - An effect runs closed over the state its commit rendered.  Where an
      effect is the only one to touch a cell in its commit this is the
      current state, and the effect is a function of the [World]; where
      two effects of one commit touch the same cell the later one is given
      the rendered list it closes over ([repairChats_in_commit]).
    - A [useState] setter called with an updater [prev => ...] is the
      application of that updater to the current state; every operation is
      a function from [World] to [World]. *)

From Stdlib Require Import ZArith List String Bool Lia.
From Stdlib Require Import DecimalString.
From Stdlib Require Import Ascii.
Import ListNotations.
Local Open Scope string_scope.
Local Open Scope list_scope.
Local Open Scope Z_scope.

Set Implicit Arguments.

(** ** JavaScript helpers *)

(** Truthiness of a [string | undefined]: [undefined] and [''] are falsy. *)
Definition str_truthy (o : option string) : bool :=
  match o with
  | Some EmptyString => false
  | Some _ => true
  | None => false
  end.

(** [a || b] on optional strings. *)
Definition str_or (a b : option string) : option string :=
  if str_truthy a then a else b.

(** [a || undefined]. *)
Definition str_or_undefined (a : option string) : option string :=
  str_or a None.

(** [a || 'literal']. *)
Definition str_or_lit (a : option string) (d : string) : string :=
  match str_or a (Some d) with
  | Some s => s
  | None => d
  end.

(** Truthiness of a [number | undefined]: [undefined] and [0] are falsy. *)
Definition num_truthy (o : option Z) : bool :=
  match o with
  | Some n => negb (n =? 0)
  | None => false
  end.

(** [a || b] on optional numbers. *)
Definition num_or (a b : option Z) : option Z :=
  if num_truthy a then a else b.

(** [a ?? b]: only [undefined]/[null] falls through. *)
Definition nullish_or {A : Type} (a b : option A) : option A :=
  match a with
  | Some _ => a
  | None => b
  end.

(** [String(n)] for an integer below [1e21] in absolute value (from there
    on JavaScript prints an exponent); the ids it is applied to are far
    below. *)
Definition js_String (n : Z) : string :=
  NilZero.string_of_int (Z.to_int n).

(** [s.slice(-2)]: the last two characters (all of [s] when shorter). *)
Definition slice_last2 (s : string) : string :=
  let n := String.length s in
  substring (Nat.sub n 2) 2 s.

(** What a field that the type calls a number may hold in a legacy store. *)
Inductive JsId : Type :=
  | IdNullish                (* the key is missing, or null *)
  | IdNum (n : Z)            (* typeof x === 'number' *)
  | IdOther (s : string).    (* any other value, as its JSON text *)

(** [x === n] for a number [n]. *)
Definition id_is (x : JsId) (n : Z) : bool :=
  match x with
  | IdNum m => m =? n
  | _ => false
  end.

(** [typeof x === 'number' && ids.has(x)]. *)
Definition id_in (x : JsId) (ids : list Z) : bool :=
  match x with
  | IdNum m => existsb (Z.eqb m) ids
  | _ => false
  end.

(** [a ?? b] on such fields. *)
Definition id_nullish_or (a b : JsId) : JsId :=
  match a with
  | IdNullish => b
  | _ => a
  end.

(** ** The clock *)

Record Clock : Type := mkClock {
  now_ms : Z;          (* Date.now() *)
  now_iso : string     (* new Date().toISOString() *)
}.

(** ** Data model (types.ts) *)

Inductive ChatType : Type := private | group | supergroup | channel.

Definition ChatType_eqb (a b : ChatType) : bool :=
  match a, b with
  | private, private | group, group
  | supergroup, supergroup | channel, channel => true
  | _, _ => false
  end.

Inductive Category : Type := client | partner | lead | spam | other.

Inductive Source : Type := source_private | source_group.

Inductive Status : Type := new | in_progress | completed | cancelled.

Inductive Role : Type := manager | admin.

Inductive MemberRole : Type :=
  member | member_admin | creator | restricted | member_left | kicked.

Record TelegramUser : Type := mkTelegramUser {
  u_id : Z;
  u_first_name : string;
  u_last_name : option string;
  u_username : option string;
  u_photo_url : option string;
  u_is_bot : bool
}.

(** [reply_to_message] is never set by the store and is left out. *)
Record Message : Type := mkMessage {
  msg_id : Z;
  msg_chat_id : Z;
  msg_sender_id : Z;
  msg_text : string;
  msg_date : Z;
  msg_from_me : bool
}.

(** [c_account_id] is the legacy owner field that the migration and the
    repair pass still read; the interface no longer declares it. *)
Record Chat : Type := mkChat {
  c_id : Z;
  c_type : ChatType;
  c_title : option string;
  c_username : option string;
  c_first_name : option string;
  c_last_name : option string;
  c_photo : option string;
  c_last_message : option Message;
  c_unread_count : Z;
  c_pinned : bool;
  c_muted : bool;
  c_is_bot_chat : bool;
  c_manager_id : JsId;
  c_account_id : JsId
}.

Record Manager : Type := mkManager {
  m_id : Z;
  m_name : string;
  m_telegram_user_id : option Z;
  m_role : option Role;
  m_created_at : string
}.

Record UsernameChange : Type := mkUsernameChange {
  uc_username : string;
  uc_changed_at : string
}.

Record Account : Type := mkAccount {
  a_id : Z;
  a_user_id : Z;
  a_username : option string;
  a_username_history : option (list UsernameChange);
  a_first_name : string;
  a_last_name : option string;
  a_rating : Z;
  a_tags : list string;
  a_category : Category;
  a_notes : string;
  a_source : Source;
  a_created_at : string;
  a_last_contact : string;
  a_total_messages : Z;
  a_chat_type : option ChatType;
  a_registration_date : option string;
  a_brand_name : option string;
  a_position : option string;
  a_years_in_market : option Z;
  a_manager_id : option Z
}.

Record ChatSummary : Type := mkChatSummary {
  cs_chat_id : Z;
  cs_summary : string;
  cs_key_points : list string;
  cs_sentiment : string;
  cs_last_updated : string
}.

Record ChatMember : Type := mkChatMember {
  cm_chat_id : Z;
  cm_user_id : Z;
  cm_added_at : string;
  cm_user : option TelegramUser;
  cm_role : option MemberRole
}.

Record TransferRecord : Type := mkTransferRecord {
  tr_id : Z;
  tr_supplier_account_id : Z;
  tr_client_account_id : Z;
  tr_created_at : string;
  tr_status : Status;
  tr_notes : option string
}.

(** ** The persisted local store *)

(** The outcome of [JSON.parse] on a stored string: it throws, or it
    yields a value of the type the provider expects under the key.  A text
    that parses to a value of another shape has no payload here. *)
Inductive Payload (A : Type) : Type :=
  | Unparseable            (* JSON.parse throws *)
  | Parsed (v : A).

Arguments Unparseable {A}.
Arguments Parsed {A} v.

(** A key of [localStorage]: [None] when [getItem] returns [null] (or the
    empty string, which the [if (raw)] tests treat alike). *)
Definition Slot (A : Type) : Type := option (Payload A).

(** The keyword list is the one payload whose shape the loader inspects. *)
Inductive KwItem : Type :=
  | KwString (s : string)
  | KwOther.

Inductive KwJson : Type :=
  | KwArray (items : list KwItem)
  | KwNotArray.

Record LocalStorage : Type := mkLocalStorage {
  telegram_crm_logged_in : option string;
  telegram_crm_accounts : Slot (list Account);
  telegram_crm_chats_v2 : Slot (list Chat);
  telegram_crm_managers : Slot (list Manager);
  telegram_crm_transfers : Slot (list TransferRecord);
  telegram_crm_keywords : Slot KwJson;
  telegram_crm_schema_version : option string;
  telegram_crm_chat_members : Slot (list ChatMember)
}.

(** ** The provider's state ([useState] cells) *)

Record AppState : Type := mkAppState {
  chats : list Chat;
  activeChat : option Chat;
  managers : list Manager;
  activeManager : option Manager;
  accounts : list Account;
  chatSummaries : list ChatSummary;
  transferRecords : list TransferRecord;
  chatMembers : list ChatMember;
  keywords : list string
}.

(** The keys the provider writes, for the log of [setItem] calls. *)
Inductive StoreKey : Type :=
  | key_accounts | key_chats_v2 | key_managers | key_transfers
  | key_keywords | key_schema_version | key_chat_members.

(** The provider's state, the store, and the [setItem] calls made so far
    (oldest first). *)
Record World : Type := mkWorld {
  state : AppState;
  store : LocalStorage;
  writes : list StoreKey
}.

Definition emptyState : AppState :=
  mkAppState [] None [] None [] [] [] [] [].

Definition emptyStorage : LocalStorage :=
  mkLocalStorage None None None None None None None None.

(** *** State setters *)

Definition setChats (v : list Chat) (w : World) : World :=
  let s := state w in
  mkWorld (mkAppState v (activeChat s) (managers s) (activeManager s)
             (accounts s) (chatSummaries s) (transferRecords s)
             (chatMembers s) (keywords s)) (store w) (writes w).

Definition setActiveChat (v : option Chat) (w : World) : World :=
  let s := state w in
  mkWorld (mkAppState (chats s) v (managers s) (activeManager s)
             (accounts s) (chatSummaries s) (transferRecords s)
             (chatMembers s) (keywords s)) (store w) (writes w).

Definition setManagers (v : list Manager) (w : World) : World :=
  let s := state w in
  mkWorld (mkAppState (chats s) (activeChat s) v (activeManager s)
             (accounts s) (chatSummaries s) (transferRecords s)
             (chatMembers s) (keywords s)) (store w) (writes w).

Definition setActiveManager (v : option Manager) (w : World) : World :=
  let s := state w in
  mkWorld (mkAppState (chats s) (activeChat s) (managers s) v
             (accounts s) (chatSummaries s) (transferRecords s)
             (chatMembers s) (keywords s)) (store w) (writes w).

Definition setAccounts (v : list Account) (w : World) : World :=
  let s := state w in
  mkWorld (mkAppState (chats s) (activeChat s) (managers s) (activeManager s)
             v (chatSummaries s) (transferRecords s)
             (chatMembers s) (keywords s)) (store w) (writes w).

Definition setChatSummaries (v : list ChatSummary) (w : World) : World :=
  let s := state w in
  mkWorld (mkAppState (chats s) (activeChat s) (managers s) (activeManager s)
             (accounts s) v (transferRecords s)
             (chatMembers s) (keywords s)) (store w) (writes w).

Definition setTransferRecords (v : list TransferRecord) (w : World) : World :=
  let s := state w in
  mkWorld (mkAppState (chats s) (activeChat s) (managers s) (activeManager s)
             (accounts s) (chatSummaries s) v
             (chatMembers s) (keywords s)) (store w) (writes w).

Definition setChatMembers (v : list ChatMember) (w : World) : World :=
  let s := state w in
  mkWorld (mkAppState (chats s) (activeChat s) (managers s) (activeManager s)
             (accounts s) (chatSummaries s) (transferRecords s)
             v (keywords s)) (store w) (writes w).

Definition setKeywords (v : list string) (w : World) : World :=
  let s := state w in
  mkWorld (mkAppState (chats s) (activeChat s) (managers s) (activeManager s)
             (accounts s) (chatSummaries s) (transferRecords s)
             (chatMembers s) v) (store w) (writes w).

(** *** [localStorage.setItem(key, JSON.stringify(v))], one per key *)

Definition setItem_accounts (v : list Account) (w : World) : World :=
  let l := store w in
  mkWorld (state w)
    (mkLocalStorage (telegram_crm_logged_in l) (Some (Parsed v))
       (telegram_crm_chats_v2 l) (telegram_crm_managers l)
       (telegram_crm_transfers l) (telegram_crm_keywords l)
       (telegram_crm_schema_version l) (telegram_crm_chat_members l))
    (writes w ++ [key_accounts]).

Definition setItem_chats_v2 (v : list Chat) (w : World) : World :=
  let l := store w in
  mkWorld (state w)
    (mkLocalStorage (telegram_crm_logged_in l) (telegram_crm_accounts l)
       (Some (Parsed v)) (telegram_crm_managers l)
       (telegram_crm_transfers l) (telegram_crm_keywords l)
       (telegram_crm_schema_version l) (telegram_crm_chat_members l))
    (writes w ++ [key_chats_v2]).

Definition setItem_managers (v : list Manager) (w : World) : World :=
  let l := store w in
  mkWorld (state w)
    (mkLocalStorage (telegram_crm_logged_in l) (telegram_crm_accounts l)
       (telegram_crm_chats_v2 l) (Some (Parsed v))
       (telegram_crm_transfers l) (telegram_crm_keywords l)
       (telegram_crm_schema_version l) (telegram_crm_chat_members l))
    (writes w ++ [key_managers]).

Definition setItem_transfers (v : list TransferRecord) (w : World) : World :=
  let l := store w in
  mkWorld (state w)
    (mkLocalStorage (telegram_crm_logged_in l) (telegram_crm_accounts l)
       (telegram_crm_chats_v2 l) (telegram_crm_managers l)
       (Some (Parsed v)) (telegram_crm_keywords l)
       (telegram_crm_schema_version l) (telegram_crm_chat_members l))
    (writes w ++ [key_transfers]).

Definition setItem_schema_version (v : string) (w : World) : World :=
  let l := store w in
  mkWorld (state w)
    (mkLocalStorage (telegram_crm_logged_in l) (telegram_crm_accounts l)
       (telegram_crm_chats_v2 l) (telegram_crm_managers l)
       (telegram_crm_transfers l) (telegram_crm_keywords l)
       (Some v) (telegram_crm_chat_members l))
    (writes w ++ [key_schema_version]).

Definition setItem_chat_members (v : list ChatMember) (w : World) : World :=
  let l := store w in
  mkWorld (state w)
    (mkLocalStorage (telegram_crm_logged_in l) (telegram_crm_accounts l)
       (telegram_crm_chats_v2 l) (telegram_crm_managers l)
       (telegram_crm_transfers l) (telegram_crm_keywords l)
       (telegram_crm_schema_version l) (Some (Parsed v)))
    (writes w ++ [key_chat_members]).

(** [try { v = JSON.parse(raw) } catch {}] with [v] initialised to [[]]:
    what the guarded readers see. *)
Definition parse_or_empty {A : Type} (s : Slot (list A)) : list A :=
  match s with
  | Some (Parsed v) => v
  | _ => []
  end.

(** ** Accounts (contacts) *)

(** [Partial<Account>]: [None] when the key is absent from the object.  A
    key of an optional field may be present and hold [undefined]
    ([Some None]); the spread copies it all the same. *)
Record AccountPatch : Type := mkAccountPatch {
  p_id : option Z;
  p_user_id : option Z;
  p_username : option (option string);
  p_username_history : option (option (list UsernameChange));
  p_first_name : option string;
  p_last_name : option (option string);
  p_rating : option Z;
  p_tags : option (list string);
  p_category : option Category;
  p_notes : option string;
  p_source : option Source;
  p_created_at : option string;
  p_last_contact : option string;
  p_total_messages : option Z;
  p_chat_type : option (option ChatType);
  p_registration_date : option (option string);
  p_brand_name : option (option string);
  p_position : option (option string);
  p_years_in_market : option (option Z);
  p_manager_id : option (option Z)
}.

(** The patch with no key. *)
Definition noPatch : AccountPatch :=
  mkAccountPatch None None None None None None None None None None
                 None None None None None None None None None None.

(** One key of [{ ...account, ...updates }]. *)
Definition spread {A : Type} (old : A) (upd : option A) : A :=
  match upd with
  | Some v => v
  | None => old
  end.

(** [{ ...account, ...updates, username_history }]. *)
Definition spreadAccount (account : Account) (updates : AccountPatch)
    (username_history : list UsernameChange) : Account :=
  mkAccount
    (spread (a_id account) (p_id updates))
    (spread (a_user_id account) (p_user_id updates))
    (spread (a_username account) (p_username updates))
    (Some username_history)
    (spread (a_first_name account) (p_first_name updates))
    (spread (a_last_name account) (p_last_name updates))
    (spread (a_rating account) (p_rating updates))
    (spread (a_tags account) (p_tags updates))
    (spread (a_category account) (p_category updates))
    (spread (a_notes account) (p_notes updates))
    (spread (a_source account) (p_source updates))
    (spread (a_created_at account) (p_created_at updates))
    (spread (a_last_contact account) (p_last_contact updates))
    (spread (a_total_messages account) (p_total_messages updates))
    (spread (a_chat_type account) (p_chat_type updates))
    (spread (a_registration_date account) (p_registration_date updates))
    (spread (a_brand_name account) (p_brand_name updates))
    (spread (a_position account) (p_position updates))
    (spread (a_years_in_market account) (p_years_in_market updates))
    (spread (a_manager_id account) (p_manager_id updates)).

(** [a === b] on [string | undefined]. *)
Definition opt_string_eqb (a b : option string) : bool :=
  match a, b with
  | Some x, Some y => String.eqb x y
  | None, None => true
  | _, _ => false
  end.

(** [updates.username && updates.username !== account.username]. *)
Definition username_changes (updates : AccountPatch) (account : Account) : bool :=
  match p_username updates with
  | Some u => str_truthy u && negb (opt_string_eqb u (a_username account))
  | None => false
  end.

(** The body of the [map] callback of [updateAccount]. *)
Definition updateAccount_one (clk : Clock) (id : Z) (updates : AccountPatch)
    (account : Account) : Account :=
  if negb (a_id account =? id) then account
  else
    let username_history0 :=
      match a_username_history account with
      | Some h => h
      | None => []
      end in
    let username_history :=
      if username_changes updates account then
        firstn 20
          (mkUsernameChange (str_or_lit (a_username account) "(empty)")
                            (now_iso clk)
           :: username_history0)
      else username_history0 in
    spreadAccount account updates username_history.

(** [{ ...acc, last_contact: ..., total_messages: acc.total_messages + 1 }]. *)
Definition touchAccount (clk : Clock) (acc : Account) : Account :=
  mkAccount (a_id acc) (a_user_id acc) (a_username acc)
    (a_username_history acc) (a_first_name acc) (a_last_name acc)
    (a_rating acc) (a_tags acc) (a_category acc) (a_notes acc)
    (a_source acc) (a_created_at acc)
    (now_iso clk)
    (a_total_messages acc + 1)
    (a_chat_type acc) (a_registration_date acc) (a_brand_name acc)
    (a_position acc) (a_years_in_market acc) (a_manager_id acc).

(** [activeManager?.id] and [managers[0]?.id]. *)
Definition activeManager_id (s : AppState) : option Z :=
  option_map m_id (activeManager s).

Definition firstManager_id (s : AppState) : option Z :=
  option_map m_id (hd_error (managers s)).

(** The [newAccount] literal of [createAccountFromChat]. *)
Definition newAccountFromChat (s : AppState) (clk : Clock) (chat : Chat)
    (senderId : Z) : Account :=
  let is_private := ChatType_eqb (c_type chat) private in
  mkAccount
    (now_ms clk)                                               (* id *)
    senderId                                                   (* user_id *)
    (str_or_undefined (c_username chat))                       (* username *)
    None                                                       (* username_history *)
    (str_or_lit
       (str_or (c_first_name chat) (str_or (c_title chat) (c_username chat)))
       "Без имени")                                            (* first_name *)
    (str_or_undefined (c_last_name chat))                      (* last_name *)
    1                                                          (* rating *)
    []                                                         (* tags *)
    (if is_private then lead else other)                       (* category *)
    (String.append "Автоматически создан из "
       (if is_private then "личного чата" else "группового чата"))
    (if is_private then source_private else source_group)      (* source *)
    (now_iso clk)                                              (* created_at *)
    (now_iso clk)                                              (* last_contact *)
    1                                                          (* total_messages *)
    (Some (c_type chat))                                       (* chat_type *)
    None None None None
    (num_or (activeManager_id s) (firstManager_id s)).         (* manager_id *)

(** The updater passed to [setAccounts] by [createAccountFromChat]. *)
Definition createAccountFromChat_updater (s : AppState) (clk : Clock)
    (chat : Chat) (senderId : Z) (prev : list Account) : list Account :=
  match find (fun acc => a_user_id acc =? senderId) prev with
  | Some existing =>
      map (fun acc =>
             if a_id acc =? a_id existing then touchAccount clk acc else acc)
          prev
  | None => prev ++ [newAccountFromChat s clk chat senderId]
  end.

Definition createAccountFromChat (clk : Clock) (chat : Chat) (senderId : Z)
    (w : World) : World :=
  let updated :=
    createAccountFromChat_updater (state w) clk chat senderId
      (accounts (state w)) in
  setAccounts updated (setItem_accounts updated w).

Definition getAccountByUserId (userId : Z) (w : World) : option Account :=
  find (fun account => a_user_id account =? userId) (accounts (state w)).

(** [{ ...account, id: Date.now(), manager_id: account.manager_id ??
    activeManager?.id ?? managers[0]?.id }]; the [a_id] of the argument
    (which [Omit<Account, 'id'>] leaves out) is overwritten. *)
Definition newAccountFromForm (s : AppState) (clk : Clock) (account : Account)
    : Account :=
  mkAccount (now_ms clk) (a_user_id account) (a_username account)
    (a_username_history account) (a_first_name account) (a_last_name account)
    (a_rating account) (a_tags account) (a_category account) (a_notes account)
    (a_source account) (a_created_at account) (a_last_contact account)
    (a_total_messages account) (a_chat_type account)
    (a_registration_date account) (a_brand_name account) (a_position account)
    (a_years_in_market account)
    (nullish_or (a_manager_id account)
       (nullish_or (activeManager_id s) (firstManager_id s))).

Definition addAccount (clk : Clock) (account : Account) (w : World) : World :=
  let newAccounts :=
    accounts (state w) ++ [newAccountFromForm (state w) clk account] in
  setAccounts newAccounts (setItem_accounts newAccounts w).

Definition updateAccount (clk : Clock) (id : Z) (updates : AccountPatch)
    (w : World) : World :=
  let newAccounts :=
    map (updateAccount_one clk id updates) (accounts (state w)) in
  setAccounts newAccounts (setItem_accounts newAccounts w).

Definition deleteAccount (id : Z) (w : World) : World :=
  let newAccounts :=
    filter (fun account => negb (a_id account =? id)) (accounts (state w)) in
  setAccounts newAccounts (setItem_accounts newAccounts w).

(** A call of one of the facade's contact mutators. *)
Inductive ContactOp : Type :=
  | OpAddAccount (clk : Clock) (account : Account)
  | OpCreateAccountFromChat (clk : Clock) (chat : Chat) (senderId : Z)
  | OpUpdateAccount (clk : Clock) (id : Z) (updates : AccountPatch)
  | OpDeleteAccount (id : Z).

Definition runContactOp (w : World) (op : ContactOp) : World :=
  match op with
  | OpAddAccount clk account => addAccount clk account w
  | OpCreateAccountFromChat clk chat senderId =>
      createAccountFromChat clk chat senderId w
  | OpUpdateAccount clk id updates => updateAccount clk id updates w
  | OpDeleteAccount id => deleteAccount id w
  end.

Definition runContactOps (ops : list ContactOp) (w : World) : World :=
  fold_left runContactOp ops w.

(** One run of the effect of a mounted [ChatMessages]: the reconciler
    runs once per chat id; [processed] is the [Set] held by the
    [processedRef] of this mount. *)
Definition ChatMessages_effect (clk : Clock) (processed : list Z) (w : World)
    : list Z * World :=
  match activeChat (state w) with
  | Some ac =>
      if negb (existsb (Z.eqb (c_id ac)) processed)
      then (processed ++ [c_id ac],
            createAccountFromChat clk ac (c_id ac) w)
      else (processed, w)
  | None => (processed, w)
  end.

(** ** Chats and managers *)

(** [{ ...c, manager_id: v }]. *)
Definition withManagerId (c : Chat) (v : JsId) : Chat :=
  mkChat (c_id c) (c_type c) (c_title c) (c_username c) (c_first_name c)
    (c_last_name c) (c_photo c) (c_last_message c) (c_unread_count c)
    (c_pinned c) (c_muted c) (c_is_bot_chat c) v (c_account_id c).

Definition createMockChats (clk : Clock) (managerId : Z) : list Chat :=
  [ mkChat 1 private None (Some "johnsmith") (Some "John") (Some "Smith") None
      (Some (mkMessage 1 1 1 "Привет! Как дела с проектом?"
               (now_ms clk - 3600000) false))
      3 true false true (IdNum managerId) IdNullish;
    mkChat 2 private None (Some "anna_j") (Some "Anna") (Some "Johnson") None
      (Some (mkMessage 2 2 2 "Спасибо за предложение!"
               (now_ms clk - 7200000) true))
      0 false false true (IdNum managerId) IdNullish;
    mkChat 3 group (Some "Team Discussion") None None None None
      (Some (mkMessage 3 3 3 "Встреча завтра в 10:00"
               (now_ms clk - 1800000) false))
      12 false true true (IdNum managerId) IdNullish ].

(** The manager both bootstrap paths create when there is none. *)
Definition firstManager (clk : Clock) : Manager :=
  mkManager (now_ms clk) "Менеджер 1" None (Some manager) (now_iso clk).

(** [{ ...c, manager_id: c.manager_id ?? c.account_id ?? mid }], the [map]
    callback of the migration. *)
Definition migrateChat (mid : Z) (c : Chat) : Chat :=
  withManagerId c
    (id_nullish_or (c_manager_id c)
       (id_nullish_or (c_account_id c) (IdNum mid))).

(** Version 1 -> 3: every chat gets a [manager_id].  The store record
    holds, under a collection key, a text that does not parse or an array
    of records; on these the function returns.  What it does on a text
    that parses to something else is [migrateEnvelope] below. *)
Definition migrateToManagers (clk : Clock) (w : World) : World :=
  let existingChats := parse_or_empty (telegram_crm_chats_v2 (store w)) in
  let stored := parse_or_empty (telegram_crm_managers (store w)) in
  let mgrs :=
    match stored with
    | [] => [firstManager clk]
    | _ => stored
    end in
  let w1 :=
    match stored with
    | [] => setManagers mgrs (setItem_managers mgrs w)
    | _ => setManagers mgrs w
    end in
  let mid :=
    match stored with
    | [] => m_id (firstManager clk)
    | m0 :: _ => m_id m0
    end in
  let migrated := map (migrateChat mid) existingChats in
  let w2 :=
    match migrated with
    | [] =>
        let mocks := createMockChats clk mid in
        setItem_chats_v2 mocks (setChats mocks w1)
    | _ => setItem_chats_v2 migrated (setChats migrated w1)
    end in
  setItem_schema_version "3" w2.

(** *** The migration on the stored envelope

    The envelope is what the migration reads and writes in the store: the
    managers, the chats and the schema marker.  [JSON.parse] hands the
    migration whatever the text under a key parses to, and the [try]
    around the parse lets every value through.  Next to an array of
    records the envelope keeps two such values, [null] and the empty
    object [{}]; other values (numbers, strings, objects with keys, arrays
    of other things) are not modelled. *)
Inductive StoredJson (A : Type) : Type :=
  | NotJson                      (* JSON.parse throws *)
  | JsonNull                     (* the text null *)
  | JsonEmptyObject              (* the text {} *)
  | JsonArray (items : list A).

Arguments NotJson {A}.
Arguments JsonNull {A}.
Arguments JsonEmptyObject {A}.
Arguments JsonArray {A} items.

Record Envelope : Type := mkEnvelope {
  env_managers : option (StoredJson Manager);
  env_chats : option (StoredJson Chat);
  env_schema_version : option string
}.

(** How a run of the migration ends: it returns, or a [TypeError] leaves
    it; either way with the envelope as the store holds it then. *)
Inductive Migration : Type :=
  | Migrated (e : Envelope)
  | MigrationThrew (e : Envelope).

(** The value is [null] or [{}]: it parses, and is no array. *)
Definition notArray {A : Type} (s : option (StoredJson A)) : bool :=
  match s with
  | Some JsonNull | Some JsonEmptyObject => true
  | _ => false
  end.

(** The array a guarded parse leaves in a variable initialised to [[]]. *)
Definition array_or_empty {A : Type} (s : option (StoredJson A)) : list A :=
  match s with
  | Some (JsonArray v) => v
  | _ => []
  end.

(** [migrateToManagers] on the envelope.  With managers [null] the test
    [mgrs.length === 0] throws; with managers [{}] it is false and
    [mgrs[0].id] throws; nothing has been written then.  With chats [null]
    or [{}] it is [existingChats.map] that throws, after the managers have
    been dealt with.  The marker is written last. *)
Definition migrateEnvelope (clk : Clock) (e : Envelope) : Migration :=
  if notArray (env_managers e) then MigrationThrew e
  else
    let stored := array_or_empty (env_managers e) in
    let e1 :=
      match stored with
      | [] => mkEnvelope (Some (JsonArray [firstManager clk])) (env_chats e)
                         (env_schema_version e)
      | _ => e
      end in
    let mid :=
      match stored with
      | [] => m_id (firstManager clk)
      | m0 :: _ => m_id m0
      end in
    if notArray (env_chats e) then MigrationThrew e1
    else
      let migrated := map (migrateChat mid) (array_or_empty (env_chats e)) in
      let finalChats :=
        match migrated with
        | [] => createMockChats clk mid
        | _ => migrated
        end in
      Migrated (mkEnvelope (env_managers e1) (Some (JsonArray finalChats))
                           (Some "3")).

(** The envelope of a store. *)
Definition storedJson {A : Type} (s : Slot (list A)) : option (StoredJson A) :=
  match s with
  | Some (Parsed v) => Some (JsonArray v)
  | Some Unparseable => Some NotJson
  | None => None
  end.

Definition envelopeOf (l : LocalStorage) : Envelope :=
  mkEnvelope (storedJson (telegram_crm_managers l))
             (storedJson (telegram_crm_chats_v2 l))
             (telegram_crm_schema_version l).

(** A store with the given envelope and no other key, for an envelope of
    arrays and texts that do not parse. *)
Definition slotOf {A : Type} (s : option (StoredJson A)) : Slot (list A) :=
  match s with
  | Some (JsonArray v) => Some (Parsed v)
  | Some NotJson => Some Unparseable
  | _ => None
  end.

Definition storeOf (e : Envelope) : LocalStorage :=
  mkLocalStorage None None (slotOf (env_chats e)) (slotOf (env_managers e))
                 None None (env_schema_version e) None.


Definition mockSummaries (clk : Clock) : list ChatSummary :=
  [ mkChatSummary 1
      "Обсуждение текущего проекта и планов на следующую неделю. Клиент заинтересован в дополнительных функциях."
      ["Проект почти завершен"; "Нужны дополнительные функции";
       "Встреча на следующей неделе"]
      "positive" (now_iso clk);
    mkChatSummary 2
      "Переговоры о сотрудничестве. Обсуждение условий и сроков."
      ["Условия сотрудничества"; "Сроки реализации"; "Бюджет проекта"]
      "neutral" (now_iso clk) ].

Definition loadMockData (clk : Clock) (w : World) : World :=
  let prev := managers (state w) in
  let list :=
    match prev with
    | [] => [firstManager clk]
    | _ => prev
    end in
  let w1 :=
    match prev with
    | [] => setItem_managers list w
    | _ => w
    end in
  let first_id :=
    match prev with
    | [] => m_id (firstManager clk)
    | m0 :: _ => m_id m0
    end in
  let mockChats := createMockChats clk first_id in
  let w2 := setItem_chats_v2 mockChats (setChats mockChats w1) in
  setManagers list (setChatSummaries (mockSummaries clk) w2).

(** What the [map] callback of the repair effect returns for one chat. *)
Definition needsRepair (managerIds : list Z) (c : Chat) : bool :=
  negb (id_in (c_manager_id c) managerIds).

Definition normalizeChat (managerIds : list Z) (first_id : Z) (c : Chat) : Chat :=
  if needsRepair managerIds c then
    withManagerId c
      (if id_in (c_account_id c) managerIds
       then c_account_id c
       else IdNum first_id)
  else c.

(** The repair effect, run whenever [managers] changes. *)
Definition repairChats (clk : Clock) (w : World) : World :=
  match managers (state w) with
  | [] => w
  | m0 :: _ =>
      let managerIds := map m_id (managers (state w)) in
      match chats (state w) with
      | [] =>
          let seeded := createMockChats clk (m_id m0) in
          setChats seeded (setItem_chats_v2 seeded w)
      | prev =>
          let normalized := map (normalizeChat managerIds (m_id m0)) prev in
          let changed := existsb (needsRepair managerIds) prev in
          if changed
          then setChats normalized (setItem_chats_v2 normalized w)
          else w
      end
  end.

Definition addManager (clk : Clock) (name : string)
    (telegram_user_id : option Z) (w : World) : Manager * World :=
  let m :=
    mkManager (now_ms clk) name telegram_user_id (Some manager) (now_iso clk) in
  let list := managers (state w) ++ [m] in
  (m, setManagers list (setItem_managers list w)).

Definition deleteManager (id : Z) (w : World) : World :=
  let mlist := filter (fun m => negb (m_id m =? id)) (managers (state w)) in
  let w1 := setManagers mlist (setItem_managers mlist w) in
  let clist :=
    filter (fun c => negb (id_is (c_manager_id c) id)) (chats (state w1)) in
  let w2 := setChats clist (setItem_chats_v2 clist w1) in
  match activeManager (state w) with
  | Some am =>
      if m_id am =? id
      then setActiveChat None (setActiveManager None w2)
      else w2
  | None => w2
  end.

(** ** The initial load (the mount effect of the provider) *)

(** How a run of the effect ends: it returns, or a [JSON.parse] that no
    [try] protects throws out of it, with the state reached so far. *)
Inductive Outcome : Type :=
  | Returned (w : World)
  | Threw (w : World).

(** [try { setX(JSON.parse(raw)) } catch {}] under [if (raw)]. *)
Definition load_guarded {A : Type} (s : Slot A) (set : A -> World -> World)
    (w : World) : World :=
  match s with
  | Some (Parsed v) => set v w
  | _ => w
  end.

(** [arr.filter(k => typeof k === 'string')]. *)
Definition onlyStrings (items : list KwItem) : list string :=
  flat_map (fun k => match k with KwString s => [s] | KwOther => [] end) items.

Section InitialLoad.

(** [Number(s) < 3] on the stored schema marker. *)
Variable Number_lt_3 : string -> bool.

(** The steps after the transfers have been read. *)
Definition initialLoad_rest (clk : Clock) (w : World) : World :=
  let w3 :=
    match telegram_crm_keywords (store w) with
    | Some (Parsed (KwArray arr)) => setKeywords (onlyStrings arr) w
    | _ => w
    end in
  let w4 := load_guarded (telegram_crm_managers (store w3)) setManagers w3 in
  let marker :=
    match str_or (telegram_crm_schema_version (store w4)) (Some "1") with
    | Some s => s
    | None => "1"
    end in
  if Number_lt_3 marker then migrateToManagers clk w4
  else
    match telegram_crm_chats_v2 (store w4) with
    | Some (Parsed v) => setChats v w4
    | Some Unparseable => w4
    | None => loadMockData clk w4
    end.

(** The whole effect, on the stores of the model (every collection text
    is an array of records or does not parse).  The API configuration (a
    server call and the guarded clean-up of its legacy key) touches none of
    the collections and is left out. *)
Definition initialLoad (clk : Clock) (w : World) : Outcome :=
  if negb (str_truthy (telegram_crm_logged_in (store w))) then Returned w
  else
    let w1 := load_guarded (telegram_crm_accounts (store w)) setAccounts w in
    match telegram_crm_transfers (store w1) with
    | Some Unparseable => Threw w1
    | Some (Parsed v) => Returned (initialLoad_rest clk (setTransferRecords v w1))
    | None => Returned (initialLoad_rest clk w1)
    end.

End InitialLoad.

(** ** Transfer records *)

(** [Omit<TransferRecord, 'id' | 'created_at'>]. *)
Record TransferData : Type := mkTransferData {
  td_supplier_account_id : Z;
  td_client_account_id : Z;
  td_status : Status;
  td_notes : option string
}.

(** [Partial<TransferRecord>]. *)
Record TransferPatch : Type := mkTransferPatch {
  tp_id : option Z;
  tp_supplier_account_id : option Z;
  tp_client_account_id : option Z;
  tp_created_at : option string;
  tp_status : option Status;
  tp_notes : option (option string)
}.

Definition spreadTransfer (r : TransferRecord) (updates : TransferPatch)
    : TransferRecord :=
  mkTransferRecord
    (spread (tr_id r) (tp_id updates))
    (spread (tr_supplier_account_id r) (tp_supplier_account_id updates))
    (spread (tr_client_account_id r) (tp_client_account_id updates))
    (spread (tr_created_at r) (tp_created_at updates))
    (spread (tr_status r) (tp_status updates))
    (spread (tr_notes r) (tp_notes updates)).

Definition addTransferRecord (clk : Clock) (data : TransferData) (w : World)
    : World :=
  let newRecord :=
    mkTransferRecord (now_ms clk) (td_supplier_account_id data)
      (td_client_account_id data) (now_iso clk) (td_status data)
      (td_notes data) in
  let updated := newRecord :: transferRecords (state w) in
  setTransferRecords updated (setItem_transfers updated w).

Definition updateTransferRecord (id : Z) (updates : TransferPatch) (w : World)
    : World :=
  let updated :=
    map (fun r => if tr_id r =? id then spreadTransfer r updates else r)
        (transferRecords (state w)) in
  setTransferRecords updated (setItem_transfers updated w).

Definition deleteTransferRecord (id : Z) (w : World) : World :=
  let updated :=
    filter (fun r => negb (tr_id r =? id)) (transferRecords (state w)) in
  setTransferRecords updated (setItem_transfers updated w).

(** *** The transfer form (TransfersManager.tsx) *)

(** [number | '']: [None] is the empty selection. *)
Record TransferFormState : Type := mkTransferFormState {
  supplier_account_id : option Z;
  client_account_id : option Z;
  status : Status;
  notes : string
}.

Record TransfersUI : Type := mkTransfersUI {
  form : TransferFormState;
  editing : option TransferRecord;
  isFormOpen : bool;
  formError : option string
}.

(** The call the form makes on the store. *)
Inductive TransferCall : Type :=
  | CallAdd (data : TransferData)
  | CallUpdate (id : Z) (updates : TransferPatch).

Definition resetForm (ui : TransfersUI) : TransfersUI :=
  mkTransfersUI (mkTransferFormState None None new "") None false None.

Definition withFormError (ui : TransfersUI) (e : option string) : TransfersUI :=
  mkTransfersUI (form ui) (editing ui) (isFormOpen ui) e.

(** [a === b] on [number | '']. *)
Definition selection_eqb (a b : option Z) : bool :=
  match a, b with
  | Some x, Some y => x =? y
  | None, None => true
  | _, _ => false
  end.

(** [handleSubmit]: the new form state and the call made, if any. *)
Definition handleSubmit_decide (ui : TransfersUI)
    : TransfersUI * option TransferCall :=
  let f := form ui in
  if negb (num_truthy (supplier_account_id f))
     || negb (num_truthy (client_account_id f))
  then (withFormError ui (Some "Выберите клиента и поставщика"), None)
  else if selection_eqb (supplier_account_id f) (client_account_id f)
  then (withFormError ui (Some "Клиент и поставщик не могут совпадать"), None)
  else
    match supplier_account_id f, client_account_id f with
    | Some s, Some c =>
        match editing ui with
        | Some e =>
            (resetForm ui,
             Some (CallUpdate (tr_id e)
                     (mkTransferPatch None (Some s) (Some c) None
                        (Some (status f)) (Some (Some (notes f))))))
        | None =>
            (resetForm ui,
             Some (CallAdd (mkTransferData s c (status f) (Some (notes f)))))
        end
    | _, _ => (withFormError ui None, None)   (* unreachable: both are truthy *)
    end.

Definition runTransferCall (clk : Clock) (call : option TransferCall)
    (w : World) : World :=
  match call with
  | Some (CallAdd data) => addTransferRecord clk data w
  | Some (CallUpdate id updates) => updateTransferRecord id updates w
  | None => w
  end.

Definition handleSubmit (clk : Clock) (ui : TransfersUI) (w : World)
    : TransfersUI * World :=
  let '(ui', call) := handleSubmit_decide ui in
  (ui', runTransferCall clk call w).

(** ** Chat members *)

Definition getMembersForChat (chatId : Z) (w : World) : list ChatMember :=
  filter (fun m => cm_chat_id m =? chatId) (chatMembers (state w)).

(** The [additions] of [addMembersBulk]: [fresh] is the list of ids that
    passed the filter; the index of the [map] callback is [idx]. *)
Fixpoint membersAdditions (clk : Clock) (chatId : Z) (chat_is_empty : bool)
    (idx : nat) (fresh : list Z) : list ChatMember :=
  match fresh with
  | [] => []
  | id :: rest =>
      mkChatMember chatId id (now_iso clk)
        (Some (mkTelegramUser id
                 (String.append "Имя" (js_String id))
                 (Some (String.append "Фамилия" (slice_last2 (js_String id))))
                 (Some (String.append "user_" (js_String id)))
                 None false))
        (Some (if Nat.eqb idx 0 && chat_is_empty then creator else member))
      :: membersAdditions clk chatId chat_is_empty (S idx) rest
  end.

Definition addMembersBulk_updater (clk : Clock) (chatId : Z) (userIds : list Z)
    (prev : list ChatMember) : list ChatMember :=
  let ofChat := filter (fun m => cm_chat_id m =? chatId) prev in
  let existingSet := map cm_user_id ofChat in
  let fresh :=
    filter (fun id => negb (existsb (Z.eqb id) existingSet)) userIds in
  prev ++ membersAdditions clk chatId (Nat.eqb (List.length ofChat) 0) 0 fresh.

Definition addMembersBulk (clk : Clock) (chatId : Z) (userIds : list Z)
    (w : World) : World :=
  match userIds with
  | [] => w
  | _ =>
      let updated :=
        addMembersBulk_updater clk chatId userIds (chatMembers (state w)) in
      setChatMembers updated (setItem_chat_members updated w)
  end.

(** ** Further operations of the provider *)

(** [Partial<Omit<Manager, 'id'>>]. *)
Record ManagerPatch : Type := mkManagerPatch {
  mp_name : option string;
  mp_telegram_user_id : option (option Z);
  mp_role : option (option Role);
  mp_created_at : option string
}.

Definition updateManager (id : Z) (updates : ManagerPatch) (w : World) : World :=
  let list :=
    map (fun mm =>
           if m_id mm =? id
           then mkManager (m_id mm)
                  (spread (m_name mm) (mp_name updates))
                  (spread (m_telegram_user_id mm) (mp_telegram_user_id updates))
                  (spread (m_role mm) (mp_role updates))
                  (spread (m_created_at mm) (mp_created_at updates))
           else mm)
        (managers (state w)) in
  setManagers list (setItem_managers list w).

Definition getChatsForManager (managerId : Z) (w : World) : list Chat :=
  filter (fun c => id_is (c_manager_id c) managerId) (chats (state w)).

(** [{ ...chat, id: Date.now(), manager_id: managerId }]; the [c_id] and
    [c_manager_id] of the argument are overwritten. *)
Definition addChat (clk : Clock) (managerId : Z) (chat : Chat) (w : World)
    : Chat * World :=
  let newChat :=
    mkChat (now_ms clk) (c_type chat) (c_title chat) (c_username chat)
      (c_first_name chat) (c_last_name chat) (c_photo chat)
      (c_last_message chat) (c_unread_count chat) (c_pinned chat)
      (c_muted chat) (c_is_bot_chat chat) (IdNum managerId)
      (c_account_id chat) in
  let list := chats (state w) ++ [newChat] in
  (newChat, setChats list (setItem_chats_v2 list w)).

(** The [setActiveManager] the context exposes: switching the manager
    drops an active chat that belongs to another one. *)
Definition value_setActiveManager (m : option Manager) (w : World) : World :=
  let w1 := setActiveManager m w in
  match m with
  | Some mgr =>
      match activeChat (state w) with
      | Some ac =>
          if negb (id_is (c_manager_id ac) (m_id mgr))
          then setActiveChat None w1
          else w1
      | None => w1
      end
  | None => setActiveChat None w1
  end.

(** The effect that picks the first manager when none is active. *)
Definition initActiveManager (w : World) : World :=
  match activeManager (state w), managers (state w) with
  | None, m0 :: _ => setActiveManager (Some m0) w
  | _, _ => w
  end.

(** [{ ...a, manager_id: v }]. *)
Definition withAccountManager (a : Account) (v : option Z) : Account :=
  mkAccount (a_id a) (a_user_id a) (a_username a) (a_username_history a)
    (a_first_name a) (a_last_name a) (a_rating a) (a_tags a) (a_category a)
    (a_notes a) (a_source a) (a_created_at a) (a_last_contact a)
    (a_total_messages a) (a_chat_type a) (a_registration_date a)
    (a_brand_name a) (a_position a) (a_years_in_market a) v.

(** [a.manager_id == null]. *)
Definition lacksManager (a : Account) : bool :=
  match a_manager_id a with
  | None => true
  | Some _ => false
  end.

(** The effect that gives legacy accounts an owner. *)
Definition assignLegacyAccounts (w : World) : World :=
  match managers (state w), accounts (state w) with
  | m0 :: _, _ :: _ =>
      let primaryId := m_id m0 in
      if existsb lacksManager (accounts (state w)) then
        let updated :=
          map (fun a =>
                 if lacksManager a
                 then withAccountManager a
                        (num_or (activeManager_id (state w)) (Some primaryId))
                 else a)
              (accounts (state w)) in
        setAccounts updated (setItem_accounts updated w)
      else w
  | _, _ => w
  end.

(** [chats.reduce((m, c) => Math.max(m, c.id), 0)]. *)
Definition maxChatId (l : list Chat) : Z :=
  fold_left (fun m c => Z.max m (c_id c)) l 0.

(** The two chats the seeding effect gives the second manager; [maxId] is
    the value before the first [++maxId]. *)
Definition secondManagerChats (clk : Clock) (second : Manager) (maxId : Z)
    : list Chat :=
  [ mkChat (maxId + 1) private None (Some "alina_k") (Some "Алина")
      (Some "Ковалёва") None
      (Some (mkMessage ((maxId + 1) * 10 + 1) (maxId + 1) (m_id second)
               "Добрый день! Отправила обновлённый документ."
               (now_ms clk) false))
      2 false false true (IdNum (m_id second)) IdNullish;
    mkChat (maxId + 2) private None (Some "dpetrov") (Some "Дмитрий")
      (Some "Петров") None
      (Some (mkMessage ((maxId + 2) * 10 + 1) (maxId + 2) (m_id second)
               "Спасибо, всё получил. Начинаю работу."
               (now_ms clk) false))
      0 false false true (IdNum (m_id second)) IdNullish ].

(** The effect that seeds a second manager.  [seeded] is the value of the
    key [telegram_crm_two_managers_seeded], which the store record does not
    hold; the effect returns its new value.  The world it returns is the
    one its own updaters leave; in a commit that also runs the repair
    effect that one's updater comes after ([commitManagersChanged]). *)
Definition seedSecondManager (clk : Clock) (seeded : option string) (w : World)
    : option string * World :=
  match managers (state w) with
  | [m0] =>
      if (0 <? Z.of_nat (List.length (chats (state w))))
         && forallb (fun c => id_is (c_manager_id c) (m_id m0)) (chats (state w))
         && negb (str_truthy seeded)
      then
        let '(second, w1) := addManager clk "Менеджер 2" None w in
        let newChats :=
          secondManagerChats clk second (maxChatId (chats (state w))) in
        let list := chats (state w1) ++ newChats in
        (Some "1", setChats list (setItem_chats_v2 list w1))
      else (seeded, w)
  | _ => (seeded, w)
  end.

(** The repair effect as a commit runs it.  The guard, [managerIds] and
    [managers[0]] are read from the manager list the commit rendered
    ([rendered]); the updater works on the chats as the updaters queued
    before it in the same commit left them.  When no such updater ran,
    this is [repairChats]. *)
Definition repairChats_in_commit (clk : Clock) (rendered : list Manager)
    (w : World) : World :=
  match rendered with
  | [] => w
  | m0 :: _ =>
      let managerIds := map m_id rendered in
      match chats (state w) with
      | [] =>
          let seeded := createMockChats clk (m_id m0) in
          setChats seeded (setItem_chats_v2 seeded w)
      | prev =>
          let normalized := map (normalizeChat managerIds (m_id m0)) prev in
          let changed := existsb (needsRepair managerIds) prev in
          if changed
          then setChats normalized (setItem_chats_v2 normalized w)
          else w
      end
  end.

(** A commit in which the manager list changed runs the seeding effect and
    then the repair effect, both closed over the lists that commit
    rendered; the updaters they queue are applied in that order.  (A
    commit in which only the chats changed runs the seeding effect alone:
    the repair effect depends on the managers only.) *)
Definition commitManagersChanged (clk : Clock) (seeded : option string)
    (w : World) : option string * World :=
  let r := seedSecondManager clk seeded w in
  (fst r, repairChats_in_commit clk (managers (state w)) (snd r)).

(** *** The chat view (ChatList, ChatWindow, ChatMessages)

    What the user does in the chat view: click a chat of the list
    ([setActiveChat(chat)]), press the back button ([setActiveChat(null)]),
    or click a manager ([setActiveManager(m); setActiveChat(null)]). *)
Inductive ChatEvent : Type :=
  | ChatClicked (chat : Chat)
  | BackPressed
  | ManagerClicked (m : Manager).

Definition handleChatEvent (ev : ChatEvent) (w : World) : World :=
  match ev with
  | ChatClicked chat => setActiveChat (Some chat) w
  | BackPressed => setActiveChat None w
  | ManagerClicked m => setActiveChat None (value_setActiveManager (Some m) w)
  end.

(** [ChatWindow] renders [ChatMessages] only while a manager and a chat
    are active.  [mounted] is the [Set] of [processedRef] while the
    component is mounted, and [None] while it is not: the ref is created
    empty on every mount and lost on unmount. *)
Definition renderChatWindow (clk : Clock) (mounted : option (list Z)) (w : World)
    : option (list Z) * World :=
  match activeManager (state w), activeChat (state w) with
  | Some _, Some _ =>
      let processed :=
        match mounted with
        | Some p => p
        | None => []
        end in
      let r := ChatMessages_effect clk processed w in
      (Some (fst r), snd r)
  | _, _ => (None, w)
  end.

(** One event of the chat view and the render that follows it. *)
Definition chatViewStep (s : option (list Z) * World) (e : Clock * ChatEvent)
    : option (list Z) * World :=
  renderChatWindow (fst e) (fst s) (handleChatEvent (snd e) (snd s)).

Definition chatView (events : list (Clock * ChatEvent))
    (s : option (list Z) * World) : option (list Z) * World :=
  fold_left chatViewStep events s.

(** *** Transfers: lookups and the list actions of TransfersManager.tsx *)

Definition getTransfersByAccount (accountId : Z) (w : World)
    : list TransferRecord :=
  filter (fun r => (tr_client_account_id r =? accountId)
                   || (tr_supplier_account_id r =? accountId))
         (transferRecords (state w)).

Definition Status_eqb (a b : Status) : bool :=
  match a, b with
  | new, new | in_progress, in_progress
  | completed, completed | cancelled, cancelled => true
  | _, _ => false
  end.

(** The [order] array of [cycleStatus]. *)
Definition statusOrder : list Status := [new; in_progress; completed; cancelled].

(** [order.indexOf(s)]. *)
Fixpoint indexOfStatus (s : Status) (l : list Status) : Z :=
  match l with
  | [] => -1
  | x :: rest =>
      if Status_eqb x s then 0
      else
        let i := indexOfStatus s rest in
        if i <? 0 then -1 else i + 1
  end.

(** [order[(idx + 1) % order.length]]. *)
Definition nextStatus (s : Status) : Status :=
  let idx := indexOfStatus s statusOrder in
  nth (Z.to_nat (Z.rem (idx + 1) (Z.of_nat (List.length statusOrder))))
      statusOrder s.

Definition cycleStatus (record : TransferRecord) (w : World) : World :=
  updateTransferRecord (tr_id record)
    (mkTransferPatch None None None None (Some (nextStatus (tr_status record)))
                     None)
    w.

(** The object [counts] builds, one optional counter per status. *)
Record StatusCounts : Type := mkStatusCounts {
  count_new : option Z;
  count_in_progress : option Z;
  count_completed : option Z;
  count_cancelled : option Z
}.

(** [(acc[k] || 0) + 1]. *)
Definition bump (o : option Z) : option Z :=
  match num_or o (Some 0) with
  | Some n => Some (n + 1)
  | None => Some 1
  end.

Definition countStep (acc : StatusCounts) (r : TransferRecord) : StatusCounts :=
  match tr_status r with
  | new =>
      mkStatusCounts (bump (count_new acc)) (count_in_progress acc)
                     (count_completed acc) (count_cancelled acc)
  | in_progress =>
      mkStatusCounts (count_new acc) (bump (count_in_progress acc))
                     (count_completed acc) (count_cancelled acc)
  | completed =>
      mkStatusCounts (count_new acc) (count_in_progress acc)
                     (bump (count_completed acc)) (count_cancelled acc)
  | cancelled =>
      mkStatusCounts (count_new acc) (count_in_progress acc)
                     (count_completed acc) (bump (count_cancelled acc))
  end.

Definition counts (w : World) : StatusCounts :=
  fold_left countStep (transferRecords (state w))
            (mkStatusCounts None None None None).

Definition startEdit (record : TransferRecord) (ui : TransfersUI) : TransfersUI :=
  mkTransfersUI
    (mkTransferFormState (Some (tr_supplier_account_id record))
                         (Some (tr_client_account_id record))
                         (tr_status record)
                         (str_or_lit (tr_notes record) ""))
    (Some record) true (formError ui).

(** *** Keywords *)

Definition setItem_keywords (v : list string) (w : World) : World :=
  let l := store w in
  mkWorld (state w)
    (mkLocalStorage (telegram_crm_logged_in l) (telegram_crm_accounts l)
       (telegram_crm_chats_v2 l) (telegram_crm_managers l)
       (telegram_crm_transfers l) (Some (Parsed (KwArray (map KwString v))))
       (telegram_crm_schema_version l) (telegram_crm_chat_members l))
    (writes w ++ [key_keywords]).

(** [a.findIndex(p)]: the first index whose element satisfies [p], else -1. *)
Fixpoint findIndex {A : Type} (p : A -> bool) (l : list A) : Z :=
  match l with
  | [] => -1
  | x :: rest =>
      if p x then 0
      else
        let i := findIndex p rest in
        if i <? 0 then -1 else i + 1
  end.

(** [a.filter((v, i) => p(v, i))] on the part of the array that starts at
    index [i]. *)
Fixpoint filterIndexed {A : Type} (p : A -> Z -> bool) (i : Z) (l : list A)
    : list A :=
  match l with
  | [] => []
  | x :: rest =>
      if p x i then x :: filterIndexed p (i + 1) rest
      else filterIndexed p (i + 1) rest
  end.

Section Keywords.

(** [s.trim()] and [s.toLowerCase()]. *)
Variable trim : string -> string.
Variable toLowerCase : string -> string.

(** [kw.map(k => k.trim()).filter(Boolean).filter((v, i, a) =>
    a.findIndex(x => x.toLowerCase() === v.toLowerCase()) === i)]. *)
Definition cleanKeywords (kw : list string) : list string :=
  let a := filter (fun k => negb (String.eqb k "")) (map trim kw) in
  filterIndexed
    (fun v i =>
       findIndex (fun x => String.eqb (toLowerCase x) (toLowerCase v)) a =? i)
    0 a.

(** The [setKeywords] the context exposes. *)
Definition value_setKeywords (kw : list string) (w : World) : World :=
  let cleaned := cleanKeywords kw in
  setItem_keywords cleaned (setKeywords cleaned w).

(** [addKeyword] of the settings page: the new content of the input box
    and the world. *)
Definition addKeyword (newKeyword : string) (w : World) : string * World :=
  let val := trim newKeyword in
  if String.eqb val "" then (newKeyword, w)
  else if existsb (fun k => String.eqb (toLowerCase k) (toLowerCase val))
                  (keywords (state w))
  then ("", w)
  else ("", value_setKeywords (keywords (state w) ++ [val]) w).

Definition removeKeyword (k : string) (w : World) : World :=
  value_setKeywords
    (filter (fun x => negb (String.eqb x k)) (keywords (state w))) w.

End Keywords.

(** ** The auth provider *)

Definition MAX_ATTEMPTS : Z := 5.
Definition LOCK_MINUTES : Z := 5.

(** The value under [telegram_crm_login_meta]. *)
Record LoginMeta : Type := mkLoginMeta {
  attempts : Z;
  lockedUntil : option Z
}.

Record AuthState : Type := mkAuthState {
  isAuthenticated : bool;
  loading : bool;
  error : option string;
  loginLocked : bool;
  lockRemainingSeconds : Z;
  user : option string          (* the user object, as its JSON text *)
}.

(** The auth provider's state, the login meta key and the keys of the
    application ([telegram_crm_logged_in] among them). *)
Record AuthWorld : Type := mkAuthWorld {
  auth : AuthState;
  login_meta : Slot LoginMeta;
  app_store : LocalStorage
}.

Inductive AuthRequest : Type :=
  | GetCsrfToken | PostLogin | GetMe | PostLogout.

(** [clearAppData]: every application key is removed.  (It also removes
    the API configuration and the seeding flag, which the store record does
    not hold; the login key is removed by the callers.) *)
Definition clearAppData (l : LocalStorage) : LocalStorage :=
  mkLocalStorage (telegram_crm_logged_in l) None None None None None None None.

(** [localStorage.removeItem(LS_KEY)] and [setItem(LS_KEY, 'true')]. *)
Definition withLoggedIn (v : option string) (l : LocalStorage) : LocalStorage :=
  mkLocalStorage v (telegram_crm_accounts l) (telegram_crm_chats_v2 l)
    (telegram_crm_managers l) (telegram_crm_transfers l)
    (telegram_crm_keywords l) (telegram_crm_schema_version l)
    (telegram_crm_chat_members l).

(** [readMeta]: [null] when the key is missing or does not parse. *)
Definition readMeta (aw : AuthWorld) : option LoginMeta :=
  match login_meta aw with
  | Some (Parsed m) => Some m
  | _ => None
  end.

(** [Math.ceil(a / b)] for integers, [b > 0]. *)
Definition ceil_div (a b : Z) : Z := - ((- a) / b).

(** The callback of the one-second interval. *)
Definition lockTick (now : Z) (aw : AuthWorld) : AuthWorld :=
  let a := auth aw in
  let unlocked :=
    mkAuthState (isAuthenticated a) (loading a) (error a) false 0 (user a) in
  match readMeta aw with
  | Some meta =>
      if num_truthy (lockedUntil meta) then
        match lockedUntil meta with
        | Some until =>
            if now <? until then
              mkAuthWorld
                (mkAuthState (isAuthenticated a) (loading a) (error a) true
                   (ceil_div (until - now) 1000) (user a))
                (login_meta aw) (app_store aw)
            else
              mkAuthWorld unlocked (Some (Parsed (mkLoginMeta 0 None)))
                          (app_store aw)
        | None => mkAuthWorld unlocked (login_meta aw) (app_store aw)
        end
      else mkAuthWorld unlocked (login_meta aw) (app_store aw)
  | None => mkAuthWorld unlocked (login_meta aw) (app_store aw)
  end.

(** What the server does with a login, as far as [login] can tell. *)
Inductive LoginReply : Type :=
  | CsrfFailed                          (* the token request fails or is not ok *)
  | LoginFailed                         (* the login request itself fails *)
  | LoginAccepted (userData : string)
  | LoginRejected (detail : option string)   (* errorData.detail *)
  | LoginRejectedUnreadable             (* the error body is not JSON *)
  | LoginRejectedNull.                  (* the error body is the JSON text null *)

Definition tooManyAttempts : string := "Слишком много попыток. Попробуйте позже.".

(** What a rejected login does, given the detail to show. *)
Definition loginRejected (t_reply : Z) (meta : LoginMeta) (detail : option string)
    (aw : AuthWorld) : AuthWorld :=
  let a := auth aw in
  let n := attempts meta + 1 in
  let cleared := clearAppData (withLoggedIn None (app_store aw)) in
  if MAX_ATTEMPTS <=? n then
    mkAuthWorld
      (mkAuthState false (loading a) (Some tooManyAttempts) true
                   (lockRemainingSeconds a) None)
      (Some (Parsed (mkLoginMeta n (Some (t_reply + LOCK_MINUTES * 60 * 1000)))))
      cleared
  else
    mkAuthWorld
      (mkAuthState false (loading a)
                   (Some (str_or_lit detail "Неверный логин или пароль"))
                   (loginLocked a) (lockRemainingSeconds a) None)
      (Some (Parsed (mkLoginMeta n None)))
      cleared.

(** A rejection whose body parses to [null].  At the limit the body is not
    read and the lock is set as for any rejection.  Below it the attempt is
    written first; reading [errorData.detail] then throws, and the [catch]
    of [login] shows the connection error and returns: the session is not
    ended and no key is removed. *)
Definition loginRejectedNull (t_reply : Z) (meta : LoginMeta) (aw : AuthWorld)
    : AuthWorld :=
  let a := auth aw in
  let n := attempts meta + 1 in
  if MAX_ATTEMPTS <=? n then loginRejected t_reply meta None aw
  else
    mkAuthWorld
      (mkAuthState (isAuthenticated a) (loading a)
                   (Some "Ошибка подключения к серверу") (loginLocked a)
                   (lockRemainingSeconds a) (user a))
      (Some (Parsed (mkLoginMeta n None)))
      (app_store aw).

(** [login]: its result, the requests it sent and the world after it.
    [t_call] is the clock when it checks the lock, [t_reply] the clock when
    the server's answer is handled. *)
Definition login (t_call t_reply : Z) (reply : LoginReply) (aw : AuthWorld)
    : bool * list AuthRequest * AuthWorld :=
  let a := auth aw in
  let meta :=
    match readMeta aw with
    | Some m => m
    | None => mkLoginMeta 0 None
    end in
  let locked :=
    match lockedUntil meta with
    | Some until => num_truthy (Some until) && (t_call <? until)
    | None => false
    end in
  if locked then
    (false, [],
     mkAuthWorld
       (mkAuthState (isAuthenticated a) (loading a) (Some tooManyAttempts) true
                    (lockRemainingSeconds a) (user a))
       (login_meta aw) (app_store aw))
  else
    let failed :=
      mkAuthWorld
        (mkAuthState (isAuthenticated a) (loading a)
                     (Some "Ошибка подключения к серверу") (loginLocked a)
                     (lockRemainingSeconds a) (user a))
        (login_meta aw) (app_store aw) in
    match reply with
    | CsrfFailed => (false, [GetCsrfToken], failed)
    | LoginFailed => (false, [GetCsrfToken; PostLogin], failed)
    | LoginAccepted userData =>
        (true, [GetCsrfToken; PostLogin],
         mkAuthWorld
           (mkAuthState true (loading a) None (loginLocked a)
                        (lockRemainingSeconds a) (Some userData))
           (Some (Parsed (mkLoginMeta 0 None)))
           (withLoggedIn (Some "true") (app_store aw)))
    | LoginRejected detail =>
        (false, [GetCsrfToken; PostLogin], loginRejected t_reply meta detail aw)
    | LoginRejectedUnreadable =>
        (false, [GetCsrfToken; PostLogin],
         loginRejected t_reply meta (Some "Ошибка сервера") aw)
    | LoginRejectedNull =>
        (false, [GetCsrfToken; PostLogin],
         loginRejectedNull t_reply meta aw)
    end.

(** What [/auth/me] answers. *)
Inductive MeReply : Type :=
  | MeOk (userData : string)
  | MeRefused
  | MeFailed.

(** [checkAuth], run on mount. *)
Definition checkAuth (reply : MeReply) (aw : AuthWorld)
    : list AuthRequest * AuthWorld :=
  let a := auth aw in
  let wasLoggedIn :=
    opt_string_eqb (telegram_crm_logged_in (app_store aw)) (Some "true") in
  if negb wasLoggedIn then
    ([],
     mkAuthWorld
       (mkAuthState false false (error a) (loginLocked a)
                    (lockRemainingSeconds a) None)
       (login_meta aw) (app_store aw))
  else
    match reply with
    | MeOk userData =>
        ([GetMe],
         mkAuthWorld
           (mkAuthState true false (error a) (loginLocked a)
                        (lockRemainingSeconds a) (Some userData))
           (login_meta aw) (withLoggedIn (Some "true") (app_store aw)))
    | _ =>
        ([GetMe],
         mkAuthWorld
           (mkAuthState false false (error a) (loginLocked a)
                        (lockRemainingSeconds a) None)
           (login_meta aw)
           (clearAppData (withLoggedIn None (app_store aw))))
    end.

(** [logout]: whatever the server answers, the session and the
    application keys are dropped. *)
Definition logout (aw : AuthWorld) : list AuthRequest * AuthWorld :=
  let a := auth aw in
  ([PostLogout],
   mkAuthWorld
     (mkAuthState false (loading a) (error a) (loginLocked a)
                  (lockRemainingSeconds a) None)
     (login_meta aw)
     (clearAppData (withLoggedIn None (app_store aw)))).

(** ** Vocabulary of the statements *)

Definition emptyWorld : World := mkWorld emptyState emptyStorage [].

(** The external ids held by the accounts collection, in order. *)
Definition user_ids (w : World) : list Z :=
  map a_user_id (accounts (state w)).

(** A [string | undefined] that [||] skips. *)
Definition falsy (o : option string) : Prop := o = None \/ o = Some "".

(** The records that hold the external id [u] once [updateAccount id] has
    spread a patch with [user_id: u]: the records edited, and the others
    that hold [u] already. *)
Definition holdersAfter (id u : Z) (l : list Account) : list Account :=
  filter (fun a => (a_id a =? id) || (a_user_id a =? u)) l.

(** A mutator call that does not give an external id a second holder.
    The reconciler looks the id up and [deleteAccount] only removes.  An
    [updateAccount] is such a call when its patch has no [user_id] key,
    when it edits no record, or when its [user_id] ends up on one record
    only: the forms send the [user_id] of the record they edit.  An
    [addAccount] is such a call when no record holds the id it is given. *)
Definition keepsIdentity (w : World) (op : ContactOp) : bool :=
  match op with
  | OpAddAccount _ account =>
      negb (existsb (Z.eqb (a_user_id account)) (user_ids w))
  | OpUpdateAccount _ id updates =>
      match p_user_id updates with
      | None => true
      | Some u =>
          negb (existsb (fun a => a_id a =? id) (accounts (state w)))
          || Nat.leb (List.length (holdersAfter id u (accounts (state w)))) 1
      end
  | OpCreateAccountFromChat _ _ _ => true
  | OpDeleteAccount _ => true
  end.

Fixpoint guardedOps (ops : list ContactOp) (w : World) : bool :=
  match ops with
  | [] => true
  | op :: rest => keepsIdentity w op && guardedOps rest (runContactOp w op)
  end.

(** A call of the reconciler for the external id [senderId]. *)
Definition isUpsertOf (senderId : Z) (op : ContactOp) : Prop :=
  match op with
  | OpCreateAccountFromChat _ _ s => s = senderId
  | _ => False
  end.

(** [account.username_history || []]. *)
Definition history (a : Account) : list UsernameChange :=
  match a_username_history a with
  | Some h => h
  | None => []
  end.

(** One [updateAccount] call. *)
Record UsernameStep : Type := mkUsernameStep {
  us_clk : Clock;
  us_id : Z;
  us_updates : AccountPatch
}.

Definition stepOp (s : UsernameStep) : ContactOp :=
  OpUpdateAccount (us_clk s) (us_id s) (us_updates s).

(** What the call does to one account. *)
Definition applyStep (s : UsernameStep) (a : Account) : Account :=
  updateAccount_one (us_clk s) (us_id s) (us_updates s) a.

Definition applySteps (steps : list UsernameStep) (a : Account) : Account :=
  fold_left (fun acc s => applyStep s acc) steps a.

(** The call records the username it replaces: it is aimed at the account
    and its patch carries a non-empty username other than the account's.
    Any other call records nothing, also one that changes the username by
    clearing it ([username: undefined], as the forms send an empty field). *)
Definition isUsernameChange (s : UsernameStep) (a : Account) : bool :=
  (a_id a =? us_id s) && username_changes (us_updates s) a.

(** The usernames replaced by the recording calls of a run, each with the
    time of its call, oldest call first. *)
Fixpoint replacedUsernames (steps : list UsernameStep) (a : Account)
    : list UsernameChange :=
  match steps with
  | [] => []
  | s :: rest =>
      (if isUsernameChange s a
       then [mkUsernameChange (str_or_lit (a_username a) "(empty)")
                              (now_iso (us_clk s))]
       else [])
      ++ replacedUsernames rest (applyStep s a)
  end.

(** The history after a run: untouched while no call records, else the
    replaced usernames, newest first, in front of the earlier history, cut
    at twenty. *)
Definition historyAfter (steps : list UsernameStep) (a : Account)
    : list UsernameChange :=
  match replacedUsernames steps a with
  | [] => history a
  | replaced => firstn 20 (rev replaced ++ history a)
  end.

(** A patch that only sets the username. *)
Definition renameTo (u : string) : AccountPatch :=
  mkAccountPatch None None (Some (Some u)) None None None None None None None
                 None None None None None None None None None None.

(** What the repair pass owes one chat, in the words of its contract: a
    chat whose owner is a current manager is kept; a dangling owner is
    replaced by the legacy hint when the hint is a current manager id, and
    by the first manager otherwise. *)
Inductive Repaired (ids : list Z) (first_id : Z) : Chat -> Chat -> Prop :=
  | Repaired_kept c :
      id_in (c_manager_id c) ids = true ->
      Repaired ids first_id c c
  | Repaired_hint c :
      id_in (c_manager_id c) ids = false ->
      id_in (c_account_id c) ids = true ->
      Repaired ids first_id c (withManagerId c (c_account_id c))
  | Repaired_first c :
      id_in (c_manager_id c) ids = false ->
      id_in (c_account_id c) ids = false ->
      Repaired ids first_id c (withManagerId c (IdNum first_id)).

(** The owner of every chat is a current manager. *)
Definition ownersValid (w : World) : Prop :=
  Forall (fun c => id_in (c_manager_id c) (map m_id (managers (state w))) = true)
         (chats (state w)).

(** [managers[0].id], with a default that is never read when the list is
    not empty. *)
Definition first_manager_id (w : World) : Z :=
  match managers (state w) with
  | m0 :: _ => m_id m0
  | [] => 0
  end.

(** The chats the migration stores: never an empty list, every owner set. *)
Definition migratedChats (clk : Clock) (w : World) : list Chat :=
  let stored := parse_or_empty (telegram_crm_managers (store w)) in
  let mid :=
    match stored with
    | [] => m_id (firstManager clk)
    | m0 :: _ => m_id m0
    end in
  match map (migrateChat mid) (parse_or_empty (telegram_crm_chats_v2 (store w))) with
  | [] => createMockChats clk mid
  | migrated => migrated
  end.

Definition migratedManagers (clk : Clock) (w : World) : list Manager :=
  match parse_or_empty (telegram_crm_managers (store w)) with
  | [] => [firstManager clk]
  | stored => stored
  end.

(** The parties of a transfer differ. *)
Definition distinctParties (r : TransferRecord) : Prop :=
  tr_supplier_account_id r <> tr_client_account_id r.

(** The (chat, user) pairs of the members collection, in order. *)
Definition memberPairs (l : list ChatMember) : list (Z * Z) :=
  map (fun m => (cm_chat_id m, cm_user_id m)) l.

(** The active chat, when there is one, belongs to the active manager. *)
Definition activeChatOwned (w : World) : Prop :=
  forall ac,
    activeChat (state w) = Some ac ->
    exists mgr,
      activeManager (state w) = Some mgr /\
      c_manager_id ac = IdNum (m_id mgr).

(** A legacy account got an owner and nothing else changed, or the account
    is as it was. *)
Definition ownerAssigned (a a' : Account) : Prop :=
  (a_manager_id a <> None /\ a' = a) \/
  (a_manager_id a = None /\ exists v, a' = withAccountManager a (Some v)).

(** Every chat of the list belongs to manager [mid]. *)
Definition allOwnedBy (mid : Z) (l : list Chat) : bool :=
  forallb (fun c => id_is (c_manager_id c) mid) l.

(** A provider mounted on a store: nothing loaded, nothing written. *)
Definition freshWorld (l : LocalStorage) : World := mkWorld emptyState l [].

(** Pressing the status button of the transfer listed under [id]: the
    list hands [cycleStatus] the record it shows. *)
Definition cycleById (id : Z) (w : World) : World :=
  match find (fun r => tr_id r =? id) (transferRecords (state w)) with
  | Some r => cycleStatus r w
  | None => w
  end.

(** A counter of [counts] as the header shows it: a missing key reads 0. *)
Definition counter (o : option Z) : Z :=
  match o with
  | Some n => n
  | None => 0
  end.

Definition getCount (s : Status) (c : StatusCounts) : option Z :=
  match s with
  | new => count_new c
  | in_progress => count_in_progress c
  | completed => count_completed c
  | cancelled => count_cancelled c
  end.

(** The transfers in status [s]. *)
Definition withStatus (s : Status) (l : list TransferRecord)
    : list TransferRecord :=
  filter (fun r => Status_eqb (tr_status r) s) l.

(** A record keeps everything but possibly its notes. *)
Definition sameButNotes (x y : TransferRecord) : Prop :=
  tr_id y = tr_id x /\
  tr_supplier_account_id y = tr_supplier_account_id x /\
  tr_client_account_id y = tr_client_account_id x /\
  tr_created_at y = tr_created_at x /\
  tr_status y = tr_status x.

(** What one press does to one record. *)
Definition pressed (id : Z) (x : TransferRecord) : TransferRecord :=
  if tr_id x =? id
  then spreadTransfer x
         (mkTransferPatch None None None None
                          (Some (nextStatus (tr_status x))) None)
  else x.

(** The attempts on record; no record reads as none. *)
Definition storedAttempts (aw : AuthWorld) : Z :=
  match readMeta aw with
  | Some m => attempts m
  | None => 0
  end.

(** The login is locked at time [t]: a lock is on record and [t] is
    before its end. *)
Definition lockedAt (t : Z) (aw : AuthWorld) : Prop :=
  exists meta until,
    readMeta aw = Some meta /\ lockedUntil meta = Some until /\
    until <> 0 /\ t < until.

(** No lock is on record, or it has ended by [t]. *)
Definition unlockedAt (t : Z) (aw : AuthWorld) : Prop :=
  forall meta until,
    readMeta aw = Some meta -> lockedUntil meta = Some until ->
    until = 0 \/ until <= t.

(** The server turned the login down. *)
Definition isRejection (reply : LoginReply) : Prop :=
  match reply with
  | LoginRejected _ | LoginRejectedUnreadable | LoginRejectedNull => True
  | _ => False
  end.

(** The message a rejection below the limit shows. *)
Definition rejectionShown (reply : LoginReply) : string :=
  match reply with
  | LoginRejected detail => str_or_lit detail "Неверный логин или пароль"
  | _ => "Ошибка сервера"
  end.

(** One call of [login]: the clock at the call, the clock at the answer,
    and the answer. *)
Record LoginTry : Type := mkLoginTry {
  try_call : Z;
  try_answer : Z;
  try_reply : LoginReply
}.

Definition loginTry (aw : AuthWorld) (t : LoginTry) : AuthWorld :=
  snd (login (try_call t) (try_answer t) (try_reply t) aw).

Definition loginRun (tries : list LoginTry) (aw : AuthWorld) : AuthWorld :=
  fold_left loginTry tries aw.

(** A try the server turns down. *)
Definition isRejectedTry (t : LoginTry) : Prop := isRejection (try_reply t).

(** The external ids of the chats clicked in a run of the chat view. *)
Definition clickedIds (events : list (Clock * ChatEvent)) : list Z :=
  flat_map (fun e => match snd e with
                     | ChatClicked chat => [c_id chat]
                     | _ => []
                     end) events.

(** The run never unmounts [ChatMessages]: it consists of chat clicks. *)
Definition onlyClicks (events : list (Clock * ChatEvent)) : Prop :=
  Forall (fun e => exists chat, snd e = ChatClicked chat) events.

(** *** Concrete inputs used by the examples *)

Definition clock0 : Clock := mkClock 1700000000000 "2023-11-14T22:13:20.000Z".
Definition clock1 : Clock := mkClock 1700000060000 "2023-11-14T22:14:20.000Z".
Definition clock2 : Clock := mkClock 1700000120000 "2023-11-14T22:15:20.000Z".

(** Two managers with ids 1 and 2 and one chat whose owner id 99 is
    dangling. *)
Definition twoManagers : list Manager :=
  [ mkManager 1 "Менеджер 1" None (Some manager) "2023-11-14T22:13:20.000Z";
    mkManager 2 "Менеджер 2" None (Some manager) "2023-11-14T22:14:20.000Z" ].

Definition danglingChat : Chat :=
  mkChat 7 private None None (Some "Ann") None None None
         0 false false false (IdNum 99) IdNullish.

Definition danglingWorld : World :=
  setChats [danglingChat] (setManagers twoManagers emptyWorld).



(** A signed-in store whose transfers payload does not parse, next to a
    sound managers payload and a current schema marker. *)
Definition corruptTransfersWorld : World :=
  mkWorld emptyState
    (mkLocalStorage (Some "true") None None (Some (Parsed twoManagers))
       (Some Unparseable) None (Some "3") None)
    [].

(** A reading of the schema marker for the examples: only "3" is current. *)
Definition marker_lt_3 (s : string) : bool := negb (String.eqb s "3").

(** A form that names contact 5 as both supplier and client, and one that
    names 5 and 6; a stored transfer between 5 and 6. *)
Definition sameContactForm : TransfersUI :=
  mkTransfersUI (mkTransferFormState (Some 5) (Some 5) new "") None true None.

Definition soundForm : TransfersUI :=
  mkTransfersUI (mkTransferFormState (Some 5) (Some 6) new "") None true None.

Definition oneTransferWorld : World :=
  setTransferRecords
    [mkTransferRecord 1 5 6 "2023-11-14T22:13:20.000Z" new None] emptyWorld.

(** The chat of the scenario: a private conversation with Ann, id 42. *)
Definition annChat : Chat :=
  mkChat 42 private None None (Some "Ann") None None None
         0 false false false (IdNum 1) IdNullish.

(** The same contact with the username ann, alone in the store, and two
    renamings of it. *)
Definition annAccount : Account :=
  newAccountFromChat emptyState clock0
    (mkChat 42 private None (Some "ann") (Some "Ann") None None None
            0 false false false (IdNum 1) IdNullish) 42.

Definition annWorld : World := setAccounts [annAccount] emptyWorld.

Definition toBob : UsernameStep :=
  mkUsernameStep clock1 (a_id annAccount) (renameTo "bob").

Definition toAnn : UsernameStep :=
  mkUsernameStep clock2 (a_id annAccount) (renameTo "ann").

(** The forms send an emptied username field as [username: undefined]. *)
Definition clearUsername : UsernameStep :=
  mkUsernameStep clock1 (a_id annAccount)
    (mkAccountPatch None None (Some None) None None None None None None None
                    None None None None None None None None None None).

(** An edit as the forms submit it: the patch carries the [user_id] of the
    record edited next to the fields of the form. *)
Definition ownIdPatch (user : Z) (u : string) : AccountPatch :=
  mkAccountPatch None (Some user) (Some (Some u)) None (Some "Ann") (Some None)
                 (Some 3) (Some []) (Some lead) (Some "") (Some source_private)
                 (Some "2023-11-14T22:13:20.000Z")
                 (Some "2023-11-14T22:14:20.000Z") (Some 1)
                 (Some (Some private)) None None None None None.

(** A contact as the manual form submits it. *)
Definition formAccount (user : Z) (name : string) : Account :=
  mkAccount 0 user None None name None 1 [] lead "" source_private
            "2023-11-14T22:13:20.000Z" "2023-11-14T22:13:20.000Z" 0
            (Some private) None None None None None.

(** Two legacy accounts without an owner next to the two managers. *)
Definition legacyWorld : World :=
  setAccounts [formAccount 42 "Ann"; formAccount 43 "Bob"]
    (setManagers twoManagers emptyWorld).

(** Manager 1 is active with one of its chats open; manager 2 owns a chat
    as well. *)
Definition chatOf (id mid : Z) : Chat :=
  mkChat id private None None (Some "Ann") None None None
         0 false false false (IdNum mid) IdNullish.

Definition activeWorld : World :=
  setActiveChat (Some (chatOf 7 1))
    (setActiveManager (hd_error twoManagers)
       (setChats [chatOf 7 1; chatOf 8 2] (setManagers twoManagers emptyWorld))).

(** One manager who owns both chats of the store. *)
Definition oneManagerWorld : World :=
  setChats [chatOf 7 1; chatOf 9 1]
    (setManagers [mkManager 1 "Менеджер 1" None (Some manager)
                    "2023-11-14T22:13:20.000Z"] emptyWorld).

(** Three transfers with distinct ids. *)
Definition transfer1 : TransferRecord :=
  mkTransferRecord 1 5 6 "2023-11-14T22:13:20.000Z" new None.
Definition transfer2 : TransferRecord :=
  mkTransferRecord 2 6 7 "2023-11-14T22:14:20.000Z" completed (Some "ok").
Definition transfer3 : TransferRecord :=
  mkTransferRecord 3 5 7 "2023-11-14T22:15:20.000Z" cancelled None.

Definition threeTransfersWorld : World :=
  setTransferRecords [transfer1; transfer2; transfer3] emptyWorld.

(** ASCII readings of [toLowerCase] and [trim], for the examples. *)
Definition lowerAscii (c : ascii) : ascii :=
  let n := nat_of_ascii c in
  if Nat.leb 65 n && Nat.leb n 90 then ascii_of_nat (n + 32) else c.

Fixpoint lowerString (s : string) : string :=
  match s with
  | EmptyString => EmptyString
  | String c rest => String (lowerAscii c) (lowerString rest)
  end.

Fixpoint dropSpaces (s : string) : string :=
  match s with
  | String " " rest => dropSpaces rest
  | _ => s
  end.

Fixpoint reverseString (s acc : string) : string :=
  match s with
  | EmptyString => acc
  | String c rest => reverseString rest (String c acc)
  end.

Definition trimSpaces (s : string) : string :=
  reverseString (dropSpaces (reverseString (dropSpaces s) "")) "".

Definition keywordsWorld : World :=
  setKeywords ["invoice"; "Refund"] emptyWorld.

(** A signed-in session with stored managers and no login meta, and one
    whose login is locked until 1700000300000. *)
Definition signedInAuth : AuthWorld :=
  mkAuthWorld (mkAuthState true false None false 0 (Some "{}")) None
    (mkLocalStorage (Some "true") None None (Some (Parsed twoManagers))
       None None (Some "3") None).

Definition lockedAuth : AuthWorld :=
  mkAuthWorld (mkAuthState false false None true 300 None)
    (Some (Parsed (mkLoginMeta 5 (Some 1700000300000))))
    emptyStorage.

Definition rejectedTry (t : Z) : LoginTry :=
  mkLoginTry t (t + 200) (LoginRejected (Some "Invalid credentials")).

(** Chat 7 already has the members 5 and 6. *)
Definition membersWorld : World :=
  setChatMembers
    [mkChatMember 7 5 "2023-11-14T22:13:20.000Z" None (Some creator);
     mkChatMember 7 6 "2023-11-14T22:13:20.000Z" None (Some member)]
    emptyWorld.

(** * Properties *)

Unset Implicit Arguments.

(** ** Reading the state after a mutator *)

Lemma accounts_createAccountFromChat clk chat senderId w :
  accounts (state (createAccountFromChat clk chat senderId w)) =
  createAccountFromChat_updater (state w) clk chat senderId (accounts (state w)).
Proof. reflexivity. Qed.

Lemma accounts_addAccount clk account w :
  accounts (state (addAccount clk account w)) =
  accounts (state w) ++ [newAccountFromForm (state w) clk account].
Proof. reflexivity. Qed.

Lemma accounts_updateAccount clk id updates w :
  accounts (state (updateAccount clk id updates w)) =
  map (updateAccount_one clk id updates) (accounts (state w)).
Proof. reflexivity. Qed.

Lemma accounts_deleteAccount id w :
  accounts (state (deleteAccount id w)) =
  filter (fun account => negb (a_id account =? id)) (accounts (state w)).
Proof. reflexivity. Qed.

(** ** JavaScript helpers *)

Lemma str_truthy_false o : str_truthy o = false <-> falsy o.
Proof.
  unfold falsy; split.
  - destruct o as [[|c s]|]; simpl; intros H;
      [now right | discriminate | now left].
  - intros [-> | ->]; reflexivity.
Qed.

Lemma str_truthy_true o s : o = Some s -> s <> "" -> str_truthy o = true.
Proof. intros -> Hs. destruct s; [contradiction | reflexivity]. Qed.

Lemma str_or_left a b s : a = Some s -> s <> "" -> str_or a b = Some s.
Proof.
  intros Ha Hs. unfold str_or. rewrite (str_truthy_true _ _ Ha Hs). exact Ha.
Qed.

Lemma str_or_right a b : falsy a -> str_or a b = b.
Proof. intros H. unfold str_or. apply str_truthy_false in H. now rewrite H. Qed.

(** ** The reconciler on an unseen identity *)

Lemma find_user_id_none senderId (l : list Account) :
  find (fun acc => a_user_id acc =? senderId) l = None ->
  ~ In senderId (map a_user_id l).
Proof.
  induction l as [|a l IH]; simpl; [tauto|].
  destruct (a_user_id a =? senderId) eqn:E; [discriminate|].
  intros H [Heq | Hin]; [apply Z.eqb_neq in E; contradiction | now apply IH].
Qed.

(** C7.  When no account holds the sender's [user_id], the reconciler
    appends exactly one record: rating 1, one message, category and source
    read off the chat kind (private gives lead/private, every other kind
    other/group), and a first name taken from the chat's first name, else
    its title, else its username, else the placeholder. *)
Theorem createAccountFromChat_creates_contact
    (clk : Clock) (chat : Chat) (senderId : Z) (w : World) :
  getAccountByUserId senderId w = None ->
  exists acc,
    accounts (state (createAccountFromChat clk chat senderId w)) =
      accounts (state w) ++ [acc] /\
    a_user_id acc = senderId /\
    a_rating acc = 1 /\
    a_total_messages acc = 1 /\
    (c_type chat = private ->
       a_category acc = lead /\ a_source acc = source_private) /\
    (c_type chat <> private ->
       a_category acc = other /\ a_source acc = source_group) /\
    (forall s, c_first_name chat = Some s -> s <> "" -> a_first_name acc = s) /\
    (forall s, falsy (c_first_name chat) ->
       c_title chat = Some s -> s <> "" -> a_first_name acc = s) /\
    (forall s, falsy (c_first_name chat) -> falsy (c_title chat) ->
       c_username chat = Some s -> s <> "" -> a_first_name acc = s) /\
    (falsy (c_first_name chat) -> falsy (c_title chat) ->
       falsy (c_username chat) -> a_first_name acc = "Без имени").
Proof.
  intros Hnone. unfold getAccountByUserId in Hnone.
  exists (newAccountFromChat (state w) clk chat senderId).
  rewrite accounts_createAccountFromChat.
  unfold createAccountFromChat_updater. rewrite Hnone.
  split; [reflexivity|].
  split; [reflexivity|]. split; [reflexivity|]. split; [reflexivity|].
  split; [intros Hp; simpl; rewrite Hp; now split|].
  split.
  { intros Hp; simpl. destruct (c_type chat); try contradiction; now split. }
  unfold newAccountFromChat, a_first_name, str_or_lit.
  split.
  { intros s H1 Hs. rewrite (str_or_left _ _ _ H1 Hs).
    now rewrite (str_or_left _ _ _ eq_refl Hs). }
  split.
  { intros s F1 H2 Hs. rewrite (str_or_right _ _ F1).
    rewrite (str_or_left _ _ _ H2 Hs). now rewrite (str_or_left _ _ _ eq_refl Hs). }
  split.
  { intros s F1 F2 H3 Hs. rewrite (str_or_right _ _ F1), (str_or_right _ _ F2).
    rewrite H3. now rewrite (str_or_left _ _ _ eq_refl Hs). }
  intros F1 F2 F3. rewrite (str_or_right _ _ F1), (str_or_right _ _ F2).
  rewrite (str_or_right _ _ F3). reflexivity.
Qed.

Lemma createAccountFromChat_creates_contact_witness :
  getAccountByUserId 42 emptyWorld = None /\
  exists acc,
    accounts (state (createAccountFromChat clock0 annChat 42 emptyWorld)) =
      accounts (state emptyWorld) ++ [acc] /\
    a_user_id acc = 42 /\
    a_rating acc = 1 /\
    a_total_messages acc = 1 /\
    (c_type annChat = private ->
       a_category acc = lead /\ a_source acc = source_private) /\
    (c_type annChat <> private ->
       a_category acc = other /\ a_source acc = source_group) /\
    (forall s, c_first_name annChat = Some s -> s <> "" -> a_first_name acc = s) /\
    (forall s, falsy (c_first_name annChat) ->
       c_title annChat = Some s -> s <> "" -> a_first_name acc = s) /\
    (forall s, falsy (c_first_name annChat) -> falsy (c_title annChat) ->
       c_username annChat = Some s -> s <> "" -> a_first_name acc = s) /\
    (falsy (c_first_name annChat) -> falsy (c_title annChat) ->
       falsy (c_username annChat) -> a_first_name acc = "Без имени").
Proof.
  split; [reflexivity|].
  apply (createAccountFromChat_creates_contact clock0 annChat 42 emptyWorld).
  reflexivity.
Defined.

(** ** Repeated reconciliation *)

Lemma find_app_none {A : Type} (p : A -> bool) (l1 l2 : list A) :
  find p l1 = None -> find p (l1 ++ l2) = find p l2.
Proof.
  induction l1 as [|a l1 IH]; simpl; [reflexivity|].
  destruct (p a); [discriminate | exact IH].
Qed.

Lemma find_map_stable {A : Type} (p : A -> bool) (f : A -> A) (l : list A) :
  (forall a, p (f a) = p a) ->
  find p (map f l) = option_map f (find p l).
Proof.
  intros Hp. induction l as [|a l IH]; simpl; [reflexivity|].
  rewrite Hp. destruct (p a); [reflexivity | exact IH].
Qed.

Lemma touch_if_user_id clk (c : bool) acc :
  a_user_id (if c then touchAccount clk acc else acc) = a_user_id acc.
Proof. destruct c; reflexivity. Qed.

(** The reconciler never changes which external ids are held, except for
    appending the sender's when it was absent. *)
Lemma createAccountFromChat_user_ids s clk chat senderId prev :
  map a_user_id (createAccountFromChat_updater s clk chat senderId prev) =
  match find (fun acc => a_user_id acc =? senderId) prev with
  | Some _ => map a_user_id prev
  | None => map a_user_id prev ++ [senderId]
  end.
Proof.
  unfold createAccountFromChat_updater.
  destruct (find _ prev) as [e|].
  - rewrite map_map. apply map_ext. intros a. apply touch_if_user_id.
  - rewrite map_app. reflexivity.
Qed.

(** After a call the sender's id is held. *)
Lemma createAccountFromChat_finds s clk chat senderId prev :
  exists e,
    find (fun acc => a_user_id acc =? senderId)
         (createAccountFromChat_updater s clk chat senderId prev) = Some e.
Proof.
  unfold createAccountFromChat_updater.
  destruct (find _ prev) as [e|] eqn:E.
  - rewrite find_map_stable.
    + rewrite E. simpl. eauto.
    + intros a. now rewrite touch_if_user_id.
  - rewrite find_app_none by exact E. simpl. rewrite Z.eqb_refl. eauto.
Qed.

(** On an identity already held the call touches the record found. *)
Lemma createAccountFromChat_existing s clk chat senderId prev e :
  find (fun acc => a_user_id acc =? senderId) prev = Some e ->
  find (fun acc => a_user_id acc =? senderId)
       (createAccountFromChat_updater s clk chat senderId prev) =
  Some (touchAccount clk e).
Proof.
  intros E. unfold createAccountFromChat_updater. rewrite E.
  rewrite find_map_stable.
  - rewrite E. simpl. now rewrite Z.eqb_refl.
  - intros a. now rewrite touch_if_user_id.
Qed.

Lemma existsb_app_last (x : Z) (l : list Z) :
  existsb (Z.eqb x) (l ++ [x]) = true.
Proof.
  rewrite existsb_app. simpl. rewrite Z.eqb_refl.
  now rewrite orb_true_r.
Qed.

(** The claim of C2 fails as stated: from the empty store, a second call
    with the same chat, the same sender and the same clock reading counts a
    second message. *)
Lemma createAccountFromChat_second_call_increments :
  let w1 := createAccountFromChat clock0 annChat 42 emptyWorld in
  let w2 := createAccountFromChat clock0 annChat 42 w1 in
  map a_total_messages (accounts (state w1)) = [1] /\
  map a_total_messages (accounts (state w2)) = [2] /\
  w2 <> w1.
Proof.
  split; [reflexivity|]. split; [reflexivity|].
  intros H. apply (f_equal (fun w => map a_total_messages (accounts (state w)))) in H.
  vm_compute in H. discriminate.
Qed.

(** C2, as the code has it.  A second call of the reconciler for the same
    sender adds no record and leaves the held external ids as they are, but
    it does count: the record found for the sender gets one more message and
    the second call's time as last contact.  What makes a repeat harmless is
    the guard of the caller: the effect of [ChatMessages] run again on the
    same active chat does nothing. *)
Theorem createAccountFromChat_twice
    (clk1 clk2 : Clock) (chat : Chat) (senderId : Z) (w : World) :
  let w1 := createAccountFromChat clk1 chat senderId w in
  let w2 := createAccountFromChat clk2 chat senderId w1 in
  user_ids w2 = user_ids w1 /\
  List.length (accounts (state w2)) = List.length (accounts (state w1)) /\
  (exists e,
     getAccountByUserId senderId w1 = Some e /\
     getAccountByUserId senderId w2 = Some (touchAccount clk2 e) /\
     a_total_messages (touchAccount clk2 e) = a_total_messages e + 1 /\
     a_last_contact (touchAccount clk2 e) = now_iso clk2) /\
  (forall processed,
     let r := ChatMessages_effect clk1 processed w in
     ChatMessages_effect clk2 (fst r) (snd r) = r).
Proof.
  intros w1 w2.
  destruct (createAccountFromChat_finds (state w) clk1 chat senderId
              (accounts (state w))) as [e He].
  assert (Hids : user_ids w2 = user_ids w1).
  { unfold user_ids, w2. rewrite accounts_createAccountFromChat.
    rewrite createAccountFromChat_user_ids.
    unfold w1 at 1. rewrite accounts_createAccountFromChat.
    change (state w1) with (state (createAccountFromChat clk1 chat senderId w)).
    rewrite He. reflexivity. }
  split; [exact Hids|].
  split.
  { apply (f_equal (@List.length Z)) in Hids. unfold user_ids in Hids.
    now rewrite !length_map in Hids. }
  split.
  { exists e. split; [exact He|]. split; [|split; reflexivity].
    unfold getAccountByUserId, w2. rewrite accounts_createAccountFromChat.
    now apply createAccountFromChat_existing. }
  intros processed r. subst r. unfold ChatMessages_effect at 2 3.
  destruct (activeChat (state w)) as [ac|] eqn:Hac.
  - destruct (existsb (Z.eqb (c_id ac)) processed) eqn:Hp; simpl.
    + unfold ChatMessages_effect. now rewrite Hac, Hp.
    + unfold ChatMessages_effect. simpl. rewrite Hac, Hp.
      now rewrite existsb_app_last.
  - simpl. unfold ChatMessages_effect. now rewrite Hac.
Qed.

(** ** Identity uniqueness *)

Lemma NoDup_snoc {A : Type} (l : list A) (x : A) :
  NoDup l -> ~ In x l -> NoDup (l ++ [x]).
Proof.
  intros Hl Hx. induction Hl as [|y l Hy Hl IH]; simpl.
  - constructor; [tauto | constructor].
  - constructor.
    + rewrite in_app_iff. simpl. intros [H | [H | []]]; [tauto|].
      subst. apply Hx. now left.
    + apply IH. intros H. apply Hx. now right.
Qed.

(** Deleting records cannot make two external ids collide. *)
Lemma user_ids_filter_distinct (keep : Account -> bool) (l : list Account) :
  NoDup (map a_user_id l) -> NoDup (map a_user_id (filter keep l)).
Proof.
  induction l as [|a l IH]; simpl; intros H; [constructor|].
  apply NoDup_cons_iff in H. destruct H as [Hnotin Hnd].
  destruct (keep a); simpl; [|now apply IH].
  constructor; [|now apply IH].
  intros Hin. apply Hnotin.
  apply in_map_iff in Hin. destruct Hin as [b [Hb Hin]].
  apply filter_In in Hin. apply in_map_iff. exists b. tauto.
Qed.

Lemma existsb_eqb_false (x : Z) (l : list Z) :
  existsb (Z.eqb x) l = false -> ~ In x l.
Proof.
  intros H Hin.
  assert (existsb (Z.eqb x) l = true) as Ht.
  { apply existsb_exists. exists x. split; [exact Hin | apply Z.eqb_refl]. }
  congruence.
Qed.

Lemma updateAccount_one_user_id clk id updates account :
  a_user_id (updateAccount_one clk id updates account) =
  if a_id account =? id
  then spread (a_user_id account) (p_user_id updates)
  else a_user_id account.
Proof.
  unfold updateAccount_one.
  destruct (a_id account =? id); reflexivity.
Qed.

(** An [updateAccount] that edits no record leaves the external ids. *)
Lemma updateAccount_no_target clk id updates (l : list Account) :
  existsb (fun a => a_id a =? id) l = false ->
  map a_user_id (map (updateAccount_one clk id updates) l) = map a_user_id l.
Proof.
  induction l as [|a l IH]; simpl; intros H; [reflexivity|].
  apply orb_false_iff in H. destruct H as [Ha Hl].
  rewrite updateAccount_one_user_id, Ha. now rewrite IH.
Qed.

(** How often an external id is held after an [updateAccount] whose patch
    carries [user_id: u]: [u] by the records edited and by the others that
    held it, any other id by no more records than before. *)
Lemma updateAccount_holders clk id updates u (l : list Account) :
  p_user_id updates = Some u ->
  count_occ Z.eq_dec (map a_user_id (map (updateAccount_one clk id updates) l)) u
    = List.length (holdersAfter id u l) /\
  forall v, v <> u ->
    (count_occ Z.eq_dec
       (map a_user_id (map (updateAccount_one clk id updates) l)) v
     <= count_occ Z.eq_dec (map a_user_id l) v)%nat.
Proof.
  intros Hu. unfold holdersAfter.
  induction l as [|a l [IH1 IH2]]; [split; [reflexivity | intros; simpl; lia]|].
  cbn [map filter]. rewrite updateAccount_one_user_id, Hu. cbn [spread].
  split.
  - destruct (a_id a =? id) eqn:Ea; cbn [orb].
    + rewrite count_occ_cons_eq by reflexivity. cbn [List.length].
      now rewrite IH1.
    + destruct (a_user_id a =? u) eqn:Ev.
      * apply Z.eqb_eq in Ev. rewrite count_occ_cons_eq by exact Ev.
        cbn [List.length]. now rewrite IH1.
      * apply Z.eqb_neq in Ev. rewrite count_occ_cons_neq by exact Ev.
        exact IH1.
  - intros v Hv. specialize (IH2 v Hv).
    destruct (a_id a =? id).
    + rewrite count_occ_cons_neq by congruence.
      destruct (Z.eq_dec (a_user_id a) v) as [E|E];
        [rewrite (count_occ_cons_eq _ _ E) | rewrite (count_occ_cons_neq _ _ E)];
        lia.
    + destruct (Z.eq_dec (a_user_id a) v) as [E|E];
        [rewrite !(count_occ_cons_eq _ _ E) | rewrite !(count_occ_cons_neq _ _ E)];
        lia.
Qed.

(** The guard is exact: on a store whose external ids are pairwise
    distinct, a call keeps them distinct if and only if it passes. *)
Lemma keepsIdentity_exact w op :
  NoDup (user_ids w) ->
  keepsIdentity w op = true <-> NoDup (user_ids (runContactOp w op)).
Proof.
  unfold user_ids.
  destruct op as [clk account | clk chat senderId | clk id updates | id];
    cbn [runContactOp keepsIdentity]; intros Hnd.
  - rewrite accounts_addAccount, map_app. simpl. split.
    + intros Hg. apply NoDup_snoc; [exact Hnd|].
      apply existsb_eqb_false. now apply negb_true_iff in Hg.
    + intros H. apply NoDup_remove_2 in H. rewrite app_nil_r in H.
      apply negb_true_iff, not_true_is_false. intros Hex.
      apply existsb_exists in Hex. destruct Hex as [x [Hx Hxe]].
      apply Z.eqb_eq in Hxe. subst x. contradiction.
  - split; [intros _|reflexivity].
    rewrite accounts_createAccountFromChat, createAccountFromChat_user_ids.
    destruct (find _ (accounts (state w))) as [e|] eqn:E; [exact Hnd|].
    apply NoDup_snoc; [exact Hnd | now apply find_user_id_none].
  - rewrite accounts_updateAccount.
    destruct (p_user_id updates) as [u|] eqn:Hu.
    + destruct (existsb (fun a => a_id a =? id) (accounts (state w))) eqn:Ex;
        cbn [negb orb].
      * destruct (updateAccount_holders clk id updates u (accounts (state w)) Hu)
          as [Hc Hle].
        split.
        -- intros Hg. apply Nat.leb_le in Hg.
           apply (NoDup_count_occ Z.eq_dec). intros v.
           destruct (Z.eq_dec v u) as [->|Hv]; [rewrite Hc; exact Hg|].
           specialize (Hle v Hv).
           pose proof (proj1 (NoDup_count_occ Z.eq_dec _) Hnd v). lia.
        -- intros H. apply Nat.leb_le. rewrite <- Hc.
           exact (proj1 (NoDup_count_occ Z.eq_dec _) H u).
      * rewrite updateAccount_no_target by exact Ex. tauto.
    + split; [intros _|reflexivity].
      rewrite map_map. erewrite map_ext; [exact Hnd|].
      intros a. rewrite updateAccount_one_user_id, Hu.
      now destruct (a_id a =? id).
  - split; [intros _|reflexivity].
    rewrite accounts_deleteAccount. now apply user_ids_filter_distinct.
Qed.

(** Records with distinct ids and distinct external ids: a patch that
    carries the external id of the record it edits leaves that id on this
    record alone. *)
Lemma own_user_id_one_holder (l : list Account) a :
  NoDup (map a_id l) ->
  NoDup (map a_user_id l) ->
  In a l ->
  (List.length (holdersAfter (a_id a) (a_user_id a) l) <= 1)%nat.
Proof.
  intros Hids Huids Hin. unfold holdersAfter.
  assert (Hpos : forall x pre post,
            l = pre ++ x :: post ->
            ((a_id x =? a_id a) || (a_user_id x =? a_user_id a)) = true ->
            x = a /\ ~ In a pre /\ ~ In a post).
  { intros x pre post -> Hx.
    rewrite map_app in Hids, Huids. cbn [map] in Hids, Huids.
    pose proof (NoDup_remove_2 _ _ _ Hids) as Hi.
    pose proof (NoDup_remove_2 _ _ _ Huids) as Hu.
    rewrite in_app_iff in Hi, Hu.
    assert (Hother : forall y, In y pre \/ In y post ->
                       a_id y <> a_id x /\ a_user_id y <> a_user_id x).
    { intros y Hy. split; intros E.
      - apply Hi. destruct Hy as [Hy|Hy]; [left|right];
          apply in_map_iff; exists y; split; auto.
      - apply Hu. destruct Hy as [Hy|Hy]; [left|right];
          apply in_map_iff; exists y; split; auto. }
    assert (Hxa : x = a).
    { apply in_app_iff in Hin. cbn [In] in Hin.
      destruct Hin as [Hp | [E | Hp]]; [|exact E|].
      - destruct (Hother a (or_introl Hp)) as [H1 H2].
        apply orb_true_iff in Hx. destruct Hx as [Hx|Hx];
          apply Z.eqb_eq in Hx; congruence.
      - destruct (Hother a (or_intror Hp)) as [H1 H2].
        apply orb_true_iff in Hx. destruct Hx as [Hx|Hx];
          apply Z.eqb_eq in Hx; congruence. }
    subst x. split; [reflexivity|].
    split; intros Hp;
      [destruct (Hother a (or_introl Hp)) | destruct (Hother a (or_intror Hp))];
      congruence. }
  destruct (in_split _ _ Hin) as [pre [post Hl]].
  destruct (Hpos a pre post Hl) as [_ [Hpre Hpost]];
    [rewrite !Z.eqb_refl; reflexivity|].
  assert (Hnone : forall part,
            (forall x, In x part -> x <> a) ->
            (forall x, In x part -> In x l) ->
            filter (fun x => (a_id x =? a_id a) || (a_user_id x =? a_user_id a))
                   part = []).
  { intros part Hna Hsub. induction part as [|x part IH]; [reflexivity|].
    cbn [filter].
    destruct ((a_id x =? a_id a) || (a_user_id x =? a_user_id a)) eqn:Ex.
    - exfalso. destruct (in_split _ _ (Hsub x (or_introl eq_refl)))
        as [p1 [p2 Hsplit]].
      destruct (Hpos x p1 p2 Hsplit Ex) as [Hxa _].
      apply (Hna x); [now left | exact Hxa].
    - apply IH; intros y Hy; [apply Hna | apply Hsub]; now right. }
  rewrite Hl, filter_app. cbn [filter]. rewrite !Z.eqb_refl. cbn [orb].
  rewrite (Hnone pre), (Hnone post).
  - simpl. lia.
  - intros x Hx E. subst x. contradiction.
  - intros x Hx. rewrite Hl. apply in_app_iff. right. now right.
  - intros x Hx E. subst x. contradiction.
  - intros x Hx. rewrite Hl. apply in_app_iff. now left.
Qed.

(** One guarded call keeps the external ids pairwise distinct. *)
Lemma runContactOp_keeps_identity w op :
  keepsIdentity w op = true ->
  NoDup (user_ids w) -> NoDup (user_ids (runContactOp w op)).
Proof. intros Hg Hnd. now apply (keepsIdentity_exact w op Hnd). Qed.

Lemma runContactOps_keeps_identity ops w :
  guardedOps ops w = true ->
  NoDup (user_ids w) -> NoDup (user_ids (runContactOps ops w)).
Proof.
  revert w. induction ops as [|op ops IH]; simpl; intros w Hg Hnd;
    [exact Hnd|].
  apply andb_true_iff in Hg. destruct Hg as [Hop Hrest].
  apply IH; [exact Hrest | now apply runContactOp_keeps_identity].
Qed.

(** Upserts of one identity on a store that holds only that identity. *)
Lemma upserts_on_single senderId ops :
  Forall (isUpsertOf senderId) ops ->
  forall w acc,
    accounts (state w) = [acc] -> a_user_id acc = senderId ->
    exists acc',
      accounts (state (runContactOps ops w)) = [acc'] /\
      a_user_id acc' = senderId /\
      a_total_messages acc' = a_total_messages acc + Z.of_nat (List.length ops).
Proof.
  induction 1 as [|op ops Hop Hall IH]; intros w acc Hw Hid.
  - exists acc. simpl. split; [exact Hw|]. split; [exact Hid | lia].
  - destruct op as [| clk chat s | |]; simpl in Hop; try contradiction.
    subst s.
    assert (Hstep : accounts (state (createAccountFromChat clk chat senderId w))
                    = [touchAccount clk acc]).
    { rewrite accounts_createAccountFromChat.
      unfold createAccountFromChat_updater. rewrite Hw. simpl.
      rewrite Hid, Z.eqb_refl. simpl. now rewrite Z.eqb_refl. }
    destruct (IH _ _ Hstep Hid) as [acc' [H1 [H2 H3]]].
    exists acc'. simpl runContactOps. split; [exact H1|].
    split; [exact H2|].
    rewrite H3. simpl a_total_messages.
    change (List.length (OpCreateAccountFromChat clk chat senderId :: ops))
      with (S (List.length ops)). lia.
Qed.

(** The claim of C1 fails as stated.  An [updateAccount] whose patch
    carries the [user_id] of another record leaves two records with that
    id.  And the count of an identity is the number of reconciler calls,
    not of distinct patches: the same call made twice, with the same chat
    and the same clock reading, counts two messages. *)
Lemma contact_mutators_duplicate_identity :
  (let ops := [OpCreateAccountFromChat clock0 annChat 42;
               OpCreateAccountFromChat clock1 annChat 43;
               OpUpdateAccount clock2 (now_ms clock1)
                 (mkAccountPatch None (Some 42) None None None None None None
                    None None None None None None None None None None None
                    None)] in
   user_ids (runContactOps ops emptyWorld) = [42; 42] /\
   ~ NoDup (user_ids (runContactOps ops emptyWorld))) /\
  (let patch := OpCreateAccountFromChat clock0 annChat 42 in
   let ops := [patch; patch] in
   Forall (isUpsertOf 42) ops /\
   (forall op, In op ops -> op = patch) /\
   map a_total_messages (accounts (state (runContactOps ops emptyWorld))) = [2]).
Proof.
  split.
  - split; [reflexivity|].
    intros H; vm_compute in H; inversion H as [|? ? Hn _]; subst;
      apply Hn; now left.
  - split; [repeat constructor|]. split; [|reflexivity].
    intros op [<- | [<- | []]]; reflexivity.
Qed.

(** C1, as the code has it.  Starting from an empty accounts collection,
    every sequence of calls of the reconciler, of [deleteAccount] and of
    [updateAccount] leaves at most one record per external id, provided no
    [updateAccount] patch puts its [user_id] on a record while another
    record holds that id (or on two records at once); a patch that carries
    the [user_id] of the one record it edits, as the forms send it, is no
    such patch.  The proviso is exact: a call that fails it on distinct
    ids leaves two records with one id.  ([addAccount] is counted in the
    same way, as far as it is given an id that no record holds.)  In
    particular after [n >= 1] calls of the reconciler for one external id
    the collection is a single record with that id whose [total_messages]
    is [n]: every call counts. *)
Theorem identity_uniqueness (ops : list ContactOp) (w : World) :
  accounts (state w) = [] ->
  guardedOps ops w = true ->
  NoDup (user_ids (runContactOps ops w)) /\
  (forall w0 op,
     NoDup (user_ids w0) -> keepsIdentity w0 op = false ->
     ~ NoDup (user_ids (runContactOp w0 op))) /\
  (forall w0 clk a updates,
     NoDup (map a_id (accounts (state w0))) ->
     NoDup (user_ids w0) ->
     In a (accounts (state w0)) ->
     p_user_id updates = Some (a_user_id a) ->
     keepsIdentity w0 (OpUpdateAccount clk (a_id a) updates) = true) /\
  (forall senderId,
     ops <> [] ->
     Forall (isUpsertOf senderId) ops ->
     exists acc,
       accounts (state (runContactOps ops w)) = [acc] /\
       a_user_id acc = senderId /\
       a_total_messages acc = Z.of_nat (List.length ops)).
Proof.
  intros Hempty Hg. split; [|split; [|split]].
  - apply runContactOps_keeps_identity; [exact Hg|].
    unfold user_ids. rewrite Hempty. constructor.
  - intros w0 op Hnd Hf Hafter.
    apply (keepsIdentity_exact w0 op Hnd) in Hafter. congruence.
  - intros w0 clk a updates Hids Hnd Hin Hu.
    cbn [keepsIdentity]. rewrite Hu.
    apply orb_true_iff. right. apply Nat.leb_le.
    now apply own_user_id_one_holder.
  - intros senderId Hne Hall.
    destruct ops as [|op ops]; [contradiction|].
    inversion Hall as [|? ? Hop Hrest]; subst.
    destruct op as [| clk chat s | |]; simpl in Hop; try contradiction.
    subst s.
    assert (Hstep : accounts (state (createAccountFromChat clk chat senderId w))
                    = [newAccountFromChat (state w) clk chat senderId]).
    { rewrite accounts_createAccountFromChat.
      unfold createAccountFromChat_updater. now rewrite Hempty. }
    destruct (upserts_on_single senderId ops Hrest _ _ Hstep eq_refl)
      as [acc' [H1 [H2 H3]]].
    exists acc'. simpl runContactOps. split; [exact H1|].
    split; [exact H2|].
    rewrite H3. simpl a_total_messages.
    change (List.length (OpCreateAccountFromChat clk chat senderId :: ops))
      with (S (List.length ops)). lia.
Qed.

Lemma identity_uniqueness_witness :
  let ops := [OpCreateAccountFromChat clock0 annChat 42;
              OpUpdateAccount clock1 (now_ms clock0) (ownIdPatch 42 "ann");
              OpCreateAccountFromChat clock2 annChat 43;
              OpDeleteAccount (now_ms clock2);
              OpCreateAccountFromChat clock2 annChat 42] in
  guardedOps ops emptyWorld = true /\
  user_ids (runContactOps ops emptyWorld) = [42] /\
  NoDup (user_ids (runContactOps ops emptyWorld)).
Proof.
  split; [reflexivity|]. split; [reflexivity|].
  exact (proj1 (identity_uniqueness
           [OpCreateAccountFromChat clock0 annChat 42;
            OpUpdateAccount clock1 (now_ms clock0) (ownIdPatch 42 "ann");
            OpCreateAccountFromChat clock2 annChat 43;
            OpDeleteAccount (now_ms clock2);
            OpCreateAccountFromChat clock2 annChat 42] emptyWorld
           eq_refl eq_refl)).
Defined.

(** ** Username history *)

Lemma firstn_app_firstn {A : Type} (X Y : list A) :
  forall n m, (n <= m)%nat ->
  firstn n (X ++ firstn m Y) = firstn n (X ++ Y).
Proof.
  induction X as [|x X IH]; intros n m Hnm; simpl.
  - rewrite firstn_firstn. now rewrite Nat.min_l.
  - destruct n as [|n]; [reflexivity|]. simpl. f_equal.
    apply IH. lia.
Qed.

Lemma opt_string_eqb_eq a b : opt_string_eqb a b = true <-> a = b.
Proof.
  destruct a as [x|], b as [y|]; simpl; split; intros H;
    try discriminate; try reflexivity.
  - apply String.eqb_eq in H. now subst.
  - injection H as ->. apply String.eqb_refl.
Qed.

(** What a username change is, read off the patch. *)
Lemma username_changes_inv updates a :
  username_changes updates a = true ->
  exists u, p_username updates = Some (Some u) /\ u <> "" /\
            a_username a <> Some u.
Proof.
  unfold username_changes.
  destruct (p_username updates) as [[u|]|]; intros H;
    [ | simpl in H; discriminate | discriminate ].
  apply andb_true_iff in H. destruct H as [Ht Hne].
  exists u. split; [reflexivity|]. split.
  - intros ->. discriminate.
  - intros Heq. apply negb_true_iff in Hne.
    assert (opt_string_eqb (Some u) (a_username a) = true) as Hc
      by (apply opt_string_eqb_eq; now rewrite Heq).
    congruence.
Qed.

(** One username change: the replaced name goes to the front. *)
Lemma applyStep_change s a :
  isUsernameChange s a = true ->
  applyStep s a =
  spreadAccount a (us_updates s)
    (firstn 20
       (mkUsernameChange (str_or_lit (a_username a) "(empty)")
                         (now_iso (us_clk s)) :: history a)).
Proof.
  unfold isUsernameChange. intros H. apply andb_true_iff in H.
  destruct H as [Hid Hch].
  unfold applyStep, updateAccount_one. rewrite Hid, Hch. reflexivity.
Qed.

Lemma applySteps_snoc before last a :
  applySteps (before ++ [last]) a = applyStep last (applySteps before a).
Proof. unfold applySteps. now rewrite fold_left_app. Qed.

(** A call that records nothing leaves the history as it is. *)
Lemma applyStep_no_record s a :
  isUsernameChange s a = false -> history (applyStep s a) = history a.
Proof.
  unfold isUsernameChange, applyStep, updateAccount_one. intros H.
  destruct (a_id a =? us_id s); [|reflexivity].
  simpl in H. rewrite H. reflexivity.
Qed.

(** The history after any run of [updateAccount] calls. *)
Lemma history_applySteps steps :
  forall a, history (applySteps steps a) = historyAfter steps a.
Proof.
  unfold historyAfter.
  induction steps as [|s steps IH]; intros a; [reflexivity|].
  change (applySteps (s :: steps) a) with (applySteps steps (applyStep s a)).
  rewrite IH. cbn [replacedUsernames].
  destruct (isUsernameChange s a) eqn:Hs.
  - assert (Hh : history (applyStep s a) =
                 firstn 20
                   (mkUsernameChange (str_or_lit (a_username a) "(empty)")
                                     (now_iso (us_clk s)) :: history a))
      by now rewrite (applyStep_change _ _ Hs).
    cbn [app].
    destruct (replacedUsernames steps (applyStep s a)) as [|r rs] eqn:Er.
    + exact Hh.
    + rewrite Hh. rewrite firstn_app_firstn by lia.
      cbn [rev]. now rewrite <- !app_assoc.
  - cbn [app]. rewrite (applyStep_no_record _ _ Hs).
    reflexivity.
Qed.

(** The store-level calls act on each position as [applySteps] does. *)
Lemma runContactOps_steps steps :
  forall w i,
    nth_error (accounts (state (runContactOps (map stepOp steps) w))) i =
    option_map (applySteps steps) (nth_error (accounts (state w)) i).
Proof.
  induction steps as [|s steps IH]; intros w i.
  - simpl. now destruct (nth_error _ i).
  - cbn [map runContactOps fold_left]. fold (runContactOps (map stepOp steps)).
    rewrite IH. cbn [stepOp runContactOp].
    rewrite accounts_updateAccount, nth_error_map.
    now destruct (nth_error (accounts (state w)) i).
Qed.

(** The claim of C3 fails as stated: after the changes ann -> bob -> ann
    the history holds an entry with the current username. *)
Lemma username_history_holds_current_name :
  let w' := runContactOps [stepOp toBob; stepOp toAnn] annWorld in
  exists a' e,
    accounts (state w') = [a'] /\
    a_username a' = Some "ann" /\
    history a' = [mkUsernameChange "bob" (now_iso clock2);
                  mkUsernameChange "ann" (now_iso clock1)] /\
    In e (history a') /\ a_username a' = Some (uc_username e).
Proof.
  eexists. exists (mkUsernameChange "ann" (now_iso clock1)).
  split; [reflexivity|]. split; [reflexivity|]. split; [reflexivity|].
  split; [right; left; reflexivity | reflexivity].
Qed.

(** C3, as the code has it.  After any [N >= 1] calls of [updateAccount]
    the history of an account is its earlier history preceded by one entry
    for each call that set a non-empty username other than the one held at
    that moment, most recent first, cut to 20 entries as soon as one such
    call occurred; the entry of a call holds the username the call replaced
    (the placeholder when there was none).  A call that clears the
    username, or sets an empty or the same one, or is aimed at another
    record, adds no entry.  Right after a call that added an entry the
    history has at most 20 entries and its most recent entry is the
    username just replaced, so it differs from the current username unless
    the account had no username and is renamed to the placeholder text
    itself.  Older entries may repeat the current username. *)
Theorem username_history_after_changes
    (w : World) (i : nat) (a : Account)
    (before : list UsernameStep) (last : UsernameStep) :
  nth_error (accounts (state w)) i = Some a ->
  let steps := before ++ [last] in
  let prev := applySteps before a in
  let a' := applySteps steps a in
  nth_error (accounts (state (runContactOps (map stepOp steps) w))) i = Some a' /\
  history a' = historyAfter steps a /\
  (isUsernameChange last prev = false -> history a' = history prev) /\
  (isUsernameChange last prev = true ->
     (List.length (history a') <= 20)%nat /\
     hd_error (history a') =
       Some (mkUsernameChange (str_or_lit (a_username prev) "(empty)")
                              (now_iso (us_clk last))) /\
     a_username a' <> a_username prev /\
     (forall e, hd_error (history a') = Some e ->
                a_username a' = Some (uc_username e) ->
                falsy (a_username prev) /\ a_username a' = Some "(empty)")).
Proof.
  intros Hnth steps prev a'.
  assert (Ha' : a' = applyStep last prev)
    by (unfold a', steps, prev; apply applySteps_snoc).
  split.
  { rewrite runContactOps_steps, Hnth. reflexivity. }
  split; [apply history_applySteps|].
  split.
  { intros Hlast. rewrite Ha'. now apply applyStep_no_record. }
  intros Hlast.
  pose proof (applyStep_change _ _ Hlast) as Hstep.
  unfold isUsernameChange in Hlast. apply andb_true_iff in Hlast.
  destruct Hlast as [_ Hlast].
  destruct (username_changes_inv _ _ Hlast) as [u [Hu [Hu_ne Hdiff]]].
  assert (Hname : a_username a' = Some u).
  { rewrite Ha', Hstep. unfold spreadAccount; simpl. now rewrite Hu. }
  assert (Hhd : hd_error (history a') =
                Some (mkUsernameChange (str_or_lit (a_username prev) "(empty)")
                                       (now_iso (us_clk last)))).
  { rewrite Ha', Hstep. reflexivity. }
  split.
  { rewrite Ha', Hstep. unfold history at 1. cbn [spreadAccount a_username_history].
    apply firstn_le_length. }
  split; [exact Hhd|].
  split.
  { rewrite Hname. intros Heq. apply Hdiff. now rewrite <- Heq. }
  intros e He Hcur. rewrite Hhd in He. injection He as <-.
  simpl in Hcur. rewrite Hname in Hcur. injection Hcur as Hcur.
  destruct (str_truthy (a_username prev)) eqn:Ht.
  - exfalso. apply Hdiff.
    unfold str_or_lit, str_or in Hcur. rewrite Ht in Hcur.
    destruct (a_username prev) as [p|]; [now subst | discriminate].
  - split; [now apply str_truthy_false|].
    unfold str_or_lit, str_or in Hcur. rewrite Ht in Hcur.
    rewrite Hname. now subst.
Qed.

Lemma username_history_after_changes_witness :
  nth_error (accounts (state annWorld)) 0 = Some annAccount /\
  let steps := [toBob; clearUsername] ++ [toAnn] in
  let cleared := applySteps [toBob; clearUsername] annAccount in
  let a' := applySteps steps annAccount in
  a_username cleared = None /\
  history cleared = [mkUsernameChange "ann" (now_iso clock1)] /\
  nth_error (accounts (state (runContactOps (map stepOp steps) annWorld))) 0
    = Some a' /\
  history a' = [mkUsernameChange "(empty)" (now_iso clock2);
                mkUsernameChange "ann" (now_iso clock1)] /\
  history a' = historyAfter steps annAccount.
Proof.
  split; [reflexivity|].
  destruct (username_history_after_changes annWorld 0 annAccount
              [toBob; clearUsername] toAnn eq_refl) as [H1 [H2 _]].
  split; [reflexivity|]. split; [reflexivity|].
  split; [exact H1|]. split; [reflexivity | exact H2].
Defined.

(** ** Referential repair *)

Lemma id_in_head m0 (rest : list Manager) :
  id_in (IdNum (m_id m0)) (map m_id (m0 :: rest)) = true.
Proof. simpl. now rewrite Z.eqb_refl. Qed.

Lemma normalizeChat_valid ids first_id c :
  id_in (IdNum first_id) ids = true ->
  id_in (c_manager_id (normalizeChat ids first_id c)) ids = true.
Proof.
  intros Hfirst. unfold normalizeChat, needsRepair.
  destruct (id_in (c_manager_id c) ids) eqn:Hm; simpl; [exact Hm|].
  destruct (id_in (c_account_id c) ids) eqn:Ha; [exact Ha | exact Hfirst].
Qed.

Lemma normalizeChat_Repaired ids first_id c :
  Repaired ids first_id c (normalizeChat ids first_id c).
Proof.
  unfold normalizeChat, needsRepair.
  destruct (id_in (c_manager_id c) ids) eqn:Hm; simpl.
  - now constructor.
  - destruct (id_in (c_account_id c) ids) eqn:Ha; now constructor.
Qed.

Lemma existsb_needsRepair_false ids (l : list Chat) :
  existsb (needsRepair ids) l = false <->
  Forall (fun c => id_in (c_manager_id c) ids = true) l.
Proof.
  unfold needsRepair. induction l as [|c l IH]; simpl.
  - split; [constructor | reflexivity].
  - rewrite orb_false_iff, negb_false_iff, IH. split.
    + intros [H1 H2]. now constructor.
    + intros H. inversion H; subst. now split.
Qed.

Lemma normalizeChat_fixed ids first_id (l : list Chat) :
  Forall (fun c => id_in (c_manager_id c) ids = true) l ->
  map (normalizeChat ids first_id) l = l.
Proof.
  induction 1 as [|c l Hc Hl IH]; simpl; [reflexivity|].
  rewrite IH. unfold normalizeChat, needsRepair. now rewrite Hc.
Qed.

(** On a non-empty chat list whose owners are all valid the pass returns
    the world it was given: no state change, no write. *)
Lemma repairChats_fixed clk w :
  chats (state w) <> [] -> ownersValid w -> repairChats clk w = w.
Proof.
  unfold ownersValid, repairChats. intros Hne Hvalid.
  destruct (managers (state w)) as [|m0 rest]; [reflexivity|].
  destruct (chats (state w)) as [|c l]; [contradiction|].
  apply existsb_needsRepair_false in Hvalid. now rewrite Hvalid.
Qed.

Lemma normalizeChat_Repaired_all ids first_id (l : list Chat) :
  Forall2 (Repaired ids first_id) l (map (normalizeChat ids first_id) l).
Proof.
  induction l as [|c l IH]; simpl; constructor;
    [apply normalizeChat_Repaired | exact IH].
Qed.

(** C4.  With at least one manager, one repair pass leaves every chat
    owned by a current manager: valid owners are kept, a dangling owner
    becomes the legacy [account_id] when that is a current manager id and
    the first manager otherwise (an empty chat list is seeded under the
    first manager).  A second pass returns the world unchanged, so it
    writes nothing. *)
Theorem repairChats_converges (clk clk' : Clock) (w : World) :
  managers (state w) <> [] ->
  let w1 := repairChats clk w in
  managers (state w1) = managers (state w) /\
  ownersValid w1 /\
  (chats (state w) <> [] ->
     Forall2 (Repaired (map m_id (managers (state w))) (first_manager_id w))
             (chats (state w)) (chats (state w1))) /\
  (chats (state w) = [] ->
     chats (state w1) = createMockChats clk (first_manager_id w)) /\
  repairChats clk' w1 = w1 /\
  writes (repairChats clk' w1) = writes w1.
Proof.
  intros Hm w1.
  assert (Hmgr : managers (state w1) = managers (state w)).
  { unfold w1, repairChats.
    destruct (managers (state w)) as [|m0 rest] eqn:Em; [contradiction|].
    destruct (chats (state w)) as [|c l]; [exact Em|].
    destruct (existsb _ _); exact Em. }
  assert (Hchats :
    chats (state w1) =
    match chats (state w) with
    | [] => createMockChats clk (first_manager_id w)
    | prev =>
        map (normalizeChat (map m_id (managers (state w))) (first_manager_id w))
            prev
    end).
  { unfold w1, repairChats, first_manager_id.
    destruct (managers (state w)) as [|m0 rest] eqn:Em; [contradiction|].
    destruct (chats (state w)) as [|c l] eqn:Ec; [reflexivity|].
    destruct (existsb _ (c :: l)) eqn:Ex; [reflexivity|].
    rewrite Ec. symmetry. apply normalizeChat_fixed.
    now apply existsb_needsRepair_false. }
  assert (Hfirst :
    id_in (IdNum (first_manager_id w)) (map m_id (managers (state w))) = true).
  { unfold first_manager_id.
    destruct (managers (state w)) as [|m0 rest]; [contradiction|].
    apply id_in_head. }
  assert (Hvalid : ownersValid w1).
  { unfold ownersValid. rewrite Hmgr, Hchats.
    destruct (chats (state w)) as [|c l].
    - repeat constructor; exact Hfirst.
    - apply Forall_forall. intros x Hx. apply in_map_iff in Hx.
      destruct Hx as [y [<- _]]. now apply normalizeChat_valid. }
  assert (Hne : chats (state w1) <> []).
  { rewrite Hchats. destruct (chats (state w)); discriminate. }
  split; [exact Hmgr|]. split; [exact Hvalid|].
  split.
  { intros Hc. rewrite Hchats.
    destruct (chats (state w)) as [|c l] eqn:Ec; [contradiction|].
    apply normalizeChat_Repaired_all. }
  split.
  { intros Hc. rewrite Hchats. now rewrite Hc. }
  rewrite (repairChats_fixed clk' w1 Hne Hvalid). now split.
Qed.

Lemma repairChats_converges_witness :
  managers (state danglingWorld) <> [] /\
  chats (state (repairChats clock0 danglingWorld)) =
    [withManagerId danglingChat (IdNum 1)] /\
  let w1 := repairChats clock0 danglingWorld in
  managers (state w1) = managers (state danglingWorld) /\
  ownersValid w1 /\
  (chats (state danglingWorld) <> [] ->
     Forall2 (Repaired (map m_id (managers (state danglingWorld)))
                       (first_manager_id danglingWorld))
             (chats (state danglingWorld)) (chats (state w1))) /\
  (chats (state danglingWorld) = [] ->
     chats (state w1) = createMockChats clock0 (first_manager_id danglingWorld)) /\
  repairChats clock1 w1 = w1 /\
  writes (repairChats clock1 w1) = writes w1.
Proof.
  split; [discriminate|]. split; [reflexivity|].
  apply (repairChats_converges clock0 clock1 danglingWorld). discriminate.
Defined.

(** ** Schema migration *)

Lemma withManagerId_same c : withManagerId c (c_manager_id c) = c.
Proof. now destruct c. Qed.

(** A chat that has an owner field is left alone by the migration. *)
Lemma migrateChat_owned mid c :
  c_manager_id c <> IdNullish -> migrateChat mid c = c.
Proof.
  intros H. unfold migrateChat.
  destruct (c_manager_id c) eqn:E; [contradiction | |];
    simpl; rewrite <- E; apply withManagerId_same.
Qed.

Lemma migrateChat_owner mid c : c_manager_id (migrateChat mid c) <> IdNullish.
Proof.
  unfold migrateChat. simpl.
  destruct (c_manager_id c); simpl; try discriminate.
  destruct (c_account_id c); simpl; discriminate.
Qed.

Lemma migrateChat_idempotent mid mid' c :
  migrateChat mid' (migrateChat mid c) = migrateChat mid c.
Proof. apply migrateChat_owned, migrateChat_owner. Qed.

Lemma map_migrateChat_owned mid (l : list Chat) :
  Forall (fun c => c_manager_id c <> IdNullish) l ->
  map (migrateChat mid) l = l.
Proof.
  induction 1 as [|c l Hc Hl IH]; simpl; [reflexivity|].
  now rewrite IH, migrateChat_owned.
Qed.

Lemma migratedChats_owned clk w :
  Forall (fun c => c_manager_id c <> IdNullish) (migratedChats clk w).
Proof.
  unfold migratedChats.
  destruct (map _ (parse_or_empty (telegram_crm_chats_v2 (store w))))
    as [|c l] eqn:E.
  - repeat constructor; discriminate.
  - rewrite <- E. apply Forall_forall. intros x Hx.
    apply in_map_iff in Hx. destruct Hx as [y [<- _]].
    apply migrateChat_owner.
Qed.

Lemma migratedChats_nonempty clk w : migratedChats clk w <> [].
Proof.
  unfold migratedChats.
  destruct (map _ (parse_or_empty (telegram_crm_chats_v2 (store w))));
    discriminate.
Qed.

Lemma migratedManagers_nonempty clk w : migratedManagers clk w <> [].
Proof.
  unfold migratedManagers.
  destruct (parse_or_empty (telegram_crm_managers (store w))); discriminate.
Qed.

(** What the migration leaves in the state and in the store. *)
Lemma migrateToManagers_result clk w :
  let w1 := migrateToManagers clk w in
  managers (state w1) = migratedManagers clk w /\
  chats (state w1) = migratedChats clk w /\
  parse_or_empty (telegram_crm_managers (store w1)) = migratedManagers clk w /\
  telegram_crm_chats_v2 (store w1) = Some (Parsed (migratedChats clk w)) /\
  telegram_crm_schema_version (store w1) = Some "3".
Proof.
  unfold migrateToManagers, migratedManagers, migratedChats.
  destruct (parse_or_empty (telegram_crm_managers (store w))) as [|m0 rest] eqn:Em;
    destruct (map _ (parse_or_empty (telegram_crm_chats_v2 (store w))))
      as [|c l] eqn:Ec;
    simpl; rewrite ?Em; repeat split; reflexivity.
Qed.

Lemma migrateToManagers_state clk w :
  state (migrateToManagers clk w) =
  mkAppState (migratedChats clk w) (activeChat (state w))
    (migratedManagers clk w) (activeManager (state w)) (accounts (state w))
    (chatSummaries (state w)) (transferRecords (state w))
    (chatMembers (state w)) (keywords (state w)).
Proof.
  unfold migrateToManagers, migratedManagers, migratedChats.
  destruct (parse_or_empty (telegram_crm_managers (store w))) as [|m0 rest];
    destruct (map _ (parse_or_empty (telegram_crm_chats_v2 (store w))))
      as [|c l];
    reflexivity.
Qed.

Lemma migrateToManagers_store clk w :
  store (migrateToManagers clk w) =
  mkLocalStorage (telegram_crm_logged_in (store w))
    (telegram_crm_accounts (store w))
    (Some (Parsed (migratedChats clk w)))
    (match parse_or_empty (telegram_crm_managers (store w)) with
     | [] => Some (Parsed [firstManager clk])
     | _ => telegram_crm_managers (store w)
     end)
    (telegram_crm_transfers (store w)) (telegram_crm_keywords (store w))
    (Some "3") (telegram_crm_chat_members (store w)).
Proof.
  unfold migrateToManagers, migratedManagers, migratedChats.
  destruct (parse_or_empty (telegram_crm_managers (store w))) as [|m0 rest];
    destruct (map _ (parse_or_empty (telegram_crm_chats_v2 (store w))))
      as [|c l];
    reflexivity.
Qed.

(** Migrating a migrated store finds its managers and chats in place. *)
Lemma migrated_again clk clk' w :
  let w1 := migrateToManagers clk w in
  migratedManagers clk' w1 = migratedManagers clk w /\
  migratedChats clk' w1 = migratedChats clk w.
Proof.
  intros w1.
  destruct (migrateToManagers_result clk w) as [_ [_ [Hm [Hc _]]]].
  fold w1 in Hm, Hc.
  split.
  - unfold migratedManagers at 1. rewrite Hm.
    pose proof (migratedManagers_nonempty clk w) as Hne.
    now destruct (migratedManagers clk w).
  - unfold migratedChats at 1. rewrite Hc. simpl parse_or_empty.
    rewrite (map_migrateChat_owned _ _ (migratedChats_owned clk w)).
    pose proof (migratedChats_nonempty clk w) as Hne.
    now destruct (migratedChats clk w).
Qed.

(** On the stores of the model the migration is idempotent: run on its
    own output, at any later time, it leaves the stored managers, the
    stored chats with their owners and the schema marker as they are, and
    the managers and chats of the state as well. *)
Lemma migrateToManagers_idempotent (clk clk' : Clock) (w : World) :
  store (migrateToManagers clk' (migrateToManagers clk w)) =
    store (migrateToManagers clk w) /\
  state (migrateToManagers clk' (migrateToManagers clk w)) =
    state (migrateToManagers clk w).
Proof.
  destruct (migrated_again clk clk' w) as [Hm Hc]. cbv zeta in Hm, Hc.
  destruct (migrateToManagers_result clk w) as [_ [_ [Hpm _]]].
  cbv zeta in Hpm.
  split.
  - rewrite (migrateToManagers_store clk' (migrateToManagers clk w)).
    rewrite Hc, Hpm.
    pose proof (migratedManagers_nonempty clk w) as Hne.
    destruct (migratedManagers clk w) as [|m0 rest]; [contradiction|].
    rewrite (migrateToManagers_store clk w). reflexivity.
  - rewrite (migrateToManagers_state clk' (migrateToManagers clk w)).
    rewrite Hc, Hm.
    rewrite (migrateToManagers_state clk w). reflexivity.
Qed.

(** On the envelope of a store of the model the two readings of the
    migration agree: it returns, with the envelope of the migrated store. *)
Lemma migrateEnvelope_store clk w :
  migrateEnvelope clk (envelopeOf (store w)) =
  Migrated (envelopeOf (store (migrateToManagers clk w))).
Proof.
  rewrite migrateToManagers_store. unfold migrateEnvelope, envelopeOf, migratedChats.
  cbn [env_managers env_chats env_schema_version telegram_crm_managers
       telegram_crm_chats_v2 telegram_crm_schema_version].
  destruct (telegram_crm_managers (store w)) as [[|[|m0 rest]]|];
    destruct (telegram_crm_chats_v2 (store w)) as [[|[|c cs]]|];
    reflexivity.
Qed.

(** Where the migration returns it is idempotent: the envelope it leaves
    has the marker 3 and a second run, at any time, returns the same
    envelope. *)
Lemma migrateEnvelope_idempotent clk clk' e e1 :
  migrateEnvelope clk e = Migrated e1 ->
  env_schema_version e1 = Some "3" /\
  migrateEnvelope clk' e1 = Migrated e1.
Proof.
  intros H.
  assert (He : e = envelopeOf (storeOf e)).
  { unfold migrateEnvelope in H.
    destruct e as [[[| | |ms]|] [[| | |cs]|] v]; simpl in H;
      try discriminate; reflexivity. }
  set (w := freshWorld (storeOf e)).
  rewrite He in H. change (storeOf e) with (store w) in H.
  rewrite migrateEnvelope_store in H.
  assert (H1 : e1 = envelopeOf (store (migrateToManagers clk w)))
    by congruence.
  rewrite H1. clear H H1.
  split.
  - unfold envelopeOf. cbn [env_schema_version].
    now destruct (migrateToManagers_result clk w) as [_ [_ [_ [_ Hv]]]].
  - rewrite migrateEnvelope_store.
    now rewrite (proj1 (migrateToManagers_idempotent clk clk' w)).
Qed.



(** ** The initial load *)

(** The guarded readers: a payload that does not parse leaves the
    collection as it was, and the effect goes on. *)
Lemma load_guarded_corrupt {A : Type} (set : A -> World -> World) w :
  load_guarded (Some Unparseable) set w = w.
Proof. reflexivity. Qed.

(** With a transfers payload that parses (or none) the effect returns,
    whatever the other payloads hold. *)
Lemma initialLoad_returns Number_lt_3 clk w :
  telegram_crm_transfers (store w) <> Some Unparseable ->
  exists w', initialLoad Number_lt_3 clk w = Returned w'.
Proof.
  intros H. unfold initialLoad.
  destruct (negb (str_truthy (telegram_crm_logged_in (store w)))); [eauto|].
  assert (Hs : telegram_crm_transfers
                 (store (load_guarded (telegram_crm_accounts (store w))
                                      setAccounts w))
               = telegram_crm_transfers (store w)).
  { unfold load_guarded.
    destruct (telegram_crm_accounts (store w)) as [[|v]|]; reflexivity. }
  rewrite Hs.
  destruct (telegram_crm_transfers (store w)) as [[|v]|];
    [contradiction | eauto | eauto].
Qed.

(** C6, the failing path.  In a signed-in session, a transfers payload
    that does not parse makes the initial load throw: the effect stops
    after the accounts, so the keywords, the managers and the chats are
    not loaded, the migration does not run and nothing is written. *)
Theorem initialLoad_corrupt_transfers_throws
    (Number_lt_3 : string -> bool) (clk : Clock) (w : World) :
  str_truthy (telegram_crm_logged_in (store w)) = true ->
  telegram_crm_transfers (store w) = Some Unparseable ->
  exists w',
    initialLoad Number_lt_3 clk w = Threw w' /\
    transferRecords (state w') = transferRecords (state w) /\
    keywords (state w') = keywords (state w) /\
    managers (state w') = managers (state w) /\
    chats (state w') = chats (state w) /\
    store w' = store w /\
    writes w' = writes w.
Proof.
  intros Hin Ht. unfold initialLoad. rewrite Hin. simpl negb. cbv iota.
  exists (load_guarded (telegram_crm_accounts (store w)) setAccounts w).
  unfold load_guarded.
  destruct (telegram_crm_accounts (store w)) as [[|v]|]; simpl;
    rewrite Ht; repeat split; reflexivity.
Qed.

Lemma initialLoad_corrupt_transfers_throws_witness :
  str_truthy (telegram_crm_logged_in (store corruptTransfersWorld)) = true /\
  telegram_crm_transfers (store corruptTransfersWorld) = Some Unparseable /\
  exists w',
    initialLoad marker_lt_3 clock0 corruptTransfersWorld = Threw w' /\
    transferRecords (state w') = transferRecords (state corruptTransfersWorld) /\
    keywords (state w') = keywords (state corruptTransfersWorld) /\
    managers (state w') = managers (state corruptTransfersWorld) /\
    chats (state w') = chats (state corruptTransfersWorld) /\
    store w' = store corruptTransfersWorld /\
    writes w' = writes corruptTransfersWorld.
Proof.
  split; [reflexivity|]. split; [reflexivity|].
  apply (initialLoad_corrupt_transfers_throws marker_lt_3 clock0
           corruptTransfersWorld); reflexivity.
Defined.

(** ** The transfer form *)

Lemma selection_eqb_refl a : selection_eqb a a = true.
Proof. destruct a; simpl; [apply Z.eqb_refl | reflexivity]. Qed.

(** The form never issues a call whose parties coincide. *)
Lemma handleSubmit_decide_distinct ui ui' call :
  handleSubmit_decide ui = (ui', Some call) ->
  match call with
  | CallAdd data => td_supplier_account_id data <> td_client_account_id data
  | CallUpdate _ updates =>
      exists s c, tp_supplier_account_id updates = Some s /\
                  tp_client_account_id updates = Some c /\ s <> c
  end.
Proof.
  unfold handleSubmit_decide.
  destruct (negb (num_truthy (supplier_account_id (form ui)))
            || negb (num_truthy (client_account_id (form ui))));
    [discriminate|].
  destruct (supplier_account_id (form ui)) as [s|],
           (client_account_id (form ui)) as [c|];
    simpl; try discriminate.
  destruct (s =? c) eqn:E; [discriminate|]. apply Z.eqb_neq in E.
  destruct (editing ui) as [e|]; intros H; injection H as _ <-.
  - exists s, c. now repeat split.
  - exact E.
Qed.

(** C8.  A submission whose supplier and client selections coincide makes
    no call on the store and leaves the world as it is; and whatever is
    submitted, if the parties of every stored transfer differ before the
    submission they differ after it. *)
Theorem handleSubmit_rejects_same_contact
    (clk : Clock) (ui : TransfersUI) (w : World) :
  (supplier_account_id (form ui) = client_account_id (form ui) ->
     snd (handleSubmit_decide ui) = None /\
     snd (handleSubmit clk ui w) = w) /\
  (Forall distinctParties (transferRecords (state w)) ->
     Forall distinctParties
       (transferRecords (state (snd (handleSubmit clk ui w))))).
Proof.
  split.
  - intros Heq.
    assert (Hd : snd (handleSubmit_decide ui) = None).
    { unfold handleSubmit_decide. rewrite Heq.
      destruct (negb (num_truthy (client_account_id (form ui)))
                || negb (num_truthy (client_account_id (form ui))));
        [reflexivity|].
      now rewrite selection_eqb_refl. }
    split; [exact Hd|].
    unfold handleSubmit.
    destruct (handleSubmit_decide ui) as [ui' call]. simpl in Hd.
    now subst call.
  - intros Hall. unfold handleSubmit.
    destruct (handleSubmit_decide ui) as [ui' [call|]] eqn:E;
      [|exact Hall].
    pose proof (handleSubmit_decide_distinct _ _ _ E) as Hcall.
    destruct call as [data | id updates]; simpl.
    + constructor; [exact Hcall | exact Hall].
    + destruct Hcall as [s [c [Hs [Hc Hne]]]].
      apply Forall_forall. intros r Hr. apply in_map_iff in Hr.
      destruct Hr as [r0 [<- Hin]].
      destruct (tr_id r0 =? id).
      * unfold distinctParties, spreadTransfer. simpl.
        now rewrite Hs, Hc.
      * rewrite Forall_forall in Hall. now apply Hall.
Qed.

Lemma handleSubmit_rejects_same_contact_witness :
  supplier_account_id (form sameContactForm) =
    client_account_id (form sameContactForm) /\
  Forall distinctParties (transferRecords (state oneTransferWorld)) /\
  snd (handleSubmit_decide sameContactForm) = None /\
  snd (handleSubmit clock0 sameContactForm oneTransferWorld) = oneTransferWorld /\
  Forall distinctParties
    (transferRecords (state (snd (handleSubmit clock0 soundForm oneTransferWorld)))).
Proof.
  assert (Hold : Forall distinctParties (transferRecords (state oneTransferWorld))).
  { repeat constructor. unfold distinctParties. simpl. lia. }
  split; [reflexivity|]. split; [exact Hold|].
  destruct (handleSubmit_rejects_same_contact clock0 sameContactForm
              oneTransferWorld) as [Hsame _].
  destruct (handleSubmit_rejects_same_contact clock0 soundForm
              oneTransferWorld) as [_ Hsound].
  destruct (Hsame eq_refl) as [H1 H2].
  split; [exact H1|]. split; [exact H2|]. exact (Hsound Hold).
Defined.

(** ** Deleting a manager *)

Lemma id_is_false x n : id_is x n = false <-> x <> IdNum n.
Proof.
  destruct x as [|m|s]; simpl; split; intros H; try discriminate;
    try reflexivity.
  - apply Z.eqb_neq in H. congruence.
  - apply Z.eqb_neq. congruence.
Qed.

Lemma managers_filter_le (id : Z) (l : list Manager) :
  (List.length (filter (fun m => negb (Z.eqb (m_id m) id)) l) <= List.length l)%nat.
Proof.
  induction l as [|m l IH]; simpl; [lia|].
  destruct (negb (m_id m =? id)); simpl; lia.
Qed.

(** Deleting a manager that is present makes the list shorter. *)
Lemma managers_filter_shrinks (id : Z) (l : list Manager) :
  In id (map m_id l) ->
  (List.length (filter (fun m => negb (Z.eqb (m_id m) id)) l) < List.length l)%nat.
Proof.
  induction l as [|m l IH]; simpl; [tauto|].
  intros [Hm | Hin].
  - rewrite Hm, Z.eqb_refl. simpl. pose proof (managers_filter_le id l). lia.
  - specialize (IH Hin). destruct (negb (m_id m =? id)); simpl; lia.
Qed.

(** C9.  [deleteManager id] removes the manager, deletes the chats owned
    by [id] and keeps every other chat as it is and in order; the accounts
    are untouched, in the state and in the store, so an account that
    refers to [id] still does. *)
Theorem deleteManager_cascade (id : Z) (w : World) :
  In id (map m_id (managers (state w))) ->
  let w' := deleteManager id w in
  ~ In id (map m_id (managers (state w'))) /\
  (List.length (managers (state w')) < List.length (managers (state w)))%nat /\
  managers (state w') =
    filter (fun m => negb (m_id m =? id)) (managers (state w)) /\
  chats (state w') =
    filter (fun c => negb (id_is (c_manager_id c) id)) (chats (state w)) /\
  (forall c, In c (chats (state w')) <->
             In c (chats (state w)) /\ c_manager_id c <> IdNum id) /\
  accounts (state w') = accounts (state w) /\
  telegram_crm_accounts (store w') = telegram_crm_accounts (store w) /\
  telegram_crm_managers (store w') = Some (Parsed (managers (state w'))) /\
  telegram_crm_chats_v2 (store w') = Some (Parsed (chats (state w'))).
Proof.
  intros Hpresent w'.
  assert (Hshape :
    managers (state w') =
      filter (fun m => negb (m_id m =? id)) (managers (state w)) /\
    chats (state w') =
      filter (fun c => negb (id_is (c_manager_id c) id)) (chats (state w)) /\
    accounts (state w') = accounts (state w) /\
    telegram_crm_accounts (store w') = telegram_crm_accounts (store w) /\
    telegram_crm_managers (store w') =
      Some (Parsed (filter (fun m => negb (m_id m =? id)) (managers (state w)))) /\
    telegram_crm_chats_v2 (store w') =
      Some (Parsed (filter (fun c => negb (id_is (c_manager_id c) id))
                           (chats (state w))))).
  { unfold w', deleteManager.
    destruct (activeManager (state w)) as [am|];
      [destruct (m_id am =? id)|]; repeat split; reflexivity. }
  destruct Hshape as [Hm [Hc [Ha [Hsa [Hsm Hsc]]]]].
  split.
  { rewrite Hm. intros Hin. apply in_map_iff in Hin.
    destruct Hin as [m [Hid Hin]]. apply filter_In in Hin.
    destruct Hin as [_ Hne]. apply negb_true_iff, Z.eqb_neq in Hne.
    contradiction. }
  split; [rewrite Hm; now apply managers_filter_shrinks|].
  split; [exact Hm|]. split; [exact Hc|].
  split.
  { intros c. rewrite Hc, filter_In, negb_true_iff, id_is_false. tauto. }
  split; [exact Ha|]. split; [exact Hsa|].
  split; [now rewrite Hm | now rewrite Hc].
Qed.

Lemma deleteManager_cascade_witness :
  In 1 (map m_id (managers (state (repairChats clock0 danglingWorld)))) /\
  let w' := deleteManager 1 (repairChats clock0 danglingWorld) in
  ~ In 1 (map m_id (managers (state w'))) /\
  chats (state w') = [] /\
  accounts (state w') = accounts (state danglingWorld).
Proof.
  split; [left; reflexivity|].
  destruct (deleteManager_cascade 1 (repairChats clock0 danglingWorld))
    as [H1 [_ [_ [H3 [_ [H5 _]]]]]].
  - left; reflexivity.
  - split; [exact H1|]. split; [exact H3 | exact H5].
Defined.

(** ** Chat members *)

Lemma membersAdditions_pairs clk chatId b fresh :
  forall idx,
    memberPairs (membersAdditions clk chatId b idx fresh) =
    map (fun id => (chatId, id)) fresh.
Proof.
  unfold memberPairs.
  induction fresh as [|id rest IH]; intros idx; simpl; [reflexivity|].
  now rewrite IH.
Qed.

(** The updater appends, for each id of the batch that no member of the
    chat holds, one record; what was there stays in front. *)
Lemma addMembersBulk_updater_pairs clk chatId userIds prev :
  memberPairs (addMembersBulk_updater clk chatId userIds prev) =
  memberPairs prev ++
  map (fun id => (chatId, id))
      (filter (fun id =>
                 negb (existsb (Z.eqb id)
                         (map cm_user_id
                            (filter (fun m => cm_chat_id m =? chatId) prev))))
              userIds).
Proof.
  unfold addMembersBulk_updater.
  unfold memberPairs at 1. rewrite map_app.
  fold (memberPairs prev). f_equal. apply membersAdditions_pairs.
Qed.

Lemma addMembersBulk_updater_prefix clk chatId userIds prev :
  exists additions,
    addMembersBulk_updater clk chatId userIds prev = prev ++ additions.
Proof. unfold addMembersBulk_updater. eauto. Qed.

(** An empty batch returns before the updater and writes nothing. *)
Lemma addMembersBulk_empty clk chatId w : addMembersBulk clk chatId [] w = w.
Proof. reflexivity. Qed.

Lemma member_pair_held chatId id (prev : list ChatMember) :
  In (chatId, id) (memberPairs prev) ->
  existsb (Z.eqb id)
    (map cm_user_id (filter (fun m => cm_chat_id m =? chatId) prev)) = true.
Proof.
  unfold memberPairs. intros H. apply in_map_iff in H.
  destruct H as [m [Hm Hin]]. injection Hm as Hc Hu.
  apply existsb_exists. exists id. split; [|apply Z.eqb_refl].
  apply in_map_iff. exists m. split; [exact Hu|].
  apply filter_In. split; [exact Hin | now apply Z.eqb_eq].
Qed.

(** A batch of ids that the chat already holds adds nothing. *)
Lemma addMembersBulk_updater_all_present clk chatId userIds prev :
  Forall (fun id => In (chatId, id) (memberPairs prev)) userIds ->
  addMembersBulk_updater clk chatId userIds prev = prev.
Proof.
  intros Hall. unfold addMembersBulk_updater.
  assert (Hnone :
    filter (fun id =>
              negb (existsb (Z.eqb id)
                      (map cm_user_id
                         (filter (fun m => cm_chat_id m =? chatId) prev))))
           userIds = []).
  { induction Hall as [|id ids Hid Hids IH]; simpl; [reflexivity|].
    now rewrite (member_pair_held _ _ _ Hid). }
  rewrite Hnone. simpl. apply app_nil_r.
Qed.

Lemma NoDup_map_pair (chatId : Z) (l : list Z) :
  NoDup l -> NoDup (map (fun id => (chatId, id)) l).
Proof.
  induction 1 as [|x l Hx Hl IH]; simpl; constructor; [|exact IH].
  intros Hin. apply in_map_iff in Hin. destruct Hin as [y [Hy Hin]].
  injection Hy as ->. contradiction.
Qed.

(** A batch without repeated ids keeps the pairs distinct. *)
Lemma addMembersBulk_updater_distinct clk chatId userIds prev :
  NoDup userIds ->
  NoDup (memberPairs prev) ->
  NoDup (memberPairs (addMembersBulk_updater clk chatId userIds prev)).
Proof.
  intros Hids Hprev. rewrite addMembersBulk_updater_pairs.
  apply NoDup_app; [exact Hprev | |].
  - now apply NoDup_map_pair, NoDup_filter.
  - intros [c u] Hin Hnew. apply in_map_iff in Hnew.
    destruct Hnew as [id [Hpair Hf]]. injection Hpair as <- <-.
    apply filter_In in Hf. destruct Hf as [_ Hf].
    apply negb_true_iff in Hf.
    rewrite (member_pair_held _ _ _ Hin) in Hf. discriminate.
Qed.

(** C10, the failing input.  An id that occurs twice in one batch is
    checked twice against the members held before the call, so it is
    appended twice: the collection then holds the pair (7, 5) twice. *)
Theorem addMembersBulk_repeated_id_in_batch :
  let w' := addMembersBulk clock0 7 [5; 5] emptyWorld in
  memberPairs (chatMembers (state w')) = [(7, 5); (7, 5)] /\
  map cm_role (chatMembers (state w')) = [Some creator; Some member] /\
  ~ NoDup (memberPairs (chatMembers (state w'))).
Proof.
  split; [reflexivity|]. split; [reflexivity|].
  intros H. vm_compute in H. inversion H as [|? ? Hn _]; subst.
  apply Hn. now left.
Qed.

(** * Further properties of the provider *)

(** ** Owners of legacy accounts *)

Lemma existsb_lacksManager_false (l : list Account) :
  existsb lacksManager l = false ->
  Forall (fun a => a_manager_id a <> None) l.
Proof.
  induction l as [|a l IH]; simpl; intros H; constructor.
  - apply orb_false_iff in H. destruct H as [H _].
    unfold lacksManager in H. destruct (a_manager_id a); [discriminate | discriminate].
  - apply IH. apply orb_false_iff in H. tauto.
Qed.

Lemma num_or_some a d : exists v, num_or a (Some d) = Some v.
Proof.
  unfold num_or. destruct (num_truthy a) eqn:E.
  - destruct a as [n|]; [eauto | discriminate].
  - eauto.
Qed.

(** X1.  With at least one manager, the effect for legacy accounts leaves
    every account with an owner: an account that had one is untouched, the
    others only get their [manager_id] set.  A second run finds nothing to
    do and returns the world as it is, without a write. *)
Theorem assignLegacyAccounts_assigns (w : World) :
  managers (state w) <> [] ->
  let w1 := assignLegacyAccounts w in
  Forall (fun a => a_manager_id a <> None) (accounts (state w1)) /\
  Forall2 ownerAssigned (accounts (state w)) (accounts (state w1)) /\
  assignLegacyAccounts w1 = w1.
Proof.
  intros Hm w1.
  assert (Hacc :
    accounts (state w1) =
    map (fun a =>
           if lacksManager a
           then withAccountManager a
                  (num_or (activeManager_id (state w))
                          (Some (first_manager_id w)))
           else a)
        (accounts (state w))).
  { unfold w1, assignLegacyAccounts, first_manager_id.
    destruct (managers (state w)) as [|m0 rest]; [contradiction|].
    destruct (accounts (state w)) as [|a0 l] eqn:Ea; [now rewrite Ea|].
    destruct (existsb lacksManager (a0 :: l)) eqn:Ex; [reflexivity|].
    rewrite Ea. apply existsb_lacksManager_false in Ex.
    symmetry. clear Ea. induction Ex as [|a l' Ha Hl IH]; simpl; [reflexivity|].
    rewrite IH. unfold lacksManager.
    destruct (a_manager_id a); [reflexivity | contradiction]. }
  assert (Howned : Forall (fun a => a_manager_id a <> None) (accounts (state w1))).
  { rewrite Hacc. apply Forall_forall. intros x Hx.
    apply in_map_iff in Hx. destruct Hx as [a [<- _]].
    unfold lacksManager. destruct (a_manager_id a) eqn:E.
    - rewrite E. discriminate.
    - destruct (num_or_some (activeManager_id (state w)) (first_manager_id w))
        as [v ->]. simpl. discriminate. }
  split; [exact Howned|]. split.
  - rewrite Hacc. clear Hacc Howned.
    induction (accounts (state w)) as [|a l IH]; simpl; [constructor|].
    constructor; [|exact IH].
    unfold ownerAssigned, lacksManager. destruct (a_manager_id a) eqn:E.
    + left. split; [discriminate | reflexivity].
    + right. split; [reflexivity|].
      destruct (num_or_some (activeManager_id (state w)) (first_manager_id w))
        as [v ->]. eauto.
  - unfold assignLegacyAccounts at 1.
    destruct (managers (state w1)) as [|m0 rest]; [reflexivity|].
    destruct (accounts (state w1)) as [|a0 l] eqn:Ea; [reflexivity|].
    assert (Hno : existsb lacksManager (a0 :: l) = false).
    { apply not_true_is_false. intros Ht. apply existsb_exists in Ht.
      destruct Ht as [x [Hin Hx]]. rewrite Forall_forall in Howned.
      specialize (Howned x Hin). unfold lacksManager in Hx.
      destruct (a_manager_id x); [discriminate | contradiction]. }
    now rewrite Hno.
Qed.

Lemma assignLegacyAccounts_assigns_witness :
  managers (state legacyWorld) <> [] /\
  map a_manager_id (accounts (state (assignLegacyAccounts legacyWorld))) =
    [Some 1; Some 1] /\
  let w1 := assignLegacyAccounts legacyWorld in
  Forall (fun a => a_manager_id a <> None) (accounts (state w1)) /\
  Forall2 ownerAssigned (accounts (state legacyWorld)) (accounts (state w1)) /\
  assignLegacyAccounts w1 = w1.
Proof.
  split; [discriminate|]. split; [reflexivity|].
  apply (assignLegacyAccounts_assigns legacyWorld). discriminate.
Defined.

(** ** The active manager and the active chat *)

(** X2.  Whatever was active before, after the context's
    [setActiveManager] the active chat (if one is left) belongs to the
    manager that was made active; making no manager active leaves no active
    chat.  The collections and the store are not touched. *)
Theorem value_setActiveManager_owned (m : option Manager) (w : World) :
  let w' := value_setActiveManager m w in
  activeManager (state w') = m /\
  activeChatOwned w' /\
  (m = None -> activeChat (state w') = None) /\
  (forall ac, activeChat (state w') = Some ac -> activeChat (state w) = Some ac) /\
  chats (state w') = chats (state w) /\
  managers (state w') = managers (state w) /\
  accounts (state w') = accounts (state w) /\
  store w' = store w /\ writes w' = writes w.
Proof.
  unfold value_setActiveManager, activeChatOwned.
  destruct m as [mgr|].
  - destruct (activeChat (state w)) as [ac|] eqn:Eac.
    + destruct (id_is (c_manager_id ac) (m_id mgr)) eqn:Eid; simpl.
      * rewrite Eac.
        split; [reflexivity|]. split.
        { intros ac' Hac'. injection Hac' as <-.
          exists mgr. split; [reflexivity|].
          destruct (c_manager_id ac) as [|n|s]; simpl in Eid; try discriminate.
          apply Z.eqb_eq in Eid. now subst. }
        split; [discriminate|]. split; [auto|].
        repeat split; reflexivity.
      * split; [reflexivity|]. split; [intros; discriminate|].
        split; [reflexivity|]. split; [intros; discriminate|].
        repeat split; reflexivity.
    + simpl. rewrite Eac.
      split; [reflexivity|]. split; [intros; discriminate|].
      split; [reflexivity|]. split; [intros; discriminate|].
      repeat split; reflexivity.
  - simpl.
    split; [reflexivity|]. split; [intros; discriminate|].
    split; [reflexivity|]. split; [intros; discriminate|].
    repeat split; reflexivity.
Qed.

(** X3.  If the active chat belongs to the active manager, deleting a
    manager keeps it so, and afterwards neither the active manager nor the
    owner of the active chat is the deleted one. *)
Theorem deleteManager_keeps_active_owned (id : Z) (w : World) :
  activeChatOwned w ->
  let w' := deleteManager id w in
  activeChatOwned w' /\
  (forall mgr, activeManager (state w') = Some mgr -> m_id mgr <> id) /\
  (forall ac, activeChat (state w') = Some ac -> c_manager_id ac <> IdNum id).
Proof.
  intros Hown w'.
  assert (Hcases :
    (exists am, activeManager (state w) = Some am /\ m_id am = id /\
                activeManager (state w') = None /\ activeChat (state w') = None) \/
    ((forall am, activeManager (state w) = Some am -> m_id am <> id) /\
     activeManager (state w') = activeManager (state w) /\
     activeChat (state w') = activeChat (state w))).
  { unfold w', deleteManager.
    destruct (activeManager (state w)) as [am|] eqn:Eam.
    - destruct (m_id am =? id) eqn:Eid.
      + left. exists am. apply Z.eqb_eq in Eid. repeat split; auto.
      + right. apply Z.eqb_neq in Eid. repeat split; auto.
        intros am' H. injection H as <-. exact Eid.
    - right. repeat split; auto. intros am H. discriminate. }
  destruct Hcases as [[am [Ham [Hid [Hm' Hc']]]] | [Hne [Hm' Hc']]].
  - unfold activeChatOwned. rewrite Hm', Hc'.
    repeat split; intros; discriminate.
  - unfold activeChatOwned. rewrite Hm', Hc'. split; [exact Hown|].
    split; [exact Hne|].
    intros ac Hac. destruct (Hown ac Hac) as [mgr [Hmgr Howner]].
    rewrite Howner. intros Heq. injection Heq as Heq.
    now apply (Hne mgr Hmgr).
Qed.

Lemma deleteManager_keeps_active_owned_witness :
  activeChatOwned activeWorld /\
  activeManager (state (deleteManager 1 activeWorld)) = None /\
  let w' := deleteManager 1 activeWorld in
  activeChatOwned w' /\
  (forall mgr, activeManager (state w') = Some mgr -> m_id mgr <> 1) /\
  (forall ac, activeChat (state w') = Some ac -> c_manager_id ac <> IdNum 1).
Proof.
  assert (H : activeChatOwned activeWorld).
  { intros ac Hac. injection Hac as <-.
    exists (mkManager 1 "Менеджер 1" None (Some manager)
                      "2023-11-14T22:13:20.000Z").
    split; reflexivity. }
  split; [exact H|]. split; [reflexivity|].
  exact (deleteManager_keeps_active_owned 1 activeWorld H).
Defined.

(** ** Owners stay valid without the repair pass *)

Lemma id_in_filter_other id (x : JsId) (l : list Manager) :
  id_in x (map m_id l) = true ->
  x <> IdNum id ->
  id_in x (map m_id (filter (fun m => negb (m_id m =? id)) l)) = true.
Proof.
  destruct x as [|n|s]; simpl; try discriminate.
  intros Hin Hne. apply existsb_exists in Hin. destruct Hin as [k [Hk Hnk]].
  apply Z.eqb_eq in Hnk. subst k.
  apply in_map_iff in Hk. destruct Hk as [m [Hm Hin]].
  apply existsb_exists. exists n. split; [|apply Z.eqb_refl].
  apply in_map_iff. exists m. split; [exact Hm|].
  apply filter_In. split; [exact Hin|].
  apply negb_true_iff, Z.eqb_neq. intros Heq. apply Hne. congruence.
Qed.

(** X4.  Deleting a manager keeps the owners valid: the chats that are
    left still belong to managers that are left.  While a chat is left the
    repair pass therefore has nothing to do after a deletion and writes
    nothing. *)
Theorem deleteManager_keeps_owners_valid (clk : Clock) (id : Z) (w : World) :
  ownersValid w ->
  let w' := deleteManager id w in
  ownersValid w' /\
  (chats (state w') <> [] -> repairChats clk w' = w').
Proof.
  intros Hvalid w'.
  assert (Hm : managers (state w') =
               filter (fun m => negb (m_id m =? id)) (managers (state w))).
  { unfold w', deleteManager.
    destruct (activeManager (state w)) as [am|];
      [destruct (m_id am =? id)|]; reflexivity. }
  assert (Hc : chats (state w') =
               filter (fun c => negb (id_is (c_manager_id c) id)) (chats (state w))).
  { unfold w', deleteManager.
    destruct (activeManager (state w)) as [am|];
      [destruct (m_id am =? id)|]; reflexivity. }
  assert (Hv : ownersValid w').
  { unfold ownersValid in *. rewrite Hm, Hc.
    apply Forall_forall. intros c Hin. apply filter_In in Hin.
    destruct Hin as [Hin Hkeep]. rewrite Forall_forall in Hvalid.
    apply id_in_filter_other; [now apply Hvalid|].
    apply negb_true_iff in Hkeep. now apply id_is_false. }
  split; [exact Hv|].
  intros Hne. now apply repairChats_fixed.
Qed.

Lemma deleteManager_keeps_owners_valid_witness :
  ownersValid activeWorld /\
  chats (state (deleteManager 1 activeWorld)) = [chatOf 8 2] /\
  let w' := deleteManager 1 activeWorld in
  ownersValid w' /\
  (chats (state w') <> [] -> repairChats clock0 w' = w').
Proof.
  assert (H : ownersValid activeWorld) by (repeat constructor).
  split; [exact H|]. split; [reflexivity|].
  exact (deleteManager_keeps_owners_valid clock0 1 activeWorld H).
Defined.

Lemma id_in_app x (l1 l2 : list Z) :
  id_in x l1 = true -> id_in x (l1 ++ l2) = true.
Proof.
  destruct x; simpl; try discriminate.
  intros H. rewrite existsb_app, H. reflexivity.
Qed.

(** X5.  Adding a manager, editing a manager and adding a chat under an
    existing manager keep the owners valid. *)
Theorem owners_valid_preserved
    (clk : Clock) (name : string) (tg : option Z) (id : Z)
    (updates : ManagerPatch) (managerId : Z) (chat : Chat) (w : World) :
  ownersValid w ->
  ownersValid (snd (addManager clk name tg w)) /\
  ownersValid (updateManager id updates w) /\
  map m_id (managers (state (updateManager id updates w))) =
    map m_id (managers (state w)) /\
  (In managerId (map m_id (managers (state w))) ->
   ownersValid (snd (addChat clk managerId chat w))).
Proof.
  intros Hvalid. unfold ownersValid in *.
  assert (Hids : map m_id (managers (state (updateManager id updates w))) =
                 map m_id (managers (state w))).
  { unfold updateManager. simpl. rewrite map_map. apply map_ext.
    intros m. destruct (m_id m =? id); reflexivity. }
  split.
  { simpl. rewrite map_app. eapply Forall_impl; [|exact Hvalid].
    intros c Hc. now apply id_in_app. }
  split.
  { rewrite Hids. exact Hvalid. }
  split; [exact Hids|].
  intros Hin. simpl. apply Forall_app. split; [exact Hvalid|].
  constructor; [|constructor]. simpl.
  apply existsb_exists. exists managerId. split; [exact Hin | apply Z.eqb_refl].
Qed.

Lemma owners_valid_preserved_witness :
  ownersValid activeWorld /\
  In 2 (map m_id (managers (state activeWorld))) /\
  ownersValid (snd (addManager clock0 "Менеджер 3" None activeWorld)) /\
  ownersValid (updateManager 1 (mkManagerPatch (Some "Anna") None None None)
                             activeWorld) /\
  ownersValid (snd (addChat clock0 2 annChat activeWorld)).
Proof.
  assert (H : ownersValid activeWorld) by (repeat constructor).
  destruct (owners_valid_preserved clock0 "Менеджер 3" None 1
              (mkManagerPatch (Some "Anna") None None None) 2 annChat
              activeWorld H) as [H1 [H2 [_ H4]]].
  assert (Hin : In 2 (map m_id (managers (state activeWorld))))
    by (right; left; reflexivity).
  split; [exact H|]. split; [exact Hin|].
  split; [exact H1|]. split; [exact H2 | exact (H4 Hin)].
Defined.

(** X6.  A chat added for a manager is the last chat listed for that
    manager, with the manager as owner and the time of the call as id; the
    lists of the other managers are as before. *)
Theorem addChat_listed (clk : Clock) (managerId : Z) (chat : Chat) (w : World) :
  let r := addChat clk managerId chat w in
  getChatsForManager managerId (snd r) =
    getChatsForManager managerId w ++ [fst r] /\
  c_manager_id (fst r) = IdNum managerId /\
  c_id (fst r) = now_ms clk /\
  (forall other, other <> managerId ->
     getChatsForManager other (snd r) = getChatsForManager other w) /\
  telegram_crm_chats_v2 (store (snd r)) = Some (Parsed (chats (state (snd r)))).
Proof.
  unfold getChatsForManager, addChat. simpl.
  split.
  { rewrite filter_app. simpl. now rewrite Z.eqb_refl. }
  split; [reflexivity|]. split; [reflexivity|].
  split; [|reflexivity].
  intros other Hne. rewrite filter_app. simpl.
  destruct (managerId =? other) eqn:E.
  - apply Z.eqb_eq in E. congruence.
  - apply app_nil_r.
Qed.

(** ** Seeding the second manager *)

Lemma fold_max_ge (l : list Chat) :
  forall m,
    m <= fold_left (fun m c => Z.max m (c_id c)) l m /\
    forall c, In c l -> c_id c <= fold_left (fun m c => Z.max m (c_id c)) l m.
Proof.
  induction l as [|x l IH]; intros m; simpl.
  - split; [lia | tauto].
  - destruct (IH (Z.max m (c_id x))) as [H1 H2]. split; [lia|].
    intros c [-> | Hin]; [lia | now apply H2].
Qed.

Lemma maxChatId_ge (l : list Chat) c : In c l -> c_id c <= maxChatId l.
Proof. intros H. now apply (fold_max_ge l 0). Qed.

Lemma repairChats_in_commit_own clk w :
  repairChats_in_commit clk (managers (state w)) w = repairChats clk w.
Proof. reflexivity. Qed.

(** Chats of the first manager are left alone by a repair pass closed over
    a list that starts with it. *)
Lemma normalizeChat_owned_by_first m0 (rest : list Manager) (l : list Chat) :
  allOwnedBy (m_id m0) l = true ->
  map (normalizeChat (map m_id (m0 :: rest)) (m_id m0)) l = l /\
  existsb (needsRepair (map m_id (m0 :: rest))) l = false.
Proof.
  set (ids := map m_id (m0 :: rest)).
  assert (Hhead : forall c, id_is (c_manager_id c) (m_id m0) = true ->
                            needsRepair ids c = false).
  { intros c Hc. unfold needsRepair.
    destruct (c_manager_id c) as [|n|s0]; simpl in Hc; try discriminate.
    apply Z.eqb_eq in Hc. subst n. unfold ids. now rewrite id_in_head. }
  unfold allOwnedBy.
  induction l as [|c l IH]; cbn [forallb map existsb]; intros H; [now split|].
  apply andb_true_iff in H. destruct H as [Hc Hl].
  destruct (IH Hl) as [IH1 IH2]. rewrite IH1, IH2.
  unfold normalizeChat. rewrite (Hhead _ Hc). now split.
Qed.

(** X7.  When one manager owns every chat of a non-empty list and the
    seeding flag is not set, the seeding effect adds a second manager (its
    id is the time of the call), queues two chats for it whose ids are
    larger than every id in use, and sets the flag.  In a commit that runs
    the effect alone (only the chats changed) the two chats stay with the
    second manager, distinct chat ids stay distinct and the owners are
    valid.  In a commit in which the manager list changed the repair
    effect runs after it, still closed over the one-manager list: it hands
    the two new chats to the first manager, so that afterwards every chat
    belongs to the first manager, the second manager has none, the stored
    chats are those of the state, and later repair and seeding passes
    change nothing. *)
Theorem seedSecondManager_fresh
    (clk clk' : Clock) (seeded : option string) (m0 : Manager) (w : World) :
  managers (state w) = [m0] ->
  chats (state w) <> [] ->
  allOwnedBy (m_id m0) (chats (state w)) = true ->
  str_truthy seeded = false ->
  let r := seedSecondManager clk seeded w in
  let r' := commitManagersChanged clk seeded w in
  fst r = Some "1" /\
  map m_id (managers (state (snd r))) = [m_id m0; now_ms clk] /\
  (exists c1 c2,
     chats (state (snd r)) = chats (state w) ++ [c1; c2] /\
     c_manager_id c1 = IdNum (now_ms clk) /\
     c_manager_id c2 = IdNum (now_ms clk) /\
     (forall c, In c (chats (state w)) -> c_id c < c_id c1) /\
     c_id c1 < c_id c2) /\
  (NoDup (map c_id (chats (state w))) ->
   NoDup (map c_id (chats (state (snd r))))) /\
  ownersValid (snd r) /\
  seedSecondManager clk' (fst r) (snd r) = r /\
  fst r' = Some "1" /\
  managers (state (snd r')) = managers (state (snd r)) /\
  map c_id (chats (state (snd r'))) = map c_id (chats (state (snd r))) /\
  allOwnedBy (m_id m0) (chats (state (snd r'))) = true /\
  (now_ms clk <> m_id m0 -> getChatsForManager (now_ms clk) (snd r') = []) /\
  telegram_crm_chats_v2 (store (snd r')) = Some (Parsed (chats (state (snd r')))) /\
  repairChats clk' (snd r') = snd r' /\
  seedSecondManager clk' (fst r') (snd r') = r'.
Proof.
  intros Hm Hne Hall Hflag r r'.
  assert (Hr : r =
    (Some "1",
     let second := mkManager (now_ms clk) "Менеджер 2" None (Some manager)
                             (now_iso clk) in
     let w1 := snd (addManager clk "Менеджер 2" None w) in
     let list := chats (state w) ++
                 secondManagerChats clk second (maxChatId (chats (state w))) in
     setChats list (setItem_chats_v2 list w1))).
  { assert (Hlen : (0 <? Z.of_nat (List.length (chats (state w)))) = true)
      by (destruct (chats (state w)); [contradiction | reflexivity]).
    unfold r, seedSecondManager. rewrite Hm.
    unfold allOwnedBy in Hall. rewrite Hlen, Hall, Hflag. reflexivity. }
  set (mx := maxChatId (chats (state w))).
  assert (Hlt : forall c, In c (chats (state w)) -> c_id c < mx + 1).
  { intros c Hin. pose proof (maxChatId_ge _ _ Hin). unfold mx. lia. }
  assert (Halone :
    fst r = Some "1" /\
    map m_id (managers (state (snd r))) = [m_id m0; now_ms clk] /\
    (exists c1 c2,
       chats (state (snd r)) = chats (state w) ++ [c1; c2] /\
       c_manager_id c1 = IdNum (now_ms clk) /\
       c_manager_id c2 = IdNum (now_ms clk) /\
       (forall c, In c (chats (state w)) -> c_id c < c_id c1) /\
       c_id c1 < c_id c2) /\
    (NoDup (map c_id (chats (state w))) ->
     NoDup (map c_id (chats (state (snd r))))) /\
    ownersValid (snd r) /\
    seedSecondManager clk' (fst r) (snd r) = r).
  { rewrite Hr. cbv zeta. simpl fst. simpl snd.
    split; [reflexivity|].
    split; [simpl; now rewrite Hm|].
    split.
    { eexists. eexists. split; [reflexivity|].
      split; [reflexivity|]. split; [reflexivity|].
      split; [exact Hlt | simpl; lia]. }
    split.
    { intros Hnd. simpl. rewrite map_app. apply NoDup_app; [exact Hnd | |].
      - simpl. constructor; [|constructor; [tauto | constructor]].
        simpl. intros [H | []]. lia.
      - intros x Hx Hnew. apply in_map_iff in Hx. destruct Hx as [c [<- Hin]].
        specialize (Hlt c Hin). simpl in Hnew.
        destruct Hnew as [H | [H | []]]; lia. }
    split.
    { unfold ownersValid. simpl. rewrite Hm. simpl.
      apply Forall_app. split.
      - unfold allOwnedBy in Hall. rewrite forallb_forall in Hall.
        apply Forall_forall. intros c Hin. specialize (Hall c Hin).
        destruct (c_manager_id c) as [|n|s]; simpl in *; try discriminate.
        now rewrite Hall.
      - repeat constructor; simpl; rewrite Z.eqb_refl; apply orb_true_r. }
    unfold seedSecondManager. simpl. now rewrite Hm. }
  destruct Halone as [A1 [A2 [A3 [A4 [A5 A6]]]]].
  split; [exact A1|]. split; [exact A2|]. split; [exact A3|].
  split; [exact A4|]. split; [exact A5|]. split; [exact A6|].
  (* the commit that also runs the repair effect *)
  set (second := mkManager (now_ms clk) "Менеджер 2" None (Some manager)
                           (now_iso clk)).
  set (newChats := secondManagerChats clk second mx).
  set (handed := map (fun c => withManagerId c (IdNum (m_id m0))) newChats).
  assert (Hnorm :
    map (normalizeChat (map m_id [m0]) (m_id m0)) (chats (state w) ++ newChats)
      = chats (state w) ++
        map (normalizeChat (map m_id [m0]) (m_id m0)) newChats).
  { rewrite map_app.
    now rewrite (proj1 (normalizeChat_owned_by_first m0 [] _ Hall)). }
  assert (Hnew_owned :
    allOwnedBy (m_id m0)
      (map (normalizeChat (map m_id [m0]) (m_id m0)) newChats) = true /\
    map c_id (map (normalizeChat (map m_id [m0]) (m_id m0)) newChats)
      = map c_id newChats).
  { unfold newChats, secondManagerChats, normalizeChat, needsRepair, allOwnedBy.
    cbn [map m_id id_in existsb forallb c_manager_id c_account_id c_id].
    change (m_id second) with (now_ms clk).
    destruct (now_ms clk =? m_id m0) eqn:E; cbn [orb negb];
      cbn [withManagerId forallb c_manager_id id_is c_id map];
      rewrite ?E, ?Z.eqb_refl; now split. }
  destruct Hnew_owned as [Hown Hids].
  assert (Hr' : chats (state (snd r')) =
                  chats (state w) ++
                  map (normalizeChat (map m_id [m0]) (m_id m0)) newChats /\
                managers (state (snd r')) = managers (state (snd r)) /\
                fst r' = Some "1" /\
                telegram_crm_chats_v2 (store (snd r')) =
                  Some (Parsed (chats (state (snd r'))))).
  { unfold r', commitManagersChanged. fold r. cbn [fst snd].
    unfold repairChats_in_commit. rewrite Hm.
    assert (Hc : chats (state (snd r)) = chats (state w) ++ newChats)
      by (rewrite Hr; reflexivity).
    rewrite Hc.
    destruct (chats (state w) ++ newChats) as [|c0 l0] eqn:El.
    { apply app_eq_nil in El. destruct El as [E _]. contradiction. }
    rewrite Hnorm.
    destruct (existsb (needsRepair (map m_id [m0])) (c0 :: l0)) eqn:Ech.
    - repeat split; try reflexivity. exact A1.
    - assert (Hsame : forall l,
                existsb (needsRepair (map m_id [m0])) l = false ->
                map (normalizeChat (map m_id [m0]) (m_id m0)) l = l).
      { clear. set (ids := map m_id [m0]).
        induction l as [|c l IH]; [reflexivity|].
        cbn [existsb map]. intros H. apply orb_false_iff in H.
        destruct H as [Hc Hl]. rewrite (IH Hl).
        unfold normalizeChat. now rewrite Hc. }
      rewrite (Hsame _ Ech) in Hnorm.
      split; [now rewrite Hc, Hnorm|]. split; [reflexivity|].
      split; [exact A1|]. rewrite Hr. reflexivity. }
  destruct Hr' as [Hc' [Hm' [Hf' Hs']]].
  assert (Hall' : allOwnedBy (m_id m0) (chats (state (snd r'))) = true).
  { rewrite Hc'. unfold allOwnedBy in *. rewrite forallb_app.
    now rewrite Hall, Hown. }
  split; [exact Hf'|]. split; [exact Hm'|].
  split.
  { rewrite Hc'. assert (Hc : chats (state (snd r)) = chats (state w) ++ newChats)
      by (rewrite Hr; reflexivity).
    rewrite Hc, !map_app, Hids. reflexivity. }
  split; [exact Hall'|].
  split.
  { intros Hdiff. unfold getChatsForManager.
    assert (Hgen : forall l,
              allOwnedBy (m_id m0) l = true ->
              filter (fun c => id_is (c_manager_id c) (now_ms clk)) l = []).
    { clear - Hdiff. unfold allOwnedBy.
      induction l as [|c l IH]; [reflexivity|].
      cbn [forallb filter]. intros H. apply andb_true_iff in H.
      destruct H as [Hc Hl].
      assert (Hn : id_is (c_manager_id c) (now_ms clk) = false).
      { destruct (c_manager_id c) as [|n|s0]; simpl in *; try discriminate.
        apply Z.eqb_eq in Hc. apply Z.eqb_neq. congruence. }
      rewrite Hn. now apply IH. }
    now apply Hgen. }
  split; [exact Hs'|].
  assert (Hmgr' : managers (state (snd r')) = [m0; second]).
  { rewrite Hm', Hr. simpl. now rewrite Hm. }
  split.
  { assert (Hne' : chats (state (snd r')) <> []).
    { rewrite Hc'. intros E. apply app_eq_nil in E. destruct E as [E _].
      contradiction. }
    unfold repairChats. rewrite Hmgr'.
    pose proof (proj2 (normalizeChat_owned_by_first m0 [second] _ Hall'))
      as Hfix.
    destruct (chats (state (snd r'))) as [|c0 l0]; [contradiction|].
    now rewrite Hfix. }
  unfold seedSecondManager. rewrite Hmgr'.
  symmetry. apply surjective_pairing.
Qed.

Lemma seedSecondManager_fresh_witness :
  managers (state oneManagerWorld) =
    [mkManager 1 "Менеджер 1" None (Some manager) "2023-11-14T22:13:20.000Z"] /\
  chats (state oneManagerWorld) <> [] /\
  allOwnedBy 1 (chats (state oneManagerWorld)) = true /\
  str_truthy None = false /\
  let r := seedSecondManager clock0 None oneManagerWorld in
  let r' := commitManagersChanged clock0 None oneManagerWorld in
  map c_id (chats (state (snd r))) = [7; 9; 10; 11] /\
  map c_manager_id (chats (state (snd r))) =
    [IdNum 1; IdNum 1; IdNum (now_ms clock0); IdNum (now_ms clock0)] /\
  map c_manager_id (chats (state (snd r'))) =
    [IdNum 1; IdNum 1; IdNum 1; IdNum 1] /\
  map m_id (managers (state (snd r'))) = [1; now_ms clock0] /\
  ownersValid (snd r) /\
  allOwnedBy 1 (chats (state (snd r'))) = true /\
  repairChats clock1 (snd r') = snd r'.
Proof.
  split; [reflexivity|]. split; [discriminate|].
  split; [reflexivity|]. split; [reflexivity|].
  destruct (seedSecondManager_fresh clock0 clock1 None
              (mkManager 1 "Менеджер 1" None (Some manager)
                         "2023-11-14T22:13:20.000Z")
              oneManagerWorld eq_refl)
    as [_ [_ [_ [_ [H5 [_ [_ [_ [_ [H10 [_ [_ [H13 _]]]]]]]]]]]]];
    [discriminate | reflexivity | reflexivity |].
  split; [reflexivity|]. split; [reflexivity|]. split; [reflexivity|].
  split; [reflexivity|].
  split; [exact H5|]. split; [exact H10 | exact H13].
Defined.

(** ** Transfer records *)

Lemma transferRecords_updateTransferRecord id updates w :
  transferRecords (state (updateTransferRecord id updates w)) =
  map (fun r => if tr_id r =? id then spreadTransfer r updates else r)
      (transferRecords (state w)).
Proof. reflexivity. Qed.

Lemma pressed_id id x : tr_id (pressed id x) = tr_id x.
Proof. unfold pressed. destruct (tr_id x =? id); reflexivity. Qed.

Lemma pressed_four_times id x :
  pressed id (pressed id (pressed id (pressed id x))) = x.
Proof.
  unfold pressed. destruct x as [i s c t st n]. simpl.
  destruct (i =? id) eqn:E; simpl; rewrite ?E; simpl; rewrite ?E; simpl;
    rewrite ?E; [|reflexivity].
  destruct st; reflexivity.
Qed.

Lemma find_unique_id id (l : list TransferRecord) r :
  NoDup (map tr_id l) ->
  find (fun x => tr_id x =? id) l = Some r ->
  forall x, In x l -> tr_id x = id -> x = r.
Proof.
  induction l as [|a l IH]; simpl; intros Hnd Hf x Hin Hid; [contradiction|].
  apply NoDup_cons_iff in Hnd. destruct Hnd as [Hnotin Hnd].
  destruct (tr_id a =? id) eqn:E.
  - injection Hf as <-. apply Z.eqb_eq in E.
    destruct Hin as [-> | Hin]; [reflexivity|].
    exfalso. apply Hnotin. apply in_map_iff. exists x. split; [congruence | exact Hin].
  - apply Z.eqb_neq in E. destruct Hin as [-> | Hin]; [contradiction|].
    now apply IH.
Qed.

Lemma cycleById_pressed id w :
  NoDup (map tr_id (transferRecords (state w))) ->
  transferRecords (state (cycleById id w)) =
  map (pressed id) (transferRecords (state w)).
Proof.
  intros Hnd. unfold cycleById.
  destruct (find _ (transferRecords (state w))) as [r|] eqn:Ef.
  - assert (Hr : tr_id r = id)
      by (apply find_some in Ef; now apply Z.eqb_eq).
    unfold cycleStatus. rewrite transferRecords_updateTransferRecord, Hr.
    apply map_ext_in. intros x Hin. unfold pressed.
    destruct (tr_id x =? id) eqn:E; [|reflexivity].
    apply Z.eqb_eq in E.
    rewrite (find_unique_id id _ r Hnd Ef x Hin E). reflexivity.
  - symmetry. erewrite map_ext_in; [apply map_id|].
    intros x Hin. unfold pressed.
    destruct (tr_id x =? id) eqn:E; [|reflexivity].
    exfalso. apply (find_none _ _ Ef) in Hin. congruence.
Qed.

(** X8.  With distinct transfer ids, pressing the status button of one
    transfer moves that transfer, and no other, to the next status in the
    order new, in progress, completed, cancelled, new; four presses bring
    the whole list back to what it was. *)
Theorem cycleStatus_round_trip (id : Z) (w : World) :
  NoDup (map tr_id (transferRecords (state w))) ->
  (forall r, In r (transferRecords (state w)) -> tr_id r = id ->
     In (mkTransferRecord (tr_id r) (tr_supplier_account_id r)
           (tr_client_account_id r) (tr_created_at r)
           (nextStatus (tr_status r)) (tr_notes r))
        (transferRecords (state (cycleById id w))) /\
     nextStatus (tr_status r) <> tr_status r) /\
  (forall r, In r (transferRecords (state w)) -> tr_id r <> id ->
     In r (transferRecords (state (cycleById id w)))) /\
  transferRecords
    (state (cycleById id (cycleById id (cycleById id (cycleById id w))))) =
  transferRecords (state w).
Proof.
  intros Hnd.
  assert (H1 := cycleById_pressed id w Hnd).
  assert (Hnd1 : NoDup (map tr_id (transferRecords (state (cycleById id w))))).
  { rewrite H1, map_map. erewrite map_ext; [exact Hnd|]. apply pressed_id. }
  assert (H2 := cycleById_pressed id _ Hnd1).
  assert (Hnd2 : NoDup (map tr_id
                   (transferRecords (state (cycleById id (cycleById id w)))))).
  { rewrite H2, map_map. erewrite map_ext; [exact Hnd1|]. apply pressed_id. }
  assert (H3 := cycleById_pressed id _ Hnd2).
  assert (Hnd3 : NoDup (map tr_id
                   (transferRecords
                      (state (cycleById id (cycleById id (cycleById id w))))))).
  { rewrite H3, map_map. erewrite map_ext; [exact Hnd2|]. apply pressed_id. }
  assert (H4 := cycleById_pressed id _ Hnd3).
  split.
  { intros r Hin Hid. split; [|destruct (tr_status r); discriminate].
    rewrite H1. apply in_map_iff. exists r. split; [|exact Hin].
    unfold pressed. apply Z.eqb_eq in Hid. now rewrite Hid. }
  split.
  { intros r Hin Hne. rewrite H1. apply in_map_iff. exists r.
    split; [|exact Hin]. unfold pressed.
    apply Z.eqb_neq in Hne. now rewrite Hne. }
  rewrite H4, H3, H2, H1, !map_map.
  erewrite map_ext; [apply map_id|]. apply pressed_four_times.
Qed.

Lemma cycleStatus_round_trip_witness :
  NoDup (map tr_id (transferRecords (state threeTransfersWorld))) /\
  map tr_status (transferRecords (state (cycleById 3 threeTransfersWorld))) =
    [new; completed; new] /\
  transferRecords
    (state (cycleById 3 (cycleById 3 (cycleById 3
              (cycleById 3 threeTransfersWorld))))) =
  transferRecords (state threeTransfersWorld).
Proof.
  assert (H : NoDup (map tr_id (transferRecords (state threeTransfersWorld)))).
  { simpl. repeat constructor; simpl; intuition lia. }
  split; [exact H|]. split; [reflexivity|].
  exact (proj2 (proj2 (cycleStatus_round_trip 3 threeTransfersWorld H))).
Defined.

Lemma counter_bump o : counter (bump o) = counter o + 1.
Proof.
  unfold bump, num_or. destruct o as [n|]; simpl; [|reflexivity].
  destruct (n =? 0) eqn:E; simpl; [|reflexivity].
  apply Z.eqb_eq in E. now subst.
Qed.

Lemma bump_some o : bump o <> None.
Proof.
  unfold bump. destruct (num_or o (Some 0)); discriminate.
Qed.

Lemma getCount_countStep s acc r :
  getCount s (countStep acc r) =
  if Status_eqb (tr_status r) s then bump (getCount s acc) else getCount s acc.
Proof. unfold countStep. destruct (tr_status r), s; reflexivity. Qed.

Lemma counts_fold s (l : list TransferRecord) :
  forall acc,
    counter (getCount s (fold_left countStep l acc)) =
      counter (getCount s acc) + Z.of_nat (List.length (withStatus s l)) /\
    (getCount s (fold_left countStep l acc) = None <->
     getCount s acc = None /\ withStatus s l = []).
Proof.
  unfold withStatus.
  induction l as [|r l IH]; intros acc; simpl.
  - split; [lia | tauto].
  - destruct (IH (countStep acc r)) as [IH1 IH2].
    rewrite getCount_countStep in IH1, IH2.
    destruct (Status_eqb (tr_status r) s); simpl List.length.
    + rewrite counter_bump in IH1. split; [lia|].
      rewrite IH2. split.
      * intros [H _]. now apply bump_some in H.
      * intros [_ H]. discriminate.
    + split; [exact IH1 | exact IH2].
Qed.

Lemma withStatus_partition (l : list TransferRecord) :
  (List.length (withStatus new l) + List.length (withStatus in_progress l) +
   List.length (withStatus completed l) + List.length (withStatus cancelled l) =
   List.length l)%nat.
Proof.
  unfold withStatus. induction l as [|r l IH]; simpl; [reflexivity|].
  destruct (tr_status r); simpl; lia.
Qed.

(** X9.  The header counters of the transfer list: the counter of a status
    is the number of transfers in that status, its key is absent from the
    object exactly when there is none, and the four counters add up to the
    number of transfers. *)
Theorem counts_total (w : World) :
  (forall s,
     counter (getCount s (counts w)) =
       Z.of_nat (List.length (withStatus s (transferRecords (state w)))) /\
     (getCount s (counts w) = None <->
      withStatus s (transferRecords (state w)) = [])) /\
  counter (count_new (counts w)) + counter (count_in_progress (counts w)) +
  counter (count_completed (counts w)) + counter (count_cancelled (counts w)) =
  Z.of_nat (List.length (transferRecords (state w))).
Proof.
  assert (H : forall s,
     counter (getCount s (counts w)) =
       Z.of_nat (List.length (withStatus s (transferRecords (state w)))) /\
     (getCount s (counts w) = None <->
      withStatus s (transferRecords (state w)) = [])).
  { intros s. unfold counts.
    destruct (counts_fold s (transferRecords (state w))
                (mkStatusCounts None None None None)) as [H1 H2].
    split.
    - rewrite H1. destruct s; simpl; lia.
    - rewrite H2. destruct s; simpl; tauto. }
  split; [exact H|].
  pose proof (proj1 (H new)) as Hn. pose proof (proj1 (H in_progress)) as Hp.
  pose proof (proj1 (H completed)) as Hc. pose proof (proj1 (H cancelled)) as Hx.
  simpl in Hn, Hp, Hc, Hx. rewrite Hn, Hp, Hc, Hx.
  pose proof (withStatus_partition (transferRecords (state w))). lia.
Qed.

(** X10.  Deleting the record that was just added, by the id it was
    given, restores the list when no older record carries that id; the
    stored copy follows. *)
Theorem add_then_delete_transfer (clk : Clock) (data : TransferData) (w : World) :
  Forall (fun r => tr_id r <> now_ms clk) (transferRecords (state w)) ->
  let w' := deleteTransferRecord (now_ms clk) (addTransferRecord clk data w) in
  transferRecords (state w') = transferRecords (state w) /\
  telegram_crm_transfers (store w') = Some (Parsed (transferRecords (state w))).
Proof.
  intros Hfresh w'.
  assert (H : transferRecords (state w') = transferRecords (state w)).
  { unfold w', deleteTransferRecord, addTransferRecord. simpl.
    rewrite Z.eqb_refl. simpl.
    induction Hfresh as [|r l Hr Hl IH]; simpl; [reflexivity|].
    apply Z.eqb_neq in Hr. rewrite Hr. simpl. now rewrite IH. }
  split; [exact H|].
  rewrite <- H. reflexivity.
Qed.

Lemma add_then_delete_transfer_witness :
  Forall (fun r => tr_id r <> now_ms clock0)
         (transferRecords (state threeTransfersWorld)) /\
  let w' := deleteTransferRecord (now_ms clock0)
              (addTransferRecord clock0 (mkTransferData 5 6 new None)
                                 threeTransfersWorld) in
  transferRecords (state w') = transferRecords (state threeTransfersWorld) /\
  telegram_crm_transfers (store w') =
    Some (Parsed (transferRecords (state threeTransfersWorld))).
Proof.
  assert (H : Forall (fun r => tr_id r <> now_ms clock0)
                     (transferRecords (state threeTransfersWorld))).
  { repeat constructor; simpl; lia. }
  split; [exact H|].
  exact (add_then_delete_transfer clock0 (mkTransferData 5 6 new None)
           threeTransfersWorld H).
Defined.

(** X11.  A new transfer is listed first, for its supplier and for its
    client alike, with the time of the call as id and creation date; the
    list of any other account is as before. *)
Theorem addTransferRecord_listed (clk : Clock) (data : TransferData) (w : World) :
  let w' := addTransferRecord clk data w in
  let r := mkTransferRecord (now_ms clk) (td_supplier_account_id data)
             (td_client_account_id data) (now_iso clk) (td_status data)
             (td_notes data) in
  getTransfersByAccount (td_supplier_account_id data) w' =
    r :: getTransfersByAccount (td_supplier_account_id data) w /\
  getTransfersByAccount (td_client_account_id data) w' =
    r :: getTransfersByAccount (td_client_account_id data) w /\
  (forall other,
     other <> td_supplier_account_id data ->
     other <> td_client_account_id data ->
     getTransfersByAccount other w' = getTransfersByAccount other w).
Proof.
  unfold getTransfersByAccount, addTransferRecord. simpl.
  split; [now rewrite Z.eqb_refl, orb_true_r|].
  split; [now rewrite Z.eqb_refl|].
  intros other Hs Hc.
  apply Z.eqb_neq in Hs, Hc. rewrite Z.eqb_sym in Hs. rewrite Z.eqb_sym in Hc.
  now rewrite Hs, Hc.
Qed.

(** The record with [id] is replaced by what the edit form submits for
    it: the same record with its notes read through [notes || '']. *)
Lemma startEdit_submit_map clk r ui w :
  tr_supplier_account_id r <> 0 ->
  tr_client_account_id r <> 0 ->
  tr_supplier_account_id r <> tr_client_account_id r ->
  transferRecords (state (snd (handleSubmit clk (startEdit r ui) w))) =
  map (fun x =>
         if tr_id x =? tr_id r
         then mkTransferRecord (tr_id x) (tr_supplier_account_id r)
                (tr_client_account_id r) (tr_created_at x) (tr_status r)
                (Some (str_or_lit (tr_notes r) ""))
         else x)
      (transferRecords (state w)).
Proof.
  intros Hs Hc Hne.
  unfold handleSubmit, handleSubmit_decide, startEdit. simpl.
  apply Z.eqb_neq in Hs, Hc, Hne. rewrite Hs, Hc, Hne. simpl.
  apply map_ext. intros x. destruct (tr_id x =? tr_id r); reflexivity.
Qed.

(** X12.  Opening a stored transfer in the edit form and submitting it
    unchanged keeps every record's id, parties, date and status (ids being
    distinct); only the notes of the edited record are rewritten, an absent
    note becoming the empty string.  The form is closed and reset. *)
Theorem startEdit_submit_unchanged
    (clk : Clock) (r : TransferRecord) (ui : TransfersUI) (w : World) :
  NoDup (map tr_id (transferRecords (state w))) ->
  In r (transferRecords (state w)) ->
  tr_supplier_account_id r <> 0 ->
  tr_client_account_id r <> 0 ->
  tr_supplier_account_id r <> tr_client_account_id r ->
  let res := handleSubmit clk (startEdit r ui) w in
  Forall2 sameButNotes (transferRecords (state w))
          (transferRecords (state (snd res))) /\
  Forall2 (fun x y => tr_notes y = tr_notes x \/
                      (x = r /\ tr_notes y = Some (str_or_lit (tr_notes r) "")))
          (transferRecords (state w)) (transferRecords (state (snd res))) /\
  fst res = resetForm ui.
Proof.
  intros Hnd Hin Hs Hc Hne res.
  assert (Hmap := startEdit_submit_map clk r ui w Hs Hc Hne). fold res in Hmap.
  assert (Huniq : forall x, In x (transferRecords (state w)) ->
                            tr_id x = tr_id r -> x = r).
  { intros x Hx Hid.
    assert (Hf : exists r0, find (fun y => tr_id y =? tr_id r)
                                 (transferRecords (state w)) = Some r0).
    { destruct (find _ (transferRecords (state w))) as [r0|] eqn:Ef; [eauto|].
      exfalso. pose proof (find_none _ _ Ef r Hin) as Hn. simpl in Hn.
      now rewrite Z.eqb_refl in Hn. }
    destruct Hf as [r0 Hf].
    rewrite (find_unique_id _ _ r0 Hnd Hf x Hx Hid).
    symmetry. now apply (find_unique_id _ _ r0 Hnd Hf r Hin). }
  assert (Hgen : forall l,
    (forall x, In x l -> tr_id x = tr_id r -> x = r) ->
    let l' :=
      map (fun x =>
             if tr_id x =? tr_id r
             then mkTransferRecord (tr_id x) (tr_supplier_account_id r)
                    (tr_client_account_id r) (tr_created_at x) (tr_status r)
                    (Some (str_or_lit (tr_notes r) ""))
             else x) l in
    Forall2 sameButNotes l l' /\
    Forall2 (fun x y => tr_notes y = tr_notes x \/
                        (x = r /\ tr_notes y = Some (str_or_lit (tr_notes r) "")))
            l l').
  { induction l as [|x l IH]; intros Hu; simpl; [split; constructor|].
    assert (Hu' : forall y, In y l -> tr_id y = tr_id r -> y = r)
      by (intros y Hy; apply Hu; now right).
    destruct (IH Hu') as [IH1 IH2].
    split; constructor; try assumption.
    - destruct (tr_id x =? tr_id r) eqn:E; [|repeat split].
      apply Z.eqb_eq in E. rewrite (Hu x (or_introl eq_refl) E).
      repeat split.
    - destruct (tr_id x =? tr_id r) eqn:E; [|now left].
      apply Z.eqb_eq in E. right. split; [|reflexivity].
      apply Hu; [now left | exact E]. }
  destruct (Hgen _ Huniq) as [G1 G2]. rewrite <- Hmap in G1, G2.
  split; [exact G1|]. split; [exact G2|].
  unfold res, handleSubmit, handleSubmit_decide, startEdit. simpl.
  apply Z.eqb_neq in Hs, Hc, Hne. now rewrite Hs, Hc, Hne.
Qed.

Lemma startEdit_submit_unchanged_witness :
  NoDup (map tr_id (transferRecords (state threeTransfersWorld))) /\
  In transfer1 (transferRecords (state threeTransfersWorld)) /\
  transferRecords
    (state (snd (handleSubmit clock0 (startEdit transfer1 soundForm)
                   threeTransfersWorld))) =
    [mkTransferRecord 1 5 6 "2023-11-14T22:13:20.000Z" new (Some "");
     transfer2; transfer3] /\
  let res := handleSubmit clock0 (startEdit transfer1 soundForm)
               threeTransfersWorld in
  Forall2 sameButNotes (transferRecords (state threeTransfersWorld))
          (transferRecords (state (snd res))) /\
  Forall2 (fun x y => tr_notes y = tr_notes x \/
                      (x = transfer1 /\
                       tr_notes y = Some (str_or_lit (tr_notes transfer1) "")))
          (transferRecords (state threeTransfersWorld))
          (transferRecords (state (snd res))) /\
  fst res = resetForm soundForm.
Proof.
  assert (H : NoDup (map tr_id (transferRecords (state threeTransfersWorld)))).
  { simpl. repeat constructor; simpl; intuition lia. }
  assert (Hin : In transfer1 (transferRecords (state threeTransfersWorld)))
    by (left; reflexivity).
  split; [exact H|]. split; [exact Hin|]. split; [reflexivity|].
  apply (startEdit_submit_unchanged clock0 transfer1 soundForm
           threeTransfersWorld H Hin); simpl; lia.
Defined.

(** ** Keywords *)

Lemma findIndex_bound {A : Type} (p : A -> bool) (pre : list A) x post :
  p x = true ->
  0 <= findIndex p (pre ++ x :: post) <= Z.of_nat (List.length pre).
Proof.
  intros Hx. induction pre as [|z pre IH]; simpl findIndex.
  - rewrite Hx. simpl. lia.
  - destruct (p z); [simpl List.length; lia|].
    destruct (findIndex p (pre ++ x :: post) <? 0) eqn:E.
    + apply Z.ltb_lt in E. lia.
    + simpl List.length. lia.
Qed.

(** The index [findIndex] returns holds an element that satisfies the
    test. *)
Lemma findIndex_found {A : Type} (p : A -> bool) (l : list A) v :
  In v l -> p v = true ->
  exists k y,
    findIndex p l = Z.of_nat k /\ nth_error l k = Some y /\ p y = true.
Proof.
  induction l as [|z l IH]; simpl; intros Hin Hv; [contradiction|].
  destruct (p z) eqn:Ez.
  - exists 0%nat, z. now repeat split.
  - destruct Hin as [-> | Hin]; [congruence|].
    destruct (IH Hin Hv) as [k [y [Hk [Hn Hy]]]].
    exists (S k), y. rewrite Hk.
    assert (E : (Z.of_nat k <? 0) = false) by (apply Z.ltb_ge; lia).
    rewrite E. repeat split; [lia | exact Hn | exact Hy].
Qed.

Lemma filterIndexed_In {A : Type} (q : A -> Z -> bool) (l : list A) :
  forall i y,
    In y (filterIndexed q i l) <->
    exists k, nth_error l k = Some y /\ q y (i + Z.of_nat k) = true.
Proof.
  induction l as [|x l IH]; intros i y; simpl.
  - split; [contradiction|]. intros [[|k] [H _]]; discriminate.
  - split.
    + intros H.
      assert (Hcases : (x = y /\ q x i = true) \/ In y (filterIndexed q (i + 1) l)).
      { destruct (q x i) eqn:E; [destruct H as [-> | H]; auto | auto]. }
      destruct Hcases as [[-> Hq] | Hin].
      * exists 0%nat. split; [reflexivity|]. now rewrite Z.add_0_r.
      * apply IH in Hin. destruct Hin as [k [Hk Hq]].
        exists (S k). split; [exact Hk|].
        replace (i + Z.of_nat (S k)) with (i + 1 + Z.of_nat k) by lia. exact Hq.
    + intros [[|k] [Hk Hq]]; simpl in Hk.
      * injection Hk as ->. rewrite Z.add_0_r in Hq. rewrite Hq. now left.
      * assert (Hin : In y (filterIndexed q (i + 1) l)).
        { apply IH. exists k. split; [exact Hk|].
          replace (i + 1 + Z.of_nat k) with (i + Z.of_nat (S k)) by lia.
          exact Hq. }
        destruct (q x i); [now right | exact Hin].
Qed.

Section KeywordProperties.

Variable trim : string -> string.
Variable toLowerCase : string -> string.

(** The test of the last [filter] keeps, out of each group of entries
    equal up to case, the first one. *)
Lemma firstOfCase_distinct (pre rest : list string) :
  NoDup
    (map toLowerCase
       (filterIndexed
          (fun v i =>
             findIndex (fun x => String.eqb (toLowerCase x) (toLowerCase v))
                       (pre ++ rest) =? i)
          (Z.of_nat (List.length pre)) rest)).
Proof.
  revert pre. induction rest as [|x rest IH]; intros pre; simpl; [constructor|].
  assert (Hrest := IH (pre ++ [x])).
  rewrite <- app_assoc in Hrest. simpl in Hrest.
  rewrite length_app in Hrest. simpl in Hrest.
  replace (Z.of_nat (List.length pre + 1)) with (Z.of_nat (List.length pre) + 1)
    in Hrest by lia.
  destruct (findIndex _ (pre ++ x :: rest) =? Z.of_nat (List.length pre)) eqn:E;
    [|exact Hrest].
  simpl. constructor; [|exact Hrest].
  intros Hin. apply in_map_iff in Hin. destruct Hin as [y [Hy Hin]].
  apply filterIndexed_In in Hin. destruct Hin as [k [_ Hq]].
  apply Z.eqb_eq in Hq.
  assert (Hpx : String.eqb (toLowerCase x) (toLowerCase y) = true)
    by (rewrite Hy; apply String.eqb_refl).
  pose proof (findIndex_bound
                (fun z => String.eqb (toLowerCase z) (toLowerCase y))
                pre x rest Hpx) as Hb.
  simpl in Hb. lia.
Qed.

(** The cleaned list is unique up to case. *)
Lemma cleanKeywords_distinct (kw : list string) :
  NoDup (map toLowerCase (cleanKeywords trim toLowerCase kw)).
Proof. unfold cleanKeywords. apply (firstOfCase_distinct []). Qed.

(** X13.  The keyword list the context stores is unique up to case, has
    no empty entry, holds only trimmed input keywords, and loses no
    keyword: every non-blank input is present up to case. *)
Theorem cleanKeywords_unique (kw : list string) :
  NoDup (map toLowerCase (cleanKeywords trim toLowerCase kw)) /\
  Forall (fun k => k <> "" /\ In k (map trim kw))
         (cleanKeywords trim toLowerCase kw) /\
  (forall k, In k kw -> trim k <> "" ->
     exists k', In k' (cleanKeywords trim toLowerCase kw) /\
                toLowerCase k' = toLowerCase (trim k)).
Proof.
  unfold cleanKeywords.
  set (a := filter (fun k => negb (String.eqb k "")) (map trim kw)).
  split; [exact (firstOfCase_distinct [] a)|].
  split.
  - apply Forall_forall. intros k Hin.
    apply filterIndexed_In in Hin. destruct Hin as [n [Hn _]].
    apply nth_error_In in Hn. unfold a in Hn. apply filter_In in Hn.
    destruct Hn as [Hn Hk]. split; [|exact Hn].
    apply negb_true_iff, String.eqb_neq in Hk. exact Hk.
  - intros k Hin Hk.
    assert (Ha : In (trim k) a).
    { unfold a. apply filter_In. split; [now apply in_map|].
      now apply negb_true_iff, String.eqb_neq. }
    destruct (findIndex_found
                (fun x => String.eqb (toLowerCase x) (toLowerCase (trim k)))
                a (trim k) Ha (String.eqb_refl _))
      as [n [y [Hidx [Hn Hy]]]].
    apply String.eqb_eq in Hy.
    exists y. split; [|exact Hy].
    apply filterIndexed_In. exists n. split; [exact Hn|].
    rewrite Hy, Hidx. apply Z.eqb_eq. lia.
Qed.

(** X14.  Adding and removing a keyword keep the list unique up to case.
    A keyword that is blank, or equal up to case to one already present,
    is not added: the world stays as it is and nothing is written. *)
Theorem addKeyword_keeps_unique (newKeyword k : string) (w : World) :
  NoDup (map toLowerCase (keywords (state w))) ->
  NoDup (map toLowerCase
           (keywords (state (snd (addKeyword trim toLowerCase newKeyword w))))) /\
  NoDup (map toLowerCase
           (keywords (state (removeKeyword trim toLowerCase k w)))) /\
  (trim newKeyword = "" \/
   In (toLowerCase (trim newKeyword)) (map toLowerCase (keywords (state w))) ->
   snd (addKeyword trim toLowerCase newKeyword w) = w).
Proof.
  intros Hnd.
  split; [|split].
  - unfold addKeyword. destruct (String.eqb (trim newKeyword) ""); [exact Hnd|].
    destruct (existsb _ (keywords (state w))); [exact Hnd|].
    simpl. apply cleanKeywords_distinct.
  - unfold removeKeyword. simpl. apply cleanKeywords_distinct.
  - intros [He | Hin]; unfold addKeyword.
    + rewrite He. reflexivity.
    + destruct (String.eqb (trim newKeyword) ""); [reflexivity|].
      assert (Hex : existsb
                      (fun x => String.eqb (toLowerCase x)
                                           (toLowerCase (trim newKeyword)))
                      (keywords (state w)) = true).
      { apply in_map_iff in Hin. destruct Hin as [x [Hx Hin]].
        apply existsb_exists. exists x. split; [exact Hin|].
        now apply String.eqb_eq. }
      now rewrite Hex.
Qed.

End KeywordProperties.

Lemma addKeyword_keeps_unique_witness :
  NoDup (map lowerString (keywords (state keywordsWorld))) /\
  keywords (state (snd (addKeyword trimSpaces lowerString " Payment "
                          keywordsWorld))) =
    ["invoice"; "Refund"; "Payment"] /\
  snd (addKeyword trimSpaces lowerString " REFUND " keywordsWorld) =
    keywordsWorld /\
  NoDup (map lowerString
           (keywords (state (snd (addKeyword trimSpaces lowerString " Payment "
                                    keywordsWorld))))).
Proof.
  assert (H : NoDup (map lowerString (keywords (state keywordsWorld)))).
  { simpl. repeat constructor; simpl; intuition discriminate. }
  destruct (addKeyword_keeps_unique trimSpaces lowerString " Payment " "x"
              keywordsWorld H) as [H1 _].
  destruct (addKeyword_keeps_unique trimSpaces lowerString " REFUND " "x"
              keywordsWorld H) as [_ [_ H3]].
  split; [exact H|]. split; [reflexivity|].
  split; [apply H3; right; right; left; reflexivity | exact H1].
Defined.

(** ** Reloading *)

(** The steps after the transfers leave accounts and transfers alone and
    set the keywords from their payload. *)
Lemma initialLoad_rest_state N clk w :
  let w' := initialLoad_rest N clk w in
  accounts (state w') = accounts (state w) /\
  transferRecords (state w') = transferRecords (state w) /\
  keywords (state w') =
    match telegram_crm_keywords (store w) with
    | Some (Parsed (KwArray arr)) => onlyStrings arr
    | _ => keywords (state w)
    end.
Proof.
  unfold initialLoad_rest.
  set (w3 := match telegram_crm_keywords (store w) with
             | Some (Parsed (KwArray arr)) => setKeywords (onlyStrings arr) w
             | _ => w
             end).
  assert (H3 : accounts (state w3) = accounts (state w) /\
               transferRecords (state w3) = transferRecords (state w) /\
               keywords (state w3) =
                 match telegram_crm_keywords (store w) with
                 | Some (Parsed (KwArray arr)) => onlyStrings arr
                 | _ => keywords (state w)
                 end).
  { unfold w3. destruct (telegram_crm_keywords (store w)) as [[|[arr|]]|];
      repeat split; reflexivity. }
  set (w4 := load_guarded (telegram_crm_managers (store w3)) setManagers w3).
  assert (H4 : accounts (state w4) = accounts (state w3) /\
               transferRecords (state w4) = transferRecords (state w3) /\
               keywords (state w4) = keywords (state w3)).
  { unfold w4, load_guarded.
    destruct (telegram_crm_managers (store w3)) as [[|v]|];
      repeat split; reflexivity. }
  destruct H3 as [A3 [T3 K3]]. destruct H4 as [A4 [T4 K4]].
  rewrite <- A3, <- T3, <- K3, <- A4, <- T4, <- K4.
  cbv zeta.
  destruct (N _).
  - rewrite migrateToManagers_state. repeat split; reflexivity.
  - destruct (telegram_crm_chats_v2 (store w4)) as [[|v]|].
    + repeat split; reflexivity.
    + repeat split; reflexivity.
    + unfold loadMockData.
      destruct (managers (state w4)); repeat split; reflexivity.
Qed.

(** What a fresh provider reads from a store of the model in a signed-in
    session, when the transfers payload parses or is absent. *)
Lemma initialLoad_reads
    (Number_lt_3 : string -> bool) (clk : Clock) (l : LocalStorage) :
  str_truthy (telegram_crm_logged_in l) = true ->
  telegram_crm_transfers l <> Some Unparseable ->
  exists w',
    initialLoad Number_lt_3 clk (freshWorld l) = Returned w' /\
    accounts (state w') = parse_or_empty (telegram_crm_accounts l) /\
    transferRecords (state w') = parse_or_empty (telegram_crm_transfers l) /\
    keywords (state w') =
      match telegram_crm_keywords l with
      | Some (Parsed (KwArray arr)) => onlyStrings arr
      | _ => []
      end.
Proof.
  intros Hin Ht. unfold initialLoad. simpl store. rewrite Hin. simpl negb.
  cbv iota.
  set (w1 := load_guarded (telegram_crm_accounts l) setAccounts (freshWorld l)).
  assert (H1 : accounts (state w1) = parse_or_empty (telegram_crm_accounts l) /\
               transferRecords (state w1) = [] /\ keywords (state w1) = [] /\
               store w1 = l).
  { unfold w1, load_guarded.
    destruct (telegram_crm_accounts l) as [[|v]|]; repeat split; reflexivity. }
  destruct H1 as [A1 [T1 [K1 S1]]]. rewrite S1.
  destruct (telegram_crm_transfers l) as [[|v]|] eqn:Et; [contradiction | |].
  - eexists. split; [reflexivity|].
    destruct (initialLoad_rest_state Number_lt_3 clk (setTransferRecords v w1))
      as [A [T K]].
    rewrite A, T, K. simpl. rewrite S1, A1, K1. repeat split.
  - eexists. split; [reflexivity|].
    destruct (initialLoad_rest_state Number_lt_3 clk w1) as [A [T K]].
    rewrite A, T, K, S1, A1, T1, K1. repeat split.
Qed.

(** X15.  For a store in which the text under each collection key, where
    there is one, is an array of records of that collection or does not
    parse at all (the stores of the model; a text that parses to something
    else, such as [null] or [{}], is outside this statement: it is put into
    the state as it is, and the migration throws on it), and the keywords
    text is any JSON or none: in a signed-in session whose transfers text
    is not one that fails to parse, the initial load of a fresh provider
    returns, and it holds the stored accounts, the stored transfers and the
    strings of the stored keyword array; an absent text, a text that does
    not parse for accounts or keywords, and a keywords text that is no
    array give the empty list. *)
Theorem initialLoad_loads
    (Number_lt_3 : string -> bool) (clk : Clock) (l : LocalStorage) :
  str_truthy (telegram_crm_logged_in l) = true ->
  telegram_crm_transfers l <> Some Unparseable ->
  exists w',
    initialLoad Number_lt_3 clk (freshWorld l) = Returned w' /\
    accounts (state w') = parse_or_empty (telegram_crm_accounts l) /\
    transferRecords (state w') = parse_or_empty (telegram_crm_transfers l) /\
    keywords (state w') =
      match telegram_crm_keywords l with
      | Some (Parsed (KwArray arr)) => onlyStrings arr
      | _ => []
      end /\
    (telegram_crm_accounts l = None \/
     telegram_crm_accounts l = Some Unparseable -> accounts (state w') = []) /\
    (telegram_crm_transfers l = None -> transferRecords (state w') = []) /\
    (telegram_crm_keywords l = None \/
     telegram_crm_keywords l = Some Unparseable \/
     telegram_crm_keywords l = Some (Parsed KwNotArray) ->
     keywords (state w') = []).
Proof.
  intros Hin Ht.
  destruct (initialLoad_reads Number_lt_3 clk l Hin Ht) as [w' [H1 [H2 [H3 H4]]]].
  exists w'. split; [exact H1|]. split; [exact H2|]. split; [exact H3|].
  split; [exact H4|].
  split; [intros [E | E]; rewrite H2, E; reflexivity|].
  split; [intros E; rewrite H3, E; reflexivity|].
  intros [E | [E | E]]; rewrite H4, E; reflexivity.
Qed.

Lemma initialLoad_loads_witness :
  str_truthy (telegram_crm_logged_in
                (store (addTransferRecord clock0 (mkTransferData 5 6 new None)
                          (setItem_schema_version "3"
                             corruptTransfersWorld)))) = true /\
  exists w',
    initialLoad marker_lt_3 clock1
      (freshWorld
         (store (addTransferRecord clock0 (mkTransferData 5 6 new None)
                   (setItem_schema_version "3" corruptTransfersWorld))))
      = Returned w' /\
    List.length (transferRecords (state w')) = 1%nat.
Proof.
  split; [reflexivity|].
  destruct (initialLoad_loads marker_lt_3 clock1
              (store (addTransferRecord clock0 (mkTransferData 5 6 new None)
                        (setItem_schema_version "3" corruptTransfersWorld))))
    as [w' [H1 [_ [H3 _]]]]; [reflexivity | discriminate |].
  exists w'. split; [exact H1|]. rewrite H3. reflexivity.
Defined.

Lemma onlyStrings_strings (v : list string) : onlyStrings (map KwString v) = v.
Proof. induction v as [|x v IH]; simpl; [reflexivity | now rewrite IH]. Qed.

(** What a run of contact mutators leaves in the store. *)
Lemma runContactOps_store ops :
  forall w,
    telegram_crm_logged_in (store (runContactOps ops w)) =
      telegram_crm_logged_in (store w) /\
    telegram_crm_transfers (store (runContactOps ops w)) =
      telegram_crm_transfers (store w) /\
    (ops <> [] ->
     telegram_crm_accounts (store (runContactOps ops w)) =
       Some (Parsed (accounts (state (runContactOps ops w))))).
Proof.
  induction ops as [|op ops IH]; intros w.
  - repeat split. intros H. contradiction.
  - destruct (IH (runContactOp w op)) as [H1 [H2 H3]].
    change (runContactOps (op :: ops) w)
      with (runContactOps ops (runContactOp w op)).
    assert (Hop : telegram_crm_logged_in (store (runContactOp w op)) =
                    telegram_crm_logged_in (store w) /\
                  telegram_crm_transfers (store (runContactOp w op)) =
                    telegram_crm_transfers (store w) /\
                  telegram_crm_accounts (store (runContactOp w op)) =
                    Some (Parsed (accounts (state (runContactOp w op))))).
    { destruct op; repeat split; reflexivity. }
    destruct Hop as [O1 [O2 O3]].
    rewrite H1, H2, O1, O2. split; [reflexivity|]. split; [reflexivity|].
    intros _. destruct ops as [|op2 ops]; [exact O3|].
    apply H3. discriminate.
Qed.

(** X16.  What the mutators persist is what a reload finds.  In a
    signed-in session, after any non-empty run of contact mutators a fresh
    provider loads exactly the accounts of the state; after adding,
    updating or deleting a transfer it loads exactly the transfers of the
    state; after the context's [setKeywords] it loads the cleaned keyword
    list. *)
Theorem reload_restores
    (Number_lt_3 : string -> bool) (trim toLowerCase : string -> string)
    (clk : Clock) (w : World) :
  str_truthy (telegram_crm_logged_in (store w)) = true ->
  telegram_crm_transfers (store w) <> Some Unparseable ->
  (forall ops, ops <> [] ->
     exists w',
       initialLoad Number_lt_3 clk (freshWorld (store (runContactOps ops w)))
         = Returned w' /\
       accounts (state w') = accounts (state (runContactOps ops w))) /\
  (forall w1,
     (exists c data, w1 = addTransferRecord c data w) \/
     (exists id updates, w1 = updateTransferRecord id updates w) \/
     (exists id, w1 = deleteTransferRecord id w) ->
     exists w',
       initialLoad Number_lt_3 clk (freshWorld (store w1)) = Returned w' /\
       transferRecords (state w') = transferRecords (state w1)) /\
  (forall kw,
     exists w',
       initialLoad Number_lt_3 clk
         (freshWorld (store (value_setKeywords trim toLowerCase kw w)))
         = Returned w' /\
       keywords (state w') = cleanKeywords trim toLowerCase kw).
Proof.
  intros Hin Ht. split; [|split].
  - intros ops Hne.
    destruct (runContactOps_store ops w) as [H1 [H2 H3]].
    destruct (initialLoad_reads Number_lt_3 clk (store (runContactOps ops w)))
      as [w' [Hr [Ha _]]]; [now rewrite H1 | now rewrite H2 |].
    exists w'. split; [exact Hr|]. rewrite Ha, (H3 Hne). reflexivity.
  - intros w1 Hw1.
    assert (Hs : telegram_crm_logged_in (store w1) =
                   telegram_crm_logged_in (store w) /\
                 telegram_crm_transfers (store w1) =
                   Some (Parsed (transferRecords (state w1)))).
    { destruct Hw1 as [[c [data ->]] | [[id [updates ->]] | [id ->]]];
        split; reflexivity. }
    destruct Hs as [S1 S2].
    destruct (initialLoad_reads Number_lt_3 clk (store w1))
      as [w' [Hr [_ [Htr _]]]];
      [now rewrite S1 | rewrite S2; discriminate |].
    exists w'. split; [exact Hr|]. now rewrite Htr, S2.
  - intros kw.
    destruct (initialLoad_reads Number_lt_3 clk
                (store (value_setKeywords trim toLowerCase kw w)))
      as [w' [Hr [_ [_ Hk]]]]; [exact Hin | exact Ht |].
    exists w'. split; [exact Hr|]. rewrite Hk. simpl.
    apply onlyStrings_strings.
Qed.

Lemma reload_restores_witness :
  str_truthy (telegram_crm_logged_in
                (store (setItem_transfers [] corruptTransfersWorld))) = true /\
  exists w',
    initialLoad marker_lt_3 clock1
      (freshWorld
         (store (runContactOps [OpCreateAccountFromChat clock0 annChat 42]
                   (setItem_transfers [] corruptTransfersWorld))))
      = Returned w' /\
    map a_user_id (accounts (state w')) = [42].
Proof.
  split; [reflexivity|].
  destruct (reload_restores marker_lt_3 trimSpaces lowerString clock1
              (setItem_transfers [] corruptTransfersWorld))
    as [H _]; [reflexivity | discriminate |].
  destruct (H [OpCreateAccountFromChat clock0 annChat 42]) as [w' [H1 H2]];
    [discriminate|].
  exists w'. split; [exact H1|]. rewrite H2. reflexivity.
Defined.

(** * Properties of the auth provider *)

Lemma clearAppData_empty l :
  clearAppData (withLoggedIn None l) = emptyStorage.
Proof. reflexivity. Qed.

(** The lock test of [login], read as a proposition. *)
Lemma login_lock_test t aw :
  (match lockedUntil (match readMeta aw with
                      | Some m => m
                      | None => mkLoginMeta 0 None
                      end) with
   | Some until => num_truthy (Some until) && (t <? until)
   | None => false
   end = true) <-> lockedAt t aw.
Proof.
  unfold lockedAt. split.
  - destruct (readMeta aw) as [m|] eqn:Em; simpl; [|discriminate].
    destruct (lockedUntil m) as [u|] eqn:Eu; [|discriminate].
    intros H. apply andb_true_iff in H. destruct H as [H1 H2].
    exists m, u. repeat split; auto.
    + apply negb_true_iff, Z.eqb_neq in H1. exact H1.
    + now apply Z.ltb_lt.
  - intros [m [u [Hm [Hu [Hne Hlt]]]]]. rewrite Hm, Hu. simpl.
    apply andb_true_iff. split.
    + now apply negb_true_iff, Z.eqb_neq.
    + now apply Z.ltb_lt.
Qed.

Lemma login_lock_test_false t aw :
  unlockedAt t aw ->
  match lockedUntil (match readMeta aw with
                     | Some m => m
                     | None => mkLoginMeta 0 None
                     end) with
  | Some until => num_truthy (Some until) && (t <? until)
  | None => false
  end = false.
Proof.
  intros Hu. apply not_true_is_false. intros H.
  apply login_lock_test in H. destruct H as [m [u [Hm [Hl [Hne Hlt]]]]].
  destruct (Hu m u Hm Hl); [contradiction | lia].
Qed.

(** X17.  While the login is locked, [login] sends no request and returns
    false whatever the server would answer; the login meta, the stored
    keys, the session flag and the user are as before, and the lock is
    shown. *)
Theorem login_locked_silent
    (t_call t_reply : Z) (reply : LoginReply) (aw : AuthWorld) :
  lockedAt t_call aw ->
  exists aw',
    login t_call t_reply reply aw = (false, [], aw') /\
    login_meta aw' = login_meta aw /\
    app_store aw' = app_store aw /\
    isAuthenticated (auth aw') = isAuthenticated (auth aw) /\
    user (auth aw') = user (auth aw) /\
    loginLocked (auth aw') = true /\
    error (auth aw') = Some tooManyAttempts.
Proof.
  intros Hl. apply login_lock_test in Hl.
  unfold login. rewrite Hl.
  eexists. split; [reflexivity|]. repeat split.
Qed.

Lemma login_locked_silent_witness :
  lockedAt 1700000100000 lockedAuth /\
  exists aw',
    login 1700000100000 1700000100200 (LoginAccepted "{}") lockedAuth
      = (false, [], aw') /\
    login_meta aw' = login_meta lockedAuth.
Proof.
  assert (H : lockedAt 1700000100000 lockedAuth).
  { exists (mkLoginMeta 5 (Some 1700000300000)), 1700000300000.
    split; [reflexivity|]. split; [reflexivity|].
    split; [discriminate | reflexivity]. }
  split; [exact H|].
  destruct (login_locked_silent 1700000100000 1700000100200
              (LoginAccepted "{}") lockedAuth H) as [aw' [H1 [H2 _]]].
  exists aw'. split; [exact H1 | exact H2].
Defined.

(** A login the server turns down while no lock is active counts one
    attempt, whatever the body of the answer: the meta holds the attempts
    on record plus one, with a lock of five minutes from the time of the
    answer when that reaches five and none before. *)
Lemma login_rejected_meta (t_call t_reply : Z) (reply : LoginReply) (aw : AuthWorld) :
  unlockedAt t_call aw ->
  isRejection reply ->
  exists aw',
    login t_call t_reply reply aw = (false, [GetCsrfToken; PostLogin], aw') /\
    readMeta aw' =
      Some (mkLoginMeta (storedAttempts aw + 1)
              (if 5 <=? storedAttempts aw + 1
               then Some (t_reply + 300000) else None)).
Proof.
  intros Hu Hrej. apply login_lock_test_false in Hu.
  unfold login. rewrite Hu. unfold storedAttempts.
  set (meta := match readMeta aw with
               | Some m => m
               | None => mkLoginMeta 0 None
               end).
  assert (Hatt : match readMeta aw with
                 | Some m => attempts m
                 | None => 0
                 end = attempts meta)
    by (unfold meta; destruct (readMeta aw); reflexivity).
  rewrite Hatt.
  assert (Hcore : forall detail,
    readMeta (loginRejected t_reply meta detail aw) =
      Some (mkLoginMeta (attempts meta + 1)
              (if 5 <=? attempts meta + 1
               then Some (t_reply + 300000) else None))).
  { intros detail. unfold loginRejected, MAX_ATTEMPTS, LOCK_MINUTES.
    destruct (5 <=? attempts meta + 1); reflexivity. }
  destruct reply as [| | u | detail | |]; simpl in Hrej; try contradiction.
  - eexists. split; [reflexivity | apply Hcore].
  - eexists. split; [reflexivity | apply Hcore].
  - eexists. split; [reflexivity|].
    unfold loginRejectedNull, loginRejected, MAX_ATTEMPTS, LOCK_MINUTES.
    destruct (5 <=? attempts meta + 1); reflexivity.
Qed.

(** While the login is locked [login] refuses without a request. *)
Lemma login_while_locked (t_call t_reply : Z) (reply : LoginReply) (aw : AuthWorld) :
  lockedAt t_call aw ->
  fst (login t_call t_reply reply aw) = (false, []).
Proof.
  intros Hl. apply login_lock_test in Hl. unfold login. now rewrite Hl.
Qed.

(** X18.  A login the server turns down while no lock is active returns
    false after both requests and counts one attempt: the meta holds the
    attempts on record plus one.  When that reaches five the login is
    locked for five minutes from the time of the answer, the session is
    ended and every application key is removed, whatever the body of the
    answer.  Below five no lock is written; the session is ended and every
    application key is removed when the body has a readable [detail] or is
    not JSON at all, but when the body is the JSON text [null] the handler
    breaks off after counting: the connection error is shown and the
    session, the user and the stored keys stay as they were. *)
Theorem login_rejected_counts
    (t_call t_reply : Z) (reply : LoginReply) (aw : AuthWorld) :
  unlockedAt t_call aw ->
  isRejection reply ->
  exists aw',
    login t_call t_reply reply aw = (false, [GetCsrfToken; PostLogin], aw') /\
    readMeta aw' =
      Some (mkLoginMeta (storedAttempts aw + 1)
              (if 5 <=? storedAttempts aw + 1
               then Some (t_reply + 300000) else None)) /\
    (5 <= storedAttempts aw + 1 ->
       loginLocked (auth aw') = true /\
       error (auth aw') = Some tooManyAttempts /\
       app_store aw' = emptyStorage /\
       isAuthenticated (auth aw') = false /\
       user (auth aw') = None) /\
    (storedAttempts aw + 1 < 5 -> reply <> LoginRejectedNull ->
       error (auth aw') = Some (rejectionShown reply) /\
       app_store aw' = emptyStorage /\
       isAuthenticated (auth aw') = false /\
       user (auth aw') = None) /\
    (storedAttempts aw + 1 < 5 -> reply = LoginRejectedNull ->
       error (auth aw') = Some "Ошибка подключения к серверу" /\
       app_store aw' = app_store aw /\
       isAuthenticated (auth aw') = isAuthenticated (auth aw) /\
       user (auth aw') = user (auth aw) /\
       loginLocked (auth aw') = loginLocked (auth aw)).
Proof.
  intros Hu Hrej.
  destruct (login_rejected_meta t_call t_reply reply aw Hu Hrej)
    as [aw' [Hlog Hmeta]].
  exists aw'. split; [exact Hlog|]. split; [exact Hmeta|].
  apply login_lock_test_false in Hu.
  unfold login in Hlog. rewrite Hu in Hlog.
  unfold storedAttempts.
  set (meta := match readMeta aw with
               | Some m => m
               | None => mkLoginMeta 0 None
               end) in *.
  assert (Hatt : match readMeta aw with
                 | Some m => attempts m
                 | None => 0
                 end = attempts meta)
    by (unfold meta; destruct (readMeta aw); reflexivity).
  rewrite Hatt.
  destruct reply as [| | u | detail | |]; simpl in Hrej; try contradiction;
    injection Hlog as <-;
    unfold loginRejectedNull, loginRejected, MAX_ATTEMPTS, LOCK_MINUTES;
    destruct (5 <=? attempts meta + 1) eqn:E;
    [ apply Z.leb_le in E | apply Z.leb_gt in E
    | apply Z.leb_le in E | apply Z.leb_gt in E
    | apply Z.leb_le in E | apply Z.leb_gt in E ];
    (split; [intros H; try lia; repeat split|]);
    (split; [intros H Hn; try lia; try congruence; repeat split|]);
    intros H Hn; try lia; try discriminate; repeat split.
Qed.

Lemma login_rejected_counts_witness :
  unlockedAt 1700000000000 signedInAuth /\
  isRejection LoginRejectedNull /\
  exists aw',
    login 1700000000000 1700000000200 LoginRejectedNull signedInAuth
      = (false, [GetCsrfToken; PostLogin], aw') /\
    readMeta aw' = Some (mkLoginMeta 1 None) /\
    app_store aw' = app_store signedInAuth /\
    isAuthenticated (auth aw') = true.
Proof.
  assert (H : unlockedAt 1700000000000 signedInAuth).
  { intros m u Hm. discriminate. }
  split; [exact H|]. split; [exact I|].
  destruct (login_rejected_counts 1700000000000 1700000000200
              LoginRejectedNull signedInAuth H I)
    as [aw' [H1 [H2 [_ [_ H5]]]]].
  exists aw'. split; [exact H1|]. split; [exact H2|].
  destruct H5 as [_ [H6 [H7 _]]]; [reflexivity | reflexivity |].
  split; [exact H6 | exact H7].
Defined.

(** Rejections below the limit only count. *)
Lemma loginRun_counts (tries : list LoginTry) :
  forall aw,
    (forall m, readMeta aw = Some m -> lockedUntil m = None) ->
    Forall isRejectedTry tries ->
    storedAttempts aw + Z.of_nat (List.length tries) < 5 ->
    tries <> [] ->
    readMeta (loginRun tries aw) =
      Some (mkLoginMeta (storedAttempts aw + Z.of_nat (List.length tries)) None).
Proof.
  induction tries as [|t tries IH]; intros aw Hno Hall Hlt Hne; [contradiction|].
  apply Forall_cons_iff in Hall. destruct Hall as [Ht Hall].
  assert (Hun : unlockedAt (try_call t) aw).
  { intros m u Hm Hu. rewrite (Hno m Hm) in Hu. discriminate. }
  destruct (login_rejected_meta (try_call t) (try_answer t) (try_reply t)
              aw Hun Ht) as [aw' [Hlog Hmeta]].
  change (loginRun (t :: tries) aw) with (loginRun tries (loginTry aw t)).
  assert (Haw : loginTry aw t = aw') by (unfold loginTry; now rewrite Hlog).
  rewrite Haw.
  simpl List.length in Hlt. rewrite Nat2Z.inj_succ in Hlt.
  assert (E : (5 <=? storedAttempts aw + 1) = false) by (apply Z.leb_gt; lia).
  rewrite E in Hmeta.
  destruct tries as [|t2 tries].
  - simpl. rewrite Hmeta. reflexivity.
  - rewrite IH.
    + unfold storedAttempts at 1. rewrite Hmeta. simpl attempts.
      f_equal. f_equal. simpl List.length. lia.
    + intros m Hm. rewrite Hmeta in Hm. injection Hm as <-. reflexivity.
    + exact Hall.
    + unfold storedAttempts. rewrite Hmeta. simpl attempts.
      simpl List.length in *. lia.
    + discriminate.
Qed.

(** X19.  Starting without a login meta, four rejected logins in a row
    leave the login open with four attempts on record; the fifth locks it
    for five minutes from its answer, and until then every further call is
    refused without a request. *)
Theorem five_rejections_lock
    (before : list LoginTry) (last : LoginTry) (aw : AuthWorld) :
  readMeta aw = None ->
  List.length before = 4%nat ->
  Forall isRejectedTry (before ++ [last]) ->
  readMeta (loginRun before aw) = Some (mkLoginMeta 4 None) /\
  readMeta (loginRun (before ++ [last]) aw) =
    Some (mkLoginMeta 5 (Some (try_answer last + 300000))) /\
  (forall t_call t_reply reply,
     t_call < try_answer last + 300000 ->
     try_answer last + 300000 <> 0 ->
     fst (login t_call t_reply reply (loginRun (before ++ [last]) aw)) =
       (false, [])).
Proof.
  intros Hnone Hlen Hall.
  apply Forall_app in Hall. destruct Hall as [Hbefore Hlast].
  apply Forall_cons_iff in Hlast. destruct Hlast as [Hlast _].
  assert (H0 : storedAttempts aw = 0) by (unfold storedAttempts; now rewrite Hnone).
  assert (H4 : readMeta (loginRun before aw) = Some (mkLoginMeta 4 None)).
  { rewrite (loginRun_counts before aw).
    - rewrite H0, Hlen. reflexivity.
    - intros m Hm. rewrite Hnone in Hm. discriminate.
    - exact Hbefore.
    - rewrite H0, Hlen. reflexivity.
    - intros E. rewrite E in Hlen. discriminate. }
  assert (H5 : readMeta (loginRun (before ++ [last]) aw) =
               Some (mkLoginMeta 5 (Some (try_answer last + 300000)))).
  { unfold loginRun. rewrite fold_left_app. simpl.
    fold (loginRun before aw).
    assert (Hun : unlockedAt (try_call last) (loginRun before aw)).
    { intros m u Hm Hu. rewrite H4 in Hm. injection Hm as <-. discriminate. }
    destruct (login_rejected_meta (try_call last) (try_answer last)
                (try_reply last) _ Hun Hlast) as [aw' [Hlog Hmeta]].
    unfold loginTry. rewrite Hlog. simpl snd. rewrite Hmeta.
    unfold storedAttempts. rewrite H4. reflexivity. }
  split; [exact H4|]. split; [exact H5|].
  intros t_call t_reply reply Hlt Hnz.
  assert (Hl : lockedAt t_call (loginRun (before ++ [last]) aw)).
  { exists (mkLoginMeta 5 (Some (try_answer last + 300000))),
           (try_answer last + 300000). now repeat split. }
  now apply login_while_locked.
Qed.

Lemma five_rejections_lock_witness :
  readMeta signedInAuth = None /\
  Forall isRejectedTry
    ([rejectedTry 1700000000000; rejectedTry 1700000001000;
      rejectedTry 1700000002000; rejectedTry 1700000003000]
     ++ [rejectedTry 1700000004000]) /\
  readMeta
    (loginRun ([rejectedTry 1700000000000; rejectedTry 1700000001000;
                rejectedTry 1700000002000; rejectedTry 1700000003000]
               ++ [rejectedTry 1700000004000]) signedInAuth) =
    Some (mkLoginMeta 5 (Some (try_answer (rejectedTry 1700000004000) + 300000))).
Proof.
  assert (H : Forall isRejectedTry
    ([rejectedTry 1700000000000; rejectedTry 1700000001000;
      rejectedTry 1700000002000; rejectedTry 1700000003000]
     ++ [rejectedTry 1700000004000])) by (repeat constructor).
  split; [reflexivity|]. split; [exact H|].
  exact (proj1 (proj2 (five_rejections_lock
           [rejectedTry 1700000000000; rejectedTry 1700000001000;
            rejectedTry 1700000002000; rejectedTry 1700000003000]
           (rejectedTry 1700000004000) signedInAuth eq_refl eq_refl H))).
Defined.

(** X20.  A login that fails on the way (the token or the login request
    does not come through) counts no attempt and drops nothing: meta, store
    and session are as before.  An accepted login records zero attempts
    without a lock, sets the login key and leaves every other key alone. *)
Theorem login_not_rejected
    (t_call t_reply : Z) (userData : string) (aw : AuthWorld) :
  unlockedAt t_call aw ->
  (forall reply, reply = CsrfFailed \/ reply = LoginFailed ->
     exists reqs aw',
       login t_call t_reply reply aw = (false, reqs, aw') /\
       login_meta aw' = login_meta aw /\
       app_store aw' = app_store aw /\
       isAuthenticated (auth aw') = isAuthenticated (auth aw) /\
       user (auth aw') = user (auth aw)) /\
  (exists aw',
     login t_call t_reply (LoginAccepted userData) aw =
       (true, [GetCsrfToken; PostLogin], aw') /\
     readMeta aw' = Some (mkLoginMeta 0 None) /\
     app_store aw' = withLoggedIn (Some "true") (app_store aw) /\
     isAuthenticated (auth aw') = true /\
     user (auth aw') = Some userData /\
     error (auth aw') = None /\
     forall t, unlockedAt t aw').
Proof.
  intros Hu. apply login_lock_test_false in Hu.
  split.
  - intros reply [-> | ->]; unfold login; rewrite Hu;
      eexists; eexists; (split; [reflexivity|]); repeat split.
  - unfold login. rewrite Hu. eexists. split; [reflexivity|].
    repeat split. intros t m u Hm Hl. simpl in Hm. injection Hm as <-.
    discriminate.
Qed.

Lemma login_not_rejected_witness :
  unlockedAt 1700000400000 lockedAuth /\
  exists aw',
    login 1700000400000 1700000400200 (LoginAccepted "{}") lockedAuth =
      (true, [GetCsrfToken; PostLogin], aw') /\
    readMeta aw' = Some (mkLoginMeta 0 None).
Proof.
  assert (H : unlockedAt 1700000400000 lockedAuth).
  { intros m u Hm Hl. simpl in Hm. injection Hm as <-.
    simpl in Hl. injection Hl as <-. right. discriminate. }
  split; [exact H|].
  destruct (login_not_rejected 1700000400000 1700000400200 "{}" lockedAuth H)
    as [_ [aw' [H1 [H2 _]]]].
  exists aw'. split; [exact H1 | exact H2].
Defined.

Lemma ceil_div_bounds d :
  0 < d ->
  (ceil_div d 1000 - 1) * 1000 < d <= ceil_div d 1000 * 1000.
Proof.
  intros Hd. unfold ceil_div.
  pose proof (Z.div_mod (- d) 1000 ltac:(lia)) as Hdm.
  pose proof (Z.mod_pos_bound (- d) 1000 ltac:(lia)) as Hb.
  lia.
Qed.

(** X21.  While a lock is active the one-second tick shows it together
    with the seconds left, rounded up: at least one, and the number of
    seconds that just covers the time to the end of the lock.  For a lock
    that [login] set no more than five minutes ago this is at most 300.
    The meta is not touched. *)
Theorem lockTick_remaining (now : Z) (aw : AuthWorld) (meta : LoginMeta) (until : Z) :
  readMeta aw = Some meta ->
  lockedUntil meta = Some until ->
  until <> 0 ->
  now < until ->
  let aw' := lockTick now aw in
  loginLocked (auth aw') = true /\
  1 <= lockRemainingSeconds (auth aw') /\
  (lockRemainingSeconds (auth aw') - 1) * 1000 < until - now
    <= lockRemainingSeconds (auth aw') * 1000 /\
  (until - now <= 300000 -> lockRemainingSeconds (auth aw') <= 300) /\
  login_meta aw' = login_meta aw /\
  app_store aw' = app_store aw.
Proof.
  intros Hm Hu Hnz Hlt aw'.
  assert (Haw : aw' =
    mkAuthWorld
      (mkAuthState (isAuthenticated (auth aw)) (loading (auth aw))
         (error (auth aw)) true (ceil_div (until - now) 1000) (user (auth aw)))
      (login_meta aw) (app_store aw)).
  { unfold aw', lockTick. rewrite Hm, Hu. simpl.
    apply Z.eqb_neq in Hnz. rewrite Hnz. simpl.
    apply Z.ltb_lt in Hlt. now rewrite Hlt. }
  rewrite Haw. simpl.
  pose proof (ceil_div_bounds (until - now) ltac:(lia)) as Hb.
  repeat split; try lia.
Qed.

Lemma lockTick_remaining_witness :
  readMeta lockedAuth = Some (mkLoginMeta 5 (Some 1700000300000)) /\
  lockRemainingSeconds (auth (lockTick 1700000299001 lockedAuth)) = 1 /\
  lockRemainingSeconds (auth (lockTick 1700000000001 lockedAuth)) = 300 /\
  let aw' := lockTick 1700000000001 lockedAuth in
  loginLocked (auth aw') = true /\
  1 <= lockRemainingSeconds (auth aw') /\
  (lockRemainingSeconds (auth aw') - 1) * 1000 < 1700000300000 - 1700000000001
    <= lockRemainingSeconds (auth aw') * 1000 /\
  (1700000300000 - 1700000000001 <= 300000 ->
   lockRemainingSeconds (auth aw') <= 300) /\
  login_meta aw' = login_meta lockedAuth /\
  app_store aw' = app_store lockedAuth.
Proof.
  split; [reflexivity|]. split; [reflexivity|]. split; [reflexivity|].
  apply (lockTick_remaining 1700000000001 lockedAuth
           (mkLoginMeta 5 (Some 1700000300000)) 1700000300000);
    [reflexivity | reflexivity | discriminate | reflexivity].
Defined.

(** X22.  Once a lock has run out, the tick clears it: the meta records
    zero attempts and no lock, so a login the server then turns down is
    counted as the first.  [login] itself does not clear an expired lock:
    turned down before the tick has run, with five attempts on record, it
    locks again at once. *)
Theorem expired_lock
    (now t_call t_reply : Z) (reply : LoginReply)
    (aw : AuthWorld) (meta : LoginMeta) (until : Z) :
  readMeta aw = Some meta ->
  lockedUntil meta = Some until ->
  until <> 0 ->
  until <= now ->
  now <= t_call ->
  5 <= attempts meta ->
  isRejection reply ->
  readMeta (lockTick now aw) = Some (mkLoginMeta 0 None) /\
  loginLocked (auth (lockTick now aw)) = false /\
  lockRemainingSeconds (auth (lockTick now aw)) = 0 /\
  readMeta (snd (login t_call t_reply reply (lockTick now aw))) =
    Some (mkLoginMeta 1 None) /\
  readMeta (snd (login t_call t_reply reply aw)) =
    Some (mkLoginMeta (attempts meta + 1) (Some (t_reply + 300000))).
Proof.
  intros Hm Hu Hnz Hexp Hcall Hatt Hrej.
  assert (Htick : lockTick now aw =
    mkAuthWorld
      (mkAuthState (isAuthenticated (auth aw)) (loading (auth aw))
         (error (auth aw)) false 0 (user (auth aw)))
      (Some (Parsed (mkLoginMeta 0 None))) (app_store aw)).
  { unfold lockTick. rewrite Hm, Hu. simpl.
    apply Z.eqb_neq in Hnz. rewrite Hnz. simpl.
    assert (E : (now <? until) = false) by (apply Z.ltb_ge; lia).
    now rewrite E. }
  split; [now rewrite Htick|]. split; [now rewrite Htick|].
  split; [now rewrite Htick|].
  split.
  - assert (Hun : unlockedAt t_call (lockTick now aw)).
    { rewrite Htick. intros m u H1 H2. simpl in H1. injection H1 as <-.
      discriminate. }
    destruct (login_rejected_meta t_call t_reply reply _ Hun Hrej)
      as [aw' [Hlog Hmeta]].
    rewrite Hlog. simpl snd. rewrite Hmeta, Htick. reflexivity.
  - assert (Hun : unlockedAt t_call aw).
    { intros m u H1 H2. rewrite Hm in H1. injection H1 as <-.
      rewrite Hu in H2. injection H2 as <-. right. lia. }
    destruct (login_rejected_meta t_call t_reply reply _ Hun Hrej)
      as [aw' [Hlog Hmeta]].
    rewrite Hlog. simpl snd. rewrite Hmeta.
    unfold storedAttempts. rewrite Hm.
    assert (E : (5 <=? attempts meta + 1) = true) by (apply Z.leb_le; lia).
    now rewrite E.
Qed.

Lemma expired_lock_witness :
  readMeta lockedAuth = Some (mkLoginMeta 5 (Some 1700000300000)) /\
  isRejection (LoginRejected None) /\
  readMeta (lockTick 1700000300000 lockedAuth) = Some (mkLoginMeta 0 None) /\
  readMeta (snd (login 1700000300500 1700000300700 (LoginRejected None)
                   (lockTick 1700000300000 lockedAuth))) =
    Some (mkLoginMeta 1 None) /\
  readMeta (snd (login 1700000300500 1700000300700 (LoginRejected None)
                   lockedAuth)) =
    Some (mkLoginMeta 6 (Some (1700000300700 + 300000))).
Proof.
  split; [reflexivity|]. split; [exact I|].
  destruct (expired_lock 1700000300000 1700000300500 1700000300700
              (LoginRejected None) lockedAuth
              (mkLoginMeta 5 (Some 1700000300000)) 1700000300000)
    as [H1 [_ [_ [H4 H5]]]];
    [reflexivity | reflexivity | discriminate | simpl; lia | lia | simpl; lia
     | exact I |].
  split; [exact H1|]. split; [exact H4 | exact H5].
Defined.

(** X23.  [checkAuth] ends with a session exactly when the login key held
    'true' and the server confirmed it.  Without that key no request is
    sent and the store is left alone; with it, a server that does not
    confirm makes the provider remove every application key.  Loading is
    over in every case. *)
Theorem checkAuth_session (reply : MeReply) (aw : AuthWorld) :
  let r := checkAuth reply aw in
  (isAuthenticated (auth (snd r)) = true <->
   telegram_crm_logged_in (app_store aw) = Some "true" /\
   exists userData, reply = MeOk userData) /\
  (telegram_crm_logged_in (app_store aw) <> Some "true" ->
   fst r = [] /\ app_store (snd r) = app_store aw) /\
  (telegram_crm_logged_in (app_store aw) = Some "true" ->
   fst r = [GetMe] /\
   ((forall userData, reply <> MeOk userData) ->
    app_store (snd r) = emptyStorage)) /\
  (isAuthenticated (auth (snd r)) = true ->
   telegram_crm_logged_in (app_store (snd r)) = Some "true") /\
  loading (auth (snd r)) = false /\
  login_meta (snd r) = login_meta aw.
Proof.
  unfold checkAuth.
  destruct (opt_string_eqb (telegram_crm_logged_in (app_store aw)) (Some "true"))
    eqn:E.
  - apply opt_string_eqb_eq in E. simpl negb. cbv iota.
    destruct reply as [u | |]; simpl.
    + split; [split; [intros _; split; [exact E | eauto] | reflexivity]|].
      split; [intros H; contradiction|].
      split; [intros _; split; [reflexivity|]; intros H; now specialize (H u)|].
      repeat split.
    + split; [split; [discriminate | intros [_ [u Hu]]; discriminate]|].
      split; [intros H; contradiction|].
      split; [intros _; split; reflexivity|].
      split; [discriminate | split; reflexivity].
    + split; [split; [discriminate | intros [_ [u Hu]]; discriminate]|].
      split; [intros H; contradiction|].
      split; [intros _; split; reflexivity|].
      split; [discriminate | split; reflexivity].
  - assert (Hne : telegram_crm_logged_in (app_store aw) <> Some "true").
    { intros H. apply opt_string_eqb_eq in H. congruence. }
    simpl.
    split; [split; [discriminate | intros [H _]; contradiction]|].
    split; [intros _; split; reflexivity|].
    split; [intros H; contradiction|].
    split; [discriminate | split; reflexivity].
Qed.

(** X24.  After [logout] no application key is left in the store, the
    login key included, and the session is over; a provider mounted on that
    store returns from its initial load at once, leaving its state as it is
    and writing nothing. *)
Theorem logout_clears
    (Number_lt_3 : string -> bool) (clk : Clock) (aw : AuthWorld)
    (s : AppState) (log : list StoreKey) :
  let aw' := snd (logout aw) in
  app_store aw' = emptyStorage /\
  isAuthenticated (auth aw') = false /\
  user (auth aw') = None /\
  login_meta aw' = login_meta aw /\
  initialLoad Number_lt_3 clk (mkWorld s (app_store aw') log) =
    Returned (mkWorld s emptyStorage log).
Proof. repeat split. Qed.

(** * Properties of callers *)

(** ** Opening chats *)

(** The reconciler keeps every count at one or more. *)
Lemma createAccountFromChat_counts st clk chat senderId (prev : list Account) :
  Forall (fun a => 1 <= a_total_messages a) prev ->
  Forall (fun a => 1 <= a_total_messages a)
         (createAccountFromChat_updater st clk chat senderId prev).
Proof.
  intros H. unfold createAccountFromChat_updater.
  destruct (find _ prev) as [e|].
  - apply Forall_forall. intros x Hx. apply in_map_iff in Hx.
    destruct Hx as [y [<- Hy]]. rewrite Forall_forall in H.
    specialize (H y Hy). destruct (a_id y =? a_id e); simpl; lia.
  - apply Forall_app. split; [exact H|]. repeat constructor. simpl. lia.
Qed.

(** Choosing the active chat touches neither the accounts nor the active
    manager. *)
Lemma setActiveChat_frame v w :
  user_ids (setActiveChat v w) = user_ids w /\
  accounts (state (setActiveChat v w)) = accounts (state w) /\
  activeManager (state (setActiveChat v w)) = activeManager (state w) /\
  activeChat (state (setActiveChat v w)) = v.
Proof. repeat split. Qed.

(** Nor does the reconciler touch the active manager. *)
Lemma createAccountFromChat_manager clk chat senderId w :
  activeManager (state (createAccountFromChat clk chat senderId w)) =
  activeManager (state w).
Proof. reflexivity. Qed.

(** What one event keeps: a manager is active, the external ids are
    pairwise distinct, the chats processed by the mounted component are
    among them, and every count is at least one. *)
Lemma chatViewStep_keeps mounted w (e : Clock * ChatEvent) :
  activeManager (state w) <> None ->
  NoDup (user_ids w) ->
  (forall p, mounted = Some p -> incl p (user_ids w)) ->
  Forall (fun a => 1 <= a_total_messages a) (accounts (state w)) ->
  let r := chatViewStep (mounted, w) e in
  activeManager (state (snd r)) <> None /\
  NoDup (user_ids (snd r)) /\
  (forall p, fst r = Some p -> incl p (user_ids (snd r))) /\
  Forall (fun a => 1 <= a_total_messages a) (accounts (state (snd r))) /\
  (forall id, In id (user_ids (snd r)) <->
              In id (user_ids w) \/ In id (clickedIds [e])).
Proof.
  intros Hmgr Hnd Hincl Hone r.
  destruct e as [clk [chat | | m]]; unfold r, chatViewStep;
    cbn [fst snd handleChatEvent clickedIds flat_map app].
  - destruct (setActiveChat_frame (Some chat) w) as [F1 [F2 [F3 F4]]].
    unfold renderChatWindow. rewrite F3, F4.
    destruct (activeManager (state w)) as [am|] eqn:Eam; [|contradiction].
    set (processed := match mounted with Some p => p | None => [] end).
    assert (Hp : incl processed (user_ids w)).
    { unfold processed. destruct mounted as [p|]; [now apply Hincl|].
      intros x []. }
    unfold ChatMessages_effect. rewrite F4.
    destruct (existsb (Z.eqb (c_id chat)) processed) eqn:E; cbn [negb fst snd].
    + rewrite F1, F2, F3.
      split; [discriminate|]. split; [exact Hnd|].
      split; [intros p Hq; injection Hq as <-; exact Hp|].
      split; [exact Hone|].
      intros id. cbn [In]. split; [tauto|].
      intros [H | [<- | []]]; [exact H|].
      apply existsb_exists in E. destruct E as [x [Hx Hxe]].
      apply Z.eqb_eq in Hxe. subst x. now apply Hp.
    + assert (Hids : user_ids (createAccountFromChat clk chat (c_id chat)
                                 (setActiveChat (Some chat) w)) =
                     match find (fun acc => a_user_id acc =? c_id chat)
                                (accounts (state w)) with
                     | Some _ => user_ids w
                     | None => user_ids w ++ [c_id chat]
                     end).
      { unfold user_ids. rewrite accounts_createAccountFromChat.
        now rewrite createAccountFromChat_user_ids. }
      rewrite createAccountFromChat_manager, F3.
      split; [discriminate|].
      rewrite Hids, accounts_createAccountFromChat, F2.
      destruct (find (fun acc => a_user_id acc =? c_id chat) (accounts (state w)))
        as [x|] eqn:Ef.
      * assert (Hheld : In (c_id chat) (user_ids w)).
        { apply find_some in Ef. destruct Ef as [Hin Heq].
          apply Z.eqb_eq in Heq. rewrite <- Heq. unfold user_ids.
          now apply in_map. }
        split; [exact Hnd|].
        split.
        { intros p Hq. injection Hq as <-. apply incl_app; [exact Hp|].
          intros y [<- | []]. exact Hheld. }
        split; [now apply createAccountFromChat_counts|].
        intros id. cbn [In]. split; [tauto|].
        intros [H | [<- | []]]; [exact H | exact Hheld].
      * split; [apply NoDup_snoc; [exact Hnd | now apply find_user_id_none]|].
        split.
        { intros p Hq. injection Hq as <-. apply incl_app.
          - intros y Hy. apply in_app_iff. left. now apply Hp.
          - intros y [<- | []]. apply in_app_iff. right. now left. }
        split; [now apply createAccountFromChat_counts|].
        intros id. rewrite in_app_iff. cbn [In]. tauto.
  - destruct (setActiveChat_frame None w) as [F1 [F2 [F3 F4]]].
    unfold renderChatWindow. rewrite F3, F4.
    destruct (activeManager (state w)) as [am|] eqn:Eam; [|contradiction].
    cbn [fst snd]. rewrite F1, F2, F3.
    split; [discriminate|]. split; [exact Hnd|].
    split; [discriminate|]. split; [exact Hone|].
    intros id. cbn [In]. tauto.
  - assert (Hw : exists w1,
              handleChatEvent (ManagerClicked m) w = w1 /\
              activeManager (state w1) = Some m /\
              activeChat (state w1) = None /\
              accounts (state w1) = accounts (state w)).
    { eexists. split; [reflexivity|]. unfold handleChatEvent, value_setActiveManager.
      destruct (activeChat (state w)) as [ac|];
        [destruct (negb (id_is (c_manager_id ac) (m_id m)))|];
        repeat split. }
    destruct Hw as [w1 [Hw1 [Ham [Hac Hacc]]]].
    cbn [handleChatEvent] in Hw1. rewrite Hw1.
    unfold renderChatWindow. rewrite Ham, Hac. cbn [fst snd].
    unfold user_ids. rewrite Hacc, Ham.
    split; [discriminate|]. split; [exact Hnd|].
    split; [discriminate|]. split; [exact Hone|].
    intros id. cbn [In]. tauto.
Qed.

(** While the component stays mounted the processed chats are exactly the
    external ids held, and every count is one. *)
Lemma chatViewStep_click mounted w clk chat :
  activeManager (state w) <> None ->
  user_ids w = match mounted with Some p => p | None => [] end ->
  Forall (fun a => a_total_messages a = 1) (accounts (state w)) ->
  let r := chatViewStep (mounted, w) (clk, ChatClicked chat) in
  activeManager (state (snd r)) <> None /\
  fst r = Some (user_ids (snd r)) /\
  Forall (fun a => a_total_messages a = 1) (accounts (state (snd r))).
Proof.
  intros Hmgr Hids Hone r. unfold r, chatViewStep.
  cbn [fst snd handleChatEvent].
  destruct (setActiveChat_frame (Some chat) w) as [F1 [F2 [F3 F4]]].
  unfold renderChatWindow. rewrite F3, F4.
  destruct (activeManager (state w)) as [am|] eqn:Eam; [|contradiction].
  rewrite <- Hids. unfold ChatMessages_effect. rewrite F4.
  destruct (existsb (Z.eqb (c_id chat)) (user_ids w)) eqn:E; cbn [negb fst snd].
  - rewrite F1, F2, F3. split; [discriminate|].
    split; [reflexivity | exact Hone].
  - assert (Hfind : find (fun acc => a_user_id acc =? c_id chat)
                         (accounts (state w)) = None).
    { destruct (find _ (accounts (state w))) as [x|] eqn:Ef; [|reflexivity].
      exfalso. apply (existsb_eqb_false _ _ E).
      apply find_some in Ef. destruct Ef as [Hin Heq].
      apply Z.eqb_eq in Heq. rewrite <- Heq. unfold user_ids.
      now apply in_map. }
    rewrite createAccountFromChat_manager, F3.
    split; [discriminate|].
    split.
    + unfold user_ids at 2. rewrite accounts_createAccountFromChat.
      rewrite createAccountFromChat_user_ids, F2. now rewrite Hfind.
    + rewrite accounts_createAccountFromChat, F2.
      unfold createAccountFromChat_updater. rewrite Hfind.
      apply Forall_app. split; [exact Hone|]. repeat constructor.
Qed.

(** A chat clicked, left by the back button and clicked again: the second
    mount starts with an empty processed set and the reconciler runs
    again. *)
Lemma reopened_chat_counts_twice clk1 clk2 clk3 chat w :
  accounts (state w) = [] ->
  activeManager (state w) <> None ->
  map a_total_messages
    (accounts (state (snd (chatView [(clk1, ChatClicked chat); (clk2, BackPressed);
                                     (clk3, ChatClicked chat)] (None, w))))) = [2].
Proof.
  destruct w as [[cs ac ms am accs sums trs mem kw] st wr].
  cbn [state accounts activeManager]. intros -> Ham.
  destruct am as [am|]; [|contradiction].
  unfold chatView, chatViewStep, renderChatWindow, handleChatEvent,
    ChatMessages_effect, createAccountFromChat, createAccountFromChat_updater.
  simpl. rewrite !Z.eqb_refl. reflexivity.
Qed.

(** X25.  In a session that starts without accounts and with a manager
    selected, whatever chats are clicked, however often the chat view is
    left by the back button or a manager is clicked, the accounts
    collection ends with one account per distinct chat clicked, each with
    at least one message counted.  As long as the view is never left in
    between (only chat clicks), each account counts exactly one message
    and the processed set holds the external ids of the accounts.  The
    guard does not outlive the mounted component: a chat clicked, left by
    the back button and clicked again is counted twice. *)
Theorem openChats_once_each (events : list (Clock * ChatEvent)) (w : World) :
  accounts (state w) = [] ->
  activeManager (state w) <> None ->
  let r := chatView events (None, w) in
  NoDup (user_ids (snd r)) /\
  (forall id, In id (user_ids (snd r)) <-> In id (clickedIds events)) /\
  Forall (fun a => 1 <= a_total_messages a) (accounts (state (snd r))) /\
  (onlyClicks events ->
   Forall (fun a => a_total_messages a = 1) (accounts (state (snd r))) /\
   (events <> [] -> fst r = Some (user_ids (snd r)))) /\
  (forall clk1 clk2 clk3 chat,
     events = [(clk1, ChatClicked chat); (clk2, BackPressed);
               (clk3, ChatClicked chat)] ->
     map a_total_messages (accounts (state (snd r))) = [2]).
Proof.
  intros Hempty Hmgr r.
  assert (Hgen : forall evs mounted w0,
    activeManager (state w0) <> None ->
    NoDup (user_ids w0) ->
    (forall p, mounted = Some p -> incl p (user_ids w0)) ->
    Forall (fun a => 1 <= a_total_messages a) (accounts (state w0)) ->
    let r0 := chatView evs (mounted, w0) in
    NoDup (user_ids (snd r0)) /\
    Forall (fun a => 1 <= a_total_messages a) (accounts (state (snd r0))) /\
    (forall id, In id (user_ids (snd r0)) <->
                In id (user_ids w0) \/ In id (clickedIds evs))).
  { clear. induction evs as [|e evs IH]; intros mounted w0 H1 H2 H3 H4.
    - simpl. split; [exact H2|]. split; [exact H4|]. intros id. tauto.
    - change (chatView (e :: evs) (mounted, w0))
        with (chatView evs (chatViewStep (mounted, w0) e)).
      destruct (chatViewStep_keeps mounted w0 e H1 H2 H3 H4)
        as [S1 [S2 [S3 [S4 S5]]]].
      destruct (chatViewStep (mounted, w0) e) as [m1 w1].
      cbn [fst snd] in S1, S2, S3, S4, S5.
      destruct (IH m1 w1 S1 S2 S3 S4) as [R1 [R2 R3]].
      cbv zeta. split; [exact R1|]. split; [exact R2|].
      intros id. rewrite R3, S5.
      unfold clickedIds. cbn [flat_map]. rewrite !in_app_iff. cbn [In].
      tauto. }
  assert (Hclicks : forall evs mounted w0,
    onlyClicks evs ->
    activeManager (state w0) <> None ->
    user_ids w0 = match mounted with Some p => p | None => [] end ->
    Forall (fun a => a_total_messages a = 1) (accounts (state w0)) ->
    let r0 := chatView evs (mounted, w0) in
    Forall (fun a => a_total_messages a = 1) (accounts (state (snd r0))) /\
    (evs <> [] -> fst r0 = Some (user_ids (snd r0)))).
  { clear. induction evs as [|e evs IH]; intros mounted w0 Hc H1 H2 H3.
    - simpl. split; [exact H3 | intros H; contradiction].
    - apply Forall_cons_iff in Hc. destruct Hc as [[chat Hchat] Hc].
      destruct e as [clk ev]. cbn [snd] in Hchat. subst ev.
      change (chatView ((clk, ChatClicked chat) :: evs) (mounted, w0))
        with (chatView evs (chatViewStep (mounted, w0) (clk, ChatClicked chat))).
      destruct (chatViewStep_click mounted w0 clk chat H1 H2 H3)
        as [S1 [S2 S3]].
      destruct (chatViewStep (mounted, w0) (clk, ChatClicked chat)) as [m1 w1].
      cbn [fst snd] in S1, S2, S3. subst m1.
      destruct (IH (Some (user_ids w1)) w1 Hc S1 eq_refl S3) as [R1 R2].
      cbv zeta. split; [exact R1|]. intros _.
      destruct evs as [|e2 evs]; [reflexivity|]. apply R2. discriminate. }
  destruct (Hgen events None w) as [G1 [G2 G3]].
  - exact Hmgr.
  - unfold user_ids. rewrite Hempty. constructor.
  - discriminate.
  - rewrite Hempty. constructor.
  - fold r in G1, G2, G3.
    split; [exact G1|].
    split.
    { intros id. rewrite G3. unfold user_ids at 1. rewrite Hempty.
      cbn [map In]. tauto. }
    split; [exact G2|].
    split.
    { intros Hc. apply (Hclicks events None w Hc Hmgr).
      - unfold user_ids. now rewrite Hempty.
      - rewrite Hempty. constructor. }
    intros clk1 clk2 clk3 chat Hev. unfold r. rewrite Hev.
    now apply reopened_chat_counts_twice.
Qed.

Lemma openChats_once_each_witness :
  accounts (state activeWorld) = [] /\
  activeManager (state activeWorld) <> None /\
  map a_total_messages
    (accounts (state (snd (chatView [(clock0, ChatClicked annChat);
                                     (clock1, ChatClicked (chatOf 7 1));
                                     (clock2, ChatClicked annChat)]
                                    (None, activeWorld))))) = [1; 1] /\
  map a_total_messages
    (accounts (state (snd (chatView [(clock0, ChatClicked annChat);
                                     (clock1, BackPressed);
                                     (clock2, ChatClicked annChat)]
                                    (None, activeWorld))))) = [2] /\
  let r := chatView [(clock0, ChatClicked annChat);
                     (clock1, ManagerClicked (mkManager 2 "Менеджер 2" None
                                                (Some manager)
                                                "2023-11-14T22:14:20.000Z"));
                     (clock2, ChatClicked (chatOf 8 2))] (None, activeWorld) in
  NoDup (user_ids (snd r)) /\
  user_ids (snd r) = [42; 8].
Proof.
  split; [reflexivity|]. split; [discriminate|].
  split; [reflexivity|]. split; [reflexivity|].
  split; [|reflexivity].
  exact (proj1 (openChats_once_each
           [(clock0, ChatClicked annChat);
            (clock1, ManagerClicked (mkManager 2 "Менеджер 2" None
                                       (Some manager)
                                       "2023-11-14T22:14:20.000Z"));
            (clock2, ChatClicked (chatOf 8 2))] activeWorld eq_refl
           ltac:(discriminate))).
Defined.

(** ** A batch of members without repeated ids *)

Lemma membersAdditions_chat clk chatId b fresh :
  forall idx,
    Forall (fun m => cm_chat_id m = chatId)
           (membersAdditions clk chatId b idx fresh) /\
    map cm_user_id (membersAdditions clk chatId b idx fresh) = fresh /\
    (b = false ->
     Forall (fun m => cm_role m = Some member)
            (membersAdditions clk chatId b idx fresh)).
Proof.
  induction fresh as [|id rest IH]; intros idx; simpl.
  - repeat split; constructor.
  - destruct (IH (S idx)) as [H1 [H2 H3]].
    split; [now constructor|]. split; [now rewrite H2|].
    intros ->. constructor; [|now apply H3].
    simpl. now rewrite andb_false_r.
Qed.

(** X26.  For a non-empty batch without repeated ids, on a collection
    whose (chat, user) pairs are distinct, [addMembersBulk] keeps the
    existing records in front and appends one record of this chat for each
    id of the batch the chat does not hold yet, in batch order; the pairs
    stay distinct; no creator is added to a chat that had a member; the
    stored copy is the new collection. *)
Theorem addMembersBulk_batch
    (clk : Clock) (chatId : Z) (userIds : list Z) (w : World) :
  userIds <> [] ->
  NoDup userIds ->
  NoDup (memberPairs (chatMembers (state w))) ->
  let w' := addMembersBulk clk chatId userIds w in
  exists additions,
    chatMembers (state w') = chatMembers (state w) ++ additions /\
    Forall (fun m => cm_chat_id m = chatId) additions /\
    map cm_user_id additions =
      filter (fun id =>
                negb (existsb (Z.eqb id)
                        (map cm_user_id (getMembersForChat chatId w))))
             userIds /\
    NoDup (memberPairs (chatMembers (state w'))) /\
    (getMembersForChat chatId w <> [] ->
     Forall (fun m => cm_role m = Some member) additions) /\
    telegram_crm_chat_members (store w') = Some (Parsed (chatMembers (state w'))).
Proof.
  intros Hne Hids Hprev w'.
  assert (Hw : chatMembers (state w') =
               addMembersBulk_updater clk chatId userIds (chatMembers (state w)) /\
               telegram_crm_chat_members (store w') =
                 Some (Parsed (chatMembers (state w')))).
  { unfold w', addMembersBulk.
    destruct userIds; [contradiction | split; reflexivity]. }
  destruct Hw as [Hw Hs].
  set (ofChat := filter (fun m => cm_chat_id m =? chatId) (chatMembers (state w))).
  set (fresh := filter (fun id => negb (existsb (Z.eqb id) (map cm_user_id ofChat)))
                       userIds).
  destruct (membersAdditions_chat clk chatId
              (Nat.eqb (List.length ofChat) 0) fresh 0%nat) as [A1 [A2 A3]].
  exists (membersAdditions clk chatId (Nat.eqb (List.length ofChat) 0) 0 fresh).
  split; [rewrite Hw; reflexivity|].
  split; [exact A1|]. split; [exact A2|].
  split; [rewrite Hw; now apply addMembersBulk_updater_distinct|].
  split; [|exact Hs].
  intros Hmem. apply A3. unfold getMembersForChat in Hmem. fold ofChat in Hmem.
  destruct ofChat; [contradiction | reflexivity].
Qed.

Lemma addMembersBulk_batch_witness :
  [6; 8; 9] <> [] /\ NoDup [6; 8; 9] /\
  NoDup (memberPairs (chatMembers (state membersWorld))) /\
  memberPairs (chatMembers (state (addMembersBulk clock0 7 [6; 8; 9] membersWorld)))
    = [(7, 5); (7, 6); (7, 8); (7, 9)] /\
  NoDup (memberPairs
           (chatMembers (state (addMembersBulk clock0 7 [6; 8; 9] membersWorld)))).
Proof.
  assert (H1 : NoDup [6; 8; 9]) by (repeat constructor; simpl; intuition lia).
  assert (H2 : NoDup (memberPairs (chatMembers (state membersWorld)))).
  { simpl. repeat constructor; simpl; intuition congruence. }
  split; [discriminate|]. split; [exact H1|]. split; [exact H2|].
  split; [reflexivity|].
  destruct (addMembersBulk_batch clock0 7 [6; 8; 9] membersWorld)
    as [additions [_ [_ [_ [H _]]]]];
    [discriminate | exact H1 | exact H2 | exact H].
Defined.
